(** * NeuroPlan task graph: link extraction, force-directed layout and
      ASCII rendering ([graph.py])

    A shallow embedding of [find_links], [force_layout], [draw_line],
    [render_to_grid] and [generate_ascii_graph], followed by the properties
    of the pipeline.

    Conventions of the embedding:
    - Python exceptions are values: every operation that can raise returns a
      [result]; [Diverge] is the outcome of a loop that was given too little
      fuel and never stands for a Python behaviour.
    - Python numbers are [num]: unbounded integers ([Z]) or IEEE binary64
      floats (Rocq's primitive [float]), with Python's promotion rules.
    - A [dict] is an association list in insertion order with unique keys,
      which is the order [dict.items()] iterates in.
    - Strings are [string]; one [ascii] stands for one character. *)

From Stdlib Require Import ZArith List Bool Ascii String Floats Lia.
From stdpp Require Import base tactics option list strings.
Import ListNotations.

Local Open Scope Z_scope.

(** ** Exceptions and the result monad *)

Inductive exn : Set :=
| ZeroDivisionError
| OverflowError
| ValueError
| IndexError
| KeyError.

Inductive result (A : Type) : Type :=
| Ok (a : A)
| Raise (e : exn)
| Diverge.

Arguments Ok {A} a.
Arguments Raise {A} e.
Arguments Diverge {A}.

Definition bind {A B : Type} (m : result A) (k : A -> result B) : result B :=
  match m with
  | Ok a => k a
  | Raise e => Raise e
  | Diverge => Diverge
  end.

Notation "'do' x <- m ; k" := (bind m (fun x => k))
  (at level 10, x pattern, m at level 100, k at level 200).

(** [for x in l: acc = body(acc, x)], stopping at the first exception. *)
Fixpoint for_each {A S : Type} (body : S -> A -> result S) (l : list A) (s : S)
  : result S :=
  match l with
  | [] => Ok s
  | a :: l' => do s' <- body s a; for_each body l' s'
  end.

(** A comprehension [[f(a) for a in l]] whose element expression may raise. *)
Fixpoint map_result {A B : Type} (f : A -> result B) (l : list A) : result (list B) :=
  match l with
  | [] => Ok []
  | a :: l' => do b <- f a; do bs <- map_result f l'; Ok (b :: bs)
  end.

(** ** Python numbers *)

Module PyNum.

Inductive num : Set :=
| PyInt (z : Z)
| PyFloat (f : float).

(** The exact value of a number: a dyadic rational [m * 2^e], an infinity or
    NaN.  Python compares an [int] with a [float] (and two floats) by exact
    value. *)
Inductive xval : Set :=
| XNaN
| XInf (neg : bool)
| XDyadic (m e : Z).

Definition float_xval (f : float) : xval :=
  match Prim2SF f with
  | S754_nan => XNaN
  | S754_infinity s => XInf s
  | S754_zero _ => XDyadic 0 0
  | S754_finite s m e => XDyadic (if s then Z.neg m else Z.pos m) e
  end.

Definition num_xval (a : num) : xval :=
  match a with
  | PyInt z => XDyadic z 0
  | PyFloat f => float_xval f
  end.

(** [m1 * 2^e1] against [m2 * 2^e2], scaled to the smaller exponent. *)
Definition dyadic_compare (m1 e1 m2 e2 : Z) : comparison :=
  let e := Z.min e1 e2 in
  Z.compare (m1 * 2 ^ (e1 - e)) (m2 * 2 ^ (e2 - e)).

Definition xval_compare (a b : xval) : option comparison :=
  match a, b with
  | XNaN, _ | _, XNaN => None
  | XInf s1, XInf s2 =>
      Some (match s1, s2 with
            | true, false => Lt
            | false, true => Gt
            | _, _ => Eq
            end)
  | XInf s, XDyadic _ _ => Some (if s then Lt else Gt)
  | XDyadic _ _, XInf s => Some (if s then Gt else Lt)
  | XDyadic m1 e1, XDyadic m2 e2 => Some (dyadic_compare m1 e1 m2 e2)
  end.

Definition num_compare (a b : num) : option comparison :=
  xval_compare (num_xval a) (num_xval b).

(** [a < b], [a <= b], [a > b]: false as soon as an operand is NaN. *)
Definition num_lt (a b : num) : bool :=
  match num_compare a b with Some Lt => true | _ => false end.

Definition num_le (a b : num) : bool :=
  match num_compare a b with Some Lt | Some Eq => true | _ => false end.

Definition num_gt (a b : num) : bool :=
  match num_compare a b with Some Gt => true | _ => false end.

(** [float(z)]: round to nearest even; too large an integer raises. *)
Definition Z_to_float (z : Z) : result float :=
  let f := SF2Prim (binary_normalize prec emax z 0 false) in
  if is_infinity f then Raise OverflowError else Ok f.

Definition to_float (a : num) : result float :=
  match a with
  | PyInt z => Z_to_float z
  | PyFloat f => Ok f
  end.

(** A binary operator: exact on two ints, IEEE after promotion otherwise. *)
Definition arith (iop : Z -> Z -> Z) (fop : float -> float -> float)
  (a b : num) : result num :=
  match a, b with
  | PyInt x, PyInt y => Ok (PyInt (iop x y))
  | _, _ => do x <- to_float a; do y <- to_float b; Ok (PyFloat (fop x y))
  end.

Definition num_add : num -> num -> result num := arith Z.add PrimFloat.add.
Definition num_sub : num -> num -> result num := arith Z.sub PrimFloat.sub.
Definition num_mul : num -> num -> result num := arith Z.mul PrimFloat.mul.

Definition Z_to_SF (z : Z) : spec_float :=
  match z with
  | Z0 => S754_zero false
  | Zpos p => S754_finite false p 0
  | Zneg p => S754_finite true p 0
  end.

(** [a / b] on two ints: the correctly rounded quotient. *)
Definition int_truediv (a b : Z) : result float :=
  if b =? 0 then Raise ZeroDivisionError
  else
    let f := SF2Prim (SFdiv prec emax (Z_to_SF a) (Z_to_SF b)) in
    if is_infinity f then Raise OverflowError else Ok f.

(** [a / b]. *)
Definition num_truediv (a b : num) : result num :=
  match a, b with
  | PyInt x, PyInt y => do f <- int_truediv x y; Ok (PyFloat f)
  | _, _ =>
      do x <- to_float a;
      do y <- to_float b;
      if is_zero y then Raise ZeroDivisionError else Ok (PyFloat (x / y)%float)
  end.

(** [a ** 2]: exact on an int; on a float the square, and an overflow of a
    finite operand raises.  The square is the correctly rounded product
    [f * f]; CPython takes it from the C library's [pow], whose result can
    differ from that product in the last bit. *)
Definition num_sq (a : num) : result num :=
  match a with
  | PyInt x => Ok (PyInt (x * x))
  | PyFloat f =>
      let r := (f * f)%float in
      if is_infinity r && negb (is_infinity f) then Raise OverflowError
      else Ok (PyFloat r)
  end.

(** [math.sqrt(a)]: a negative operand is a domain error. *)
Definition py_sqrt (a : num) : result float :=
  do f <- to_float a;
  if (f <? 0)%float then Raise ValueError else Ok (PrimFloat.sqrt f).

(** [max(a, b)] and [min(a, b)] keep their first argument unless the second
    compares strictly greater (smaller). *)
Definition py_max (a b : num) : num := if num_gt b a then b else a.
Definition py_min (a b : num) : num := if num_lt b a then b else a.

(** [int(a)]: truncation toward zero. *)
Definition py_int (a : num) : result Z :=
  match a with
  | PyInt z => Ok z
  | PyFloat f =>
      match Prim2SF f with
      | S754_nan => Raise ValueError
      | S754_infinity _ => Raise OverflowError
      | S754_zero _ => Ok 0
      | S754_finite s m e =>
          let t := if 0 <=? e then Z.pos m * 2 ^ e else Z.pos m / 2 ^ (- e) in
          Ok (if s then - t else t)
      end
  end.

End PyNum.

Import PyNum.

(** ** Dictionaries in insertion order *)

Abbreviation dict V := (list (string * V)).

Fixpoint dict_get {V : Type} (d : dict V) (k : string) : option V :=
  match d with
  | [] => None
  | (k', v) :: d' => if String.eqb k' k then Some v else dict_get d' k
  end.

(** [d[k] = v]: an existing key keeps its place, a new key goes last. *)
Fixpoint dict_set {V : Type} (d : dict V) (k : string) (v : V) : dict V :=
  match d with
  | [] => [(k, v)]
  | (k', v') :: d' =>
      if String.eqb k' k then (k', v) :: d' else (k', v') :: dict_set d' k v
  end.

(** [k in d] *)
Definition dict_mem {V : Type} (d : dict V) (k : string) : bool :=
  match dict_get d k with Some _ => true | None => false end.

Definition keys {V : Type} (d : dict V) : list string := map fst d.

(** ** Layout nodes

    A node is the inner dictionary of [nodes_map]: ['title'], ['x'] and ['y']
    are there from the start, ['dx'] and ['dy'] appear with the first
    repulsion pass. *)

Record node : Set := mk_node {
  n_title : string;
  n_x : num;
  n_y : num;
  n_dx : option num;
  n_dy : option num
}.

Definition set_x (n : node) (v : num) : node :=
  mk_node (n_title n) v (n_y n) (n_dx n) (n_dy n).
Definition set_y (n : node) (v : num) : node :=
  mk_node (n_title n) (n_x n) v (n_dx n) (n_dy n).
Definition set_dx (n : node) (v : num) : node :=
  mk_node (n_title n) (n_x n) (n_y n) (Some v) (n_dy n).
Definition set_dy (n : node) (v : num) : node :=
  mk_node (n_title n) (n_x n) (n_y n) (n_dx n) (Some v).

(** Reading a key of the inner dictionary. *)
Definition get_key (o : option num) : result num :=
  match o with
  | Some v => Ok v
  | None => Raise KeyError
  end.

Abbreviation edge := (string * string)%type.

(** [node_id == central_node_id] where the right side may be [None]. *)
Definition is_central (node_id : string) (central_node_id : option string) : bool :=
  match central_node_id with
  | Some c => String.eqb node_id c
  | None => false
  end.

(** Truth value of an optional string: [None] and [""] are false. *)
Definition truthy (s : option string) : bool :=
  match s with
  | Some c => negb (String.eqb c "")
  | None => false
  end.

(** ** Force-directed layout *)

Module Layout.

(** The literals [0.01] and [2.5] as binary64 values. *)
Definition c_0_01 : float := 0x1.47ae147ae147bp-7%float.
Definition c_2_5 : float := 2.5%float.

(** [math.sqrt(dx**2 + dy**2) + 0.01] *)
Definition distance_of (dx dy : num) : result float :=
  do dx2 <- num_sq dx;
  do dy2 <- num_sq dy;
  do s <- num_add dx2 dy2;
  do r <- py_sqrt s;
  Ok (r + c_0_01)%float.

(** Body of the inner repulsion loop for one [node2]; [acc] holds
    [node1['dx']] and [node1['dy']]. *)
Definition repel (k : float) (i : string) (node1 : node)
  (acc : num * num) (entry : string * node) : result (num * num) :=
  let '(j, node2) := entry in
  if String.eqb i j then Ok acc
  else
    do dx <- num_sub (n_x node1) (n_x node2);
    do dy <- num_sub (n_y node1) (n_y node2);
    do distance <- distance_of dx dy;
    if num_gt (PyFloat distance) (PyInt 0) then
      do k2 <- num_sq (PyFloat k);
      do force <- num_truediv k2 (PyFloat distance);
      do ux <- num_truediv dx (PyFloat distance);
      do fx <- num_mul ux force;
      do ax <- num_add (fst acc) fx;
      do uy <- num_truediv dy (PyFloat distance);
      do fy <- num_mul uy force;
      do ay <- num_add (snd acc) fy;
      Ok (ax, ay)
    else Ok acc.

(** Body of the outer repulsion loop: reset the accumulators of [node1] and
    sum the push of every other node.  Only ['dx'] and ['dy'] of [node1]
    are written, and only positions are read. *)
Definition repulse (k : float) (nodes : dict node) (entry : string * node)
  : result (string * node) :=
  let '(i, node1) := entry in
  do acc <- for_each (repel k i node1) nodes (PyFloat 0, PyFloat 0);
  Ok (i, set_dy (set_dx node1 (fst acc)) (snd acc)).

Definition repulsion_pass (k : float) (nodes : dict node) : result (dict node) :=
  map_result (repulse k nodes) nodes.

(** [nodes[key][field] op= rhs]: the current value is read first, then the
    right-hand side is evaluated, then the field is stored. *)
Definition aug_assign (nodes : dict node) (key : string)
  (get : node -> option num) (set : node -> num -> node)
  (op : num -> num -> result num) (rhs : result num) : result (dict node) :=
  match dict_get nodes key with
  | None => Raise KeyError
  | Some n =>
      do cur <- get_key (get n);
      do v <- rhs;
      do r <- op cur v;
      Ok (dict_set nodes key (set n r))
  end.

(** Body of the attraction loop for one edge. *)
Definition attract (k : float) (central_node_id : option string)
  (nodes : dict node) (e : edge) : result (dict node) :=
  let '(source, target) := e in
  match dict_get nodes source, dict_get nodes target with
  | Some node1, Some node2 =>
      do dx <- num_sub (n_x node1) (n_x node2);
      do dy <- num_sub (n_y node1) (n_y node2);
      do distance <- distance_of dx dy;
      do d2 <- num_sq (PyFloat distance);
      do force0 <- num_truediv d2 (PyFloat k);
      do force <-
        (if truthy central_node_id
            && (is_central source central_node_id || is_central target central_node_id)
         then num_mul force0 (PyFloat c_2_5)
         else Ok force0);
      let pull (d : num) : result num :=
        do u <- num_truediv d (PyFloat distance); num_mul u force in
      do nodes <- aug_assign nodes source n_dx set_dx num_sub (pull dx);
      do nodes <- aug_assign nodes target n_dx set_dx num_add (pull dx);
      do nodes <- aug_assign nodes source n_dy set_dy num_sub (pull dy);
      aug_assign nodes target n_dy set_dy num_add (pull dy)
  | _, _ => Ok nodes
  end.

Definition attraction_pass (k : float) (central_node_id : option string)
  (edges : list edge) (nodes : dict node) : result (dict node) :=
  for_each (attract k central_node_id) edges nodes.

(** [min(bound - 1, max(0, v))] *)
Definition clamp (bound : Z) (v : num) : num :=
  py_min (PyInt (bound - 1)) (py_max (PyInt 0) v).

(** Body of the integration loop for one node. *)
Definition integrate (width height : Z) (central_node_id : option string)
  (entry : string * node) : result (string * node) :=
  let '(node_id, n) := entry in
  if is_central node_id central_node_id then
    do cx <- int_truediv width 2;
    let n := set_x n (PyFloat cx) in
    do cy <- int_truediv height 2;
    Ok (node_id, set_y n (PyFloat cy))
  else
    do fx <- get_key (n_dx n);
    do disp_x <- num_mul fx (PyFloat c_0_01);
    do fy <- get_key (n_dy n);
    do disp_y <- num_mul fy (PyFloat c_0_01);
    do x1 <- num_add (n_x n) disp_x;
    do y1 <- num_add (n_y n) disp_y;
    Ok (node_id, set_y (set_x n (clamp width x1)) (clamp height y1)).

Definition integration_pass (width height : Z) (central_node_id : option string)
  (nodes : dict node) : result (dict node) :=
  map_result (integrate width height central_node_id) nodes.

(** One pass of [for _ in range(iterations)]. *)
Definition iteration (k : float) (edges : list edge) (width height : Z)
  (central_node_id : option string) (nodes : dict node) : result (dict node) :=
  do nodes <- repulsion_pass k nodes;
  do nodes <- attraction_pass k central_node_id edges nodes;
  integration_pass width height central_node_id nodes.

Fixpoint iterate (n : nat) (step : dict node -> result (dict node))
  (nodes : dict node) : result (dict node) :=
  match n with
  | O => Ok nodes
  | S n' => do nodes <- step nodes; iterate n' step nodes
  end.

(** [k = math.sqrt((width * height) / len(nodes))] *)
Definition ideal_distance (nodes : dict node) (width height : Z) : result float :=
  do q <- int_truediv (width * height) (Z.of_nat (length nodes));
  py_sqrt (PyFloat q).

Definition force_layout (nodes : dict node) (edges : list edge)
  (width height : Z) (iterations : nat) (central_node_id : option string)
  : result (dict node) :=
  match nodes with
  | [] => Ok []
  | _ =>
      do k <- ideal_distance nodes width height;
      iterate iterations (iteration k edges width height central_node_id) nodes
  end.

End Layout.

Import Layout.

(** ** The character grid *)

Abbreviation grid := (list (list ascii)).

Definition len {A : Type} (l : list A) : Z := Z.of_nat (length l).

(** [l[i]] and [l[i] = v] on a Python list: a negative index counts from the
    end, anything else out of range raises [IndexError]. *)
Definition norm_index {A : Type} (l : list A) (i : Z) : option nat :=
  let j := if i <? 0 then i + len l else i in
  if (0 <=? j) && (j <? len l) then Some (Z.to_nat j) else None.

Definition py_getitem {A : Type} (l : list A) (i : Z) : result A :=
  match norm_index l i with
  | Some j => match l !! j with Some a => Ok a | None => Raise IndexError end
  | None => Raise IndexError
  end.

Definition py_setitem {A : Type} (l : list A) (i : Z) (v : A) : result (list A) :=
  match norm_index l i with
  | Some j => Ok (<[j := v]> l)
  | None => Raise IndexError
  end.

(** [grid[y][x] = c] *)
Definition grid_set (g : grid) (y x : Z) (c : ascii) : result grid :=
  do row <- py_getitem g y;
  do row' <- py_setitem row x c;
  py_setitem g y row'.

(** ** Line rasterisation *)

Module Raster.

(** [0 <= y1 < len(grid) and 0 <= x1 < len(grid[0]) and grid[y1][x1] == ' '],
    evaluated left to right with short circuit. *)
Definition blank_at (g : grid) (x1 y1 : Z) : result bool :=
  if (0 <=? y1) && (y1 <? len g) then
    do row0 <- py_getitem g 0;
    if (0 <=? x1) && (x1 <? len row0) then
      do row <- py_getitem g y1;
      do c <- py_getitem row x1;
      Ok (Ascii.eqb c " ")
    else Ok false
  else Ok false.

(** The guarded write that opens each pass of the loop. *)
Definition plot (g : grid) (x1 y1 : Z) : result grid :=
  do blank <- blank_at g x1 y1;
  if blank : bool then grid_set g y1 x1 "." else Ok g.

(** The variables of the [while True] loop. *)
Record cursor : Set := mk_cursor { c_x : Z; c_y : Z; c_err : Z }.

(** The two conditional updates that end one pass of the loop. *)
Definition advance (dx dy sx sy : Z) (c : cursor) : cursor :=
  let e2 := 2 * c_err c in
  let c1 := if dy <=? e2 then mk_cursor (c_x c + sx) (c_y c) (c_err c + dy) else c in
  if e2 <=? dx then mk_cursor (c_x c1) (c_y c1 + sy) (c_err c1 + dx) else c1.

(** The loop, run for at most [fuel] passes; it returns the grid and the
    cell on which it stopped through [break]. *)
Fixpoint draw_line_loop (fuel : nat) (g : grid) (x2 y2 dx dy sx sy : Z) (c : cursor)
  : result (grid * cursor) :=
  match fuel with
  | O => Diverge
  | S fuel' =>
      do g <- plot g (c_x c) (c_y c);
      if (c_x c =? x2) && (c_y c =? y2) then Ok (g, c)
      else draw_line_loop fuel' g x2 y2 dx dy sx sy (advance dx dy sx sy c)
  end.

(** Passes the loop needs at most: one per unit step on either axis, and the
    pass that breaks. *)
Definition line_fuel (x1 y1 x2 y2 : Z) : nat :=
  S (Z.to_nat (Z.abs (x2 - x1) + Z.abs (y2 - y1))).

Definition draw_line_with (fuel : nat) (g : grid) (x1 y1 x2 y2 : Z)
  : result (grid * cursor) :=
  let dx := Z.abs (x2 - x1) in
  let dy := - Z.abs (y2 - y1) in
  let sx := if x1 <? x2 then 1 else -1 in
  let sy := if y1 <? y2 then 1 else -1 in
  let err := dx + dy in
  draw_line_loop fuel g x2 y2 dx dy sx sy (mk_cursor x1 y1 err).

Definition draw_line (g : grid) (x1 y1 x2 y2 : Z) : result grid :=
  do r <- draw_line_with (line_fuel x1 y1 x2 y2) g x1 y1 x2 y2;
  Ok (fst r).

End Raster.

Import Raster.

(** ** Rendering *)

Module Render.

(** [[[' ' for _ in range(width)] for _ in range(height)]] *)
Definition blank_grid (width height : Z) : grid :=
  repeat (repeat " "%char (Z.to_nat width)) (Z.to_nat height).

(** Body of the edge loop. *)
Definition draw_edge (nodes : dict node) (g : grid) (e : edge) : result grid :=
  let '(source, target) := e in
  match dict_get nodes source, dict_get nodes target with
  | Some n1, Some n2 =>
      do x1 <- py_int (n_x n1);
      do y1 <- py_int (n_y n1);
      do x2 <- py_int (n_x n2);
      do y2 <- py_int (n_y n2);
      draw_line g x1 y1 x2 y2
  | _, _ => Ok g
  end.

(** [title[:10]] wrapped in [<...>] for the central node, [[...]] otherwise. *)
Definition label_of (central_node_id : option string) (node_id : string) (data : node)
  : string :=
  let title := substring 0 10 (n_title data) in
  if is_central node_id central_node_id
  then ("<" ++ title ++ ">")%string
  else ("[" ++ title ++ "]")%string.

Fixpoint enumerate_from {A : Type} (i : Z) (l : list A) : list (Z * A) :=
  match l with
  | [] => []
  | a :: l' => (i, a) :: enumerate_from (i + 1) l'
  end.

Definition enumerate {A : Type} (l : list A) : list (Z * A) := enumerate_from 0 l.

(** Body of [for i, char in enumerate(label)]. *)
Definition put_char (width x y : Z) (g : grid) (ic : Z * ascii) : result grid :=
  let '(i, char) := ic in
  if x + i <? width then grid_set g y (x + i) char else Ok g.

(** Body of the node loop. *)
Definition draw_node (width height : Z) (central_node_id : option string)
  (g : grid) (entry : string * node) : result grid :=
  let '(node_id, data) := entry in
  do x <- py_int (n_x data);
  do y <- py_int (n_y data);
  let label := list_ascii_of_string (label_of central_node_id node_id data) in
  if (0 <=? y) && (y <? height) && (0 <=? x) && (x <? width - len label) then
    for_each (put_char width x y) (enumerate label) g
  else Ok g.

Definition render_to_grid (nodes : dict node) (edges : list edge)
  (width height : Z) (central_node_id : option string) : result grid :=
  let g := blank_grid width height in
  do g <- for_each (draw_edge nodes) edges g;
  for_each (draw_node width height central_node_id) (nodes : list (string * node)) g.

End Render.

Import Render.

(** ** Link extraction *)

Record Task : Set := mk_task {
  task_id : string;
  task_title : string;
  task_description : string;
  task_parent_id : option string
}.

(** What the interpreter process fixes: the salted string hash, and the
    order in which [list(set(l))] enumerates the distinct elements of [l]. *)
Record runtime : Type := mk_runtime {
  hash : string -> Z;
  set_list : list edge -> list edge
}.

(** [list(set(l))] holds every element of [l] once, in some order. *)
Definition set_semantics (rt : runtime) : Prop :=
  forall l, List.NoDup (set_list rt l) /\ forall e, In e (set_list rt l) <-> In e l.

(** A runtime for examples: a constant hash, and distinct elements listed in
    the order of their last occurrence. *)
Definition const_runtime (h : Z) : runtime :=
  mk_runtime (fun _ => h) (remove_dups (A := edge)).

(** The same with the length of the string as its hash. *)
Definition length_runtime : runtime :=
  mk_runtime (fun s => Z.of_nat (String.length s)) (remove_dups (A := edge)).

Module Links.

(** The character class [[a-f0-9\-]]. *)
Definition is_link_char (c : ascii) : bool :=
  let n := nat_of_ascii c in
  ((97 <=? n) && (n <=? 102) || (48 <=? n) && (n <=? 57) || (n =? 45))%nat.

(** The longest prefix of link characters, and what follows it. *)
Fixpoint span_link (s : string) : string * string :=
  match s with
  | String c s' =>
      if is_link_char c
      then let '(run, rest) := span_link s' in (String c run, rest)
      else (EmptyString, s)
  | EmptyString => (EmptyString, EmptyString)
  end.

(** A match of [\[\[([a-f0-9\-]+)\]\]] starting at the head of [s]: the
    captured group and the number of characters consumed.  Neither bracket
    is a link character, so only the longest run can be followed by []]]. *)
Definition match_link (s : string) : option (string * nat) :=
  match s with
  | String "[" (String "[" s') =>
      match span_link s' with
      | (EmptyString, _) => None
      | (run, String "]" (String "]" _)) => Some (run, (String.length run + 4)%nat)
      | _ => None
      end
  | _ => None
  end.

(** [link_pattern.findall(s)]: leftmost matches, scanning on after each one;
    [skip] counts the characters of the last match still to pass. *)
Fixpoint findall_from (skip : nat) (s : string) : list string :=
  match s with
  | EmptyString => []
  | String _ s' =>
      match skip with
      | S skip' => findall_from skip' s'
      | O =>
          match match_link s with
          | Some (run, n) => run :: findall_from (n - 1) s'
          | None => findall_from 0 s'
          end
      end
  end.

Definition findall (s : string) : list string := findall_from 0 s.

Definition mem (s : string) (l : list string) : bool := existsb (String.eqb s) l.

(** The links one task appends: the references of its description, then its
    parent. *)
Definition links_of (task_ids : list string) (task : Task) : list edge :=
  let found_ids := findall (task_description task) in
  let refs :=
    List.filter (fun target_id =>
                   mem target_id task_ids && negb (String.eqb (task_id task) target_id))
                found_ids in
  let parent :=
    match task_parent_id task with
    | Some p =>
        if negb (String.eqb p "") && mem p task_ids then [(task_id task, p)] else []
    | None => []
    end in
  map (fun target_id => (task_id task, target_id)) refs ++ parent.

Definition find_links (rt : runtime) (tasks : list Task) : list edge :=
  let task_ids := map task_id tasks in
  let links := flat_map (links_of task_ids) tasks in
  set_list rt links.

End Links.

Import Links.

(** ** The pipeline *)

Module Pipeline.

Definition no_tasks_message : string := "No tasks to build a graph from.".
Definition no_links_message : string :=
  "No links or parent-child relationships found between tasks.".

(** One entry of the [nodes_map] comprehension. *)
Definition initial_node (rt : runtime) (width height : Z) (task : Task) : result node :=
  do cx <- int_truediv width 2;
  do x0 <- num_add (PyFloat cx) (PyInt (hash rt (task_id task) mod 10 - 5));
  do cy <- int_truediv height 2;
  do y0 <- num_add (PyFloat cy) (PyInt (hash rt (task_title task) mod 10 - 5));
  Ok (mk_node (task_title task) x0 y0 None None).

Definition add_node (rt : runtime) (width height : Z) (nodes : dict node) (task : Task)
  : result (dict node) :=
  do n <- initial_node rt width height task;
  Ok (dict_set nodes (task_id task) n).

Definition nodes_map_of (rt : runtime) (width height : Z) (tasks : list Task)
  : result (dict node) :=
  for_each (add_node rt width height) tasks [].

(** ["\n".join("".join(row) for row in grid)] *)
Definition grid_to_string (g : grid) : string :=
  String.concat (String "010" EmptyString) (map string_of_list_ascii g).

Definition generate_ascii_graph (rt : runtime) (tasks : list Task)
  (width height : Z) (central_node_id : option string) : result string :=
  match tasks with
  | [] => Ok no_tasks_message
  | _ =>
      do nodes_map <- nodes_map_of rt width height tasks;
      let edges := find_links rt tasks in
      if (match edges with [] => true | _ => false end) && (1 <? len tasks)
      then Ok no_links_message
      else
        do positioned_nodes <-
          force_layout nodes_map edges (width - 12) (height - 4) 100 central_node_id;
        do g <- render_to_grid positioned_nodes edges width height central_node_id;
        Ok (grid_to_string g)
  end.

End Pipeline.

Import Pipeline.

(** ** Vocabulary of the statements *)

(** A grid of [h] rows of [w] columns each. *)
Definition rect (w h : nat) (g : grid) : Prop :=
  length g = h /\ Forall (fun row => length row = w) g.

(** The character at row [r], column [k], if the grid has such a cell. *)
Definition cell (g : grid) (r k : nat) : option ascii :=
  match g !! r with
  | Some row => row !! k
  | None => None
  end.

(** The loop of [draw_line] from [(x1, y1)] to [(x2, y2)] after [a] unit
    steps along x and [b] along y. *)
Definition on_line (x1 y1 x2 y2 a b : Z) (c : cursor) : Prop :=
  0 <= a <= Z.abs (x2 - x1) /\
  0 <= b <= Z.abs (y2 - y1) /\
  c_x c = x1 + (if x1 <? x2 then 1 else -1) * a /\
  c_y c = y1 + (if y1 <? y2 then 1 else -1) * b /\
  c_err c = (1 + b) * Z.abs (x2 - x1) - (1 + a) * Z.abs (y2 - y1).

(** The node sits at [(width / 2, height / 2)]. *)
Definition at_center (width height : Z) (n : node) : Prop :=
  exists cx cy,
    int_truediv width 2 = Ok cx /\ int_truediv height 2 = Ok cy /\
    n_x n = PyFloat cx /\ n_y n = PyFloat cy.

(** [0 <= x <= width - 1] and [0 <= y <= height - 1], as Python compares. *)
Definition in_bounds (width height : Z) (n : node) : Prop :=
  num_le (PyInt 0) (n_x n) = true /\ num_le (n_x n) (PyInt (width - 1)) = true /\
  num_le (PyInt 0) (n_y n) = true /\ num_le (n_y n) (PyInt (height - 1)) = true.

(** Both endpoints of the edge are keys of the node map. *)
Definition present (nodes : dict node) (e : edge) : bool :=
  dict_mem nodes (fst e) && dict_mem nodes (snd e).

(** The character the label of a node puts at row [r], column [k], if the
    node is drawn and its label reaches that cell. *)
Definition label_char (width height : Z) (central_node_id : option string)
  (entry : string * node) (r k : nat) : option ascii :=
  match py_int (n_x (snd entry)), py_int (n_y (snd entry)) with
  | Ok x, Ok y =>
      let label := list_ascii_of_string (label_of central_node_id (fst entry) (snd entry)) in
      if decide (0 <= y < height /\ 0 <= x < width - len label /\
                 Z.of_nat r = y /\ x <= Z.of_nat k)
      then label !! Z.to_nat (Z.of_nat k - x)
      else None
  | _, _ => None
  end.

(** What the cell [(r, k)] shows once the labels of [nodes] are drawn in
    order over a cell that showed [c0]: the label drawn last wins. *)
Definition paint (width height : Z) (central_node_id : option string)
  (nodes : dict node) (r k : nat) (c0 : option ascii) : option ascii :=
  fold_left (fun acc entry =>
               match label_char width height central_node_id entry r k with
               | Some c => Some c
               | None => acc
               end) nodes c0.

(** [int()] succeeds on both coordinates. *)
Definition finite_position (n : node) : Prop :=
  exists x y, py_int (n_x n) = Ok x /\ py_int (n_y n) = Ok y.

(** Every cell is blank or an edge mark. *)
Definition only_marks (g : grid) : Prop :=
  forall (r k : nat) (c : ascii),
    cell g r k = Some c -> c = " "%char \/ c = "."%char.

(** ** Sample inputs *)

Module Samples.

Definition two_nodes : dict node :=
  [("a", mk_node "Alpha" (PyFloat 15) (PyFloat 3) None None);
   ("b", mk_node "Beta" (PyFloat 18) (PyFloat 2) None None)].

Definition lone_node : dict node :=
  [("a", mk_node "Alpha" (PyInt 0) (PyInt 0) None None)].

(** [two_nodes] joined by one edge, after three passes on a 28 x 6 canvas. *)
Definition two_nodes_laid_out : dict node :=
  Eval vm_compute in
    match force_layout two_nodes [("a", "b")] 28 6 3 None with
    | Ok d => d
    | _ => []
    end.

(** Nodes whose truncated positions lie left of, above and beyond a 20 x 4
    grid, and one inside it. *)
Definition stray_nodes : dict node :=
  [("a", mk_node "Alpha" (PyFloat (-3.5)) (PyInt 100) None None);
   ("b", mk_node "Beta" (PyInt 57) (PyFloat (-0.25)) None None);
   ("c", mk_node "Gamma" (PyFloat 2.5) (PyInt 1) None None)].

(** A label of five characters one column from the left of a grid five
    columns wide. *)
Definition tight_nodes : dict node :=
  [("a", mk_node "abc" (PyInt 1) (PyInt 0) None None)].

(** Task [a] names [b] in its description; [b] is a sub-task of [a]. *)
Definition referring_task : Task := mk_task "a" "Alpha" "see [[b]]" None.
Definition child_task : Task := mk_task "b" "Beta" "" (Some "a").

(** A parent and its sub-task, with no reference in either description. *)
Definition parent_task : Task := mk_task "a" "Alpha" "" None.

(** A task recorded as its own parent. *)
Definition self_parent_task : Task := mk_task "a" "Alpha" "" (Some "a").

End Samples.

(** ** Further vocabulary *)

(** The ids of a node map with their titles, in order. *)
Definition titles (d : dict node) : list (string * string) :=
  map (fun entry => (fst entry, n_title (snd entry))) d.

(** The ids of a node map with their positions, in order. *)
Definition positions (d : dict node) : list (string * (num * num)) :=
  map (fun entry => (fst entry, (n_x (snd entry), n_y (snd entry)))) d.

(** The cell at integer coordinates [(x, y)] is not blank, or lies outside
    the grid. *)
Definition inked (g : grid) (x y : Z) : Prop :=
  forall r k : nat, Z.of_nat r = y -> Z.of_nat k = x -> cell g r k <> Some " "%char.

(** Going from [g] to [g'] changed cells only from blank to an edge mark,
    and only inside the box spanned by [(x1, y1)] and [(x2, y2)]. *)
Definition marked_within (x1 y1 x2 y2 : Z) (g g' : grid) : Prop :=
  forall r k : nat,
    cell g' r k = cell g r k \/
    (cell g r k = Some " "%char /\ cell g' r k = Some "."%char /\
     Z.min x1 x2 <= Z.of_nat k <= Z.max x1 x2 /\
     Z.min y1 y2 <= Z.of_nat r <= Z.max y1 y2).

(** The outcome is a value or an arithmetic exception: no missing key, no
    index out of range, no loop out of fuel. *)
Definition arithmetic_only {A : Type} (r : result A) : Prop :=
  match r with
  | Ok _ => True
  | Raise ZeroDivisionError | Raise OverflowError | Raise ValueError => True
  | Raise IndexError | Raise KeyError => False
  | Diverge => False
  end.

(** Every node carries its two force accumulators. *)
Definition has_forces (d : dict node) : Prop :=
  forall entry, In entry d -> n_dx (snd entry) <> None /\ n_dy (snd entry) <> None.

(** ** The web exporter ([web_graph.py])

    [generate_web_graph] builds three values from the tasks before it turns
    them into JSON and writes the page; [web_edges] is the second one, the
    list [edges].  An edge is the dictionary [{"from", "to", "arrows":
    "to"}], with ["dashes": True] added for a reference found in a
    description. *)

Module WebGraph.

Record web_edge : Set := mk_web_edge {
  we_from : string;
  we_to : string;
  we_dashes : bool
}.

(** The edges one task appends: its parent link, then its references. *)
Definition web_edges_of (task_ids : list string) (task : Task) : list web_edge :=
  let parent :=
    match task_parent_id task with
    | Some p =>
        if negb (String.eqb p "") && mem p task_ids
        then [mk_web_edge (task_id task) p false]
        else []
    | None => []
    end in
  let refs :=
    List.filter (fun target_id => mem target_id task_ids)
      (findall (task_description task)) in
  parent ++ map (fun target_id => mk_web_edge (task_id task) target_id true) refs.

Definition web_edges (tasks : list Task) : list web_edge :=
  flat_map (web_edges_of (map task_id tasks)) tasks.

End WebGraph.

Import WebGraph.

(** ** Reference tokens *)

(** A non-empty run of characters of [[a-f0-9\-]]. *)
Definition link_run (run : string) : Prop :=
  run <> EmptyString /\
  List.Forall (fun c => is_link_char c = true) (list_ascii_of_string run).

(** The text holds the token [[[run]]]. *)
Definition holds_token (run s : string) : Prop :=
  exists pre post, s = (pre ++ "[[" ++ run ++ "]]" ++ post)%string.

(** The text begins with two opening brackets. *)
Definition starts_token (s : string) : bool :=
  match s with
  | String a (String b _) => Ascii.eqb a "[" && Ascii.eqb b "["
  | _ => false
  end.

(** The text begins with two closing brackets. *)
Definition closes_token (s : string) : bool :=
  match s with
  | String a (String b _) => Ascii.eqb a "]" && Ascii.eqb b "]"
  | _ => false
  end.

(** None of the first [k] positions of the text begins a token. *)
Fixpoint no_start (k : nat) (s : string) : Prop :=
  match k, s with
  | S k', String _ s' => starts_token s = false /\ no_start k' s'
  | _, _ => True
  end.

(** ** The task manager ([task_manager.py])

    [TaskManager.tasks] maps ids to task objects.  An object is the task
    with its list [children]; the elements of that list are task objects
    too, which the code only ever uses through their [id], so the list
    holds ids here.  The calls to the storage backend ([storage.load],
    [save_tasks]) are outside the model: [load_tasks] starts from the
    task objects built from the stored records, in storage order, and
    nothing is written. *)

Module Manager.

Record task_obj : Set := mk_obj {
  obj_task : Task;
  obj_children : list string
}.

Definition obj_id (o : task_obj) : string := task_id (obj_task o).
Definition obj_parent_id (o : task_obj) : option string := task_parent_id (obj_task o).

(** [task.children = c] *)
Definition set_children (o : task_obj) (c : list string) : task_obj :=
  mk_obj (obj_task o) c.

(** [task.parent_id = None] *)
Definition clear_parent (o : task_obj) : task_obj :=
  mk_obj (mk_task (task_id (obj_task o)) (task_title (obj_task o))
            (task_description (obj_task o)) None)
         (obj_children o).

(** [del d[k]] for a key that is there; nothing to remove otherwise. *)
Fixpoint dict_del {V : Type} (d : dict V) (k : string) : dict V :=
  match d with
  | [] => []
  | (k', v) :: d' => if String.eqb k' k then d' else (k', v) :: dict_del d' k
  end.

(** The comprehension [temp_tasks]: each object under its id. *)
Definition temp_tasks_of (objects : list task_obj) : dict task_obj :=
  fold_left (fun d o => dict_set d (obj_id o) o) objects [].

(** [task.parent_id and task.parent_id in tasks]: the parent to link to. *)
Definition known_parent (tasks : dict task_obj) (o : task_obj) : option string :=
  match obj_parent_id o with
  | Some p => if negb (String.eqb p "") && dict_mem tasks p then Some p else None
  | None => None
  end.

(** Body of the loop of [load_tasks] for the entry under [task_id]: the
    object is read from the map as it is at that moment. *)
Definition link_task (temp_tasks : dict task_obj) (task_id : string) : dict task_obj :=
  match dict_get temp_tasks task_id with
  | None => temp_tasks
  | Some task =>
      let task := set_children task [] in
      let temp_tasks := dict_set temp_tasks task_id task in
      match known_parent temp_tasks task with
      | Some p =>
          match dict_get temp_tasks p with
          | Some parent =>
              dict_set temp_tasks p
                (set_children parent (obj_children parent ++ [task_id]))
          | None => temp_tasks
          end
      | None => dict_set temp_tasks task_id (clear_parent task)
      end
  end.

(** [load_tasks]: the value left in [self.tasks]. *)
Definition load_tasks (objects : list task_obj) : dict task_obj :=
  let temp_tasks := temp_tasks_of objects in
  fold_left link_task (keys temp_tasks) temp_tasks.

(** [get_task] *)
Definition get_task (tasks : dict task_obj) (task_id : string) : option task_obj :=
  dict_get tasks task_id.

(** [add_task]; [new_id] is the id [uuid4] gave the new task.  The new map
    and the new task. *)
Definition add_task (tasks : dict task_obj) (new_id title description : string)
  (parent_id : option string) : dict task_obj * task_obj :=
  let new_task := mk_obj (mk_task new_id title description parent_id) [] in
  let tasks := dict_set tasks new_id new_task in
  let tasks :=
    match known_parent tasks new_task with
    | Some p =>
        match dict_get tasks p with
        | Some parent_task =>
            dict_set tasks p
              (set_children parent_task (obj_children parent_task ++ [new_id]))
        | None => tasks
        end
    | None => tasks
    end in
  (tasks, match dict_get tasks new_id with Some o => o | None => new_task end).

(** [delete_task], with at most [fuel] nested calls: [Diverge] stands for a
    nesting deeper than [fuel].  (CPython itself gives up such a nesting at
    its recursion limit, with [RecursionError].) *)
Fixpoint delete_task (fuel : nat) (tasks : dict task_obj) (task_id : string)
  : result (dict task_obj) :=
  match fuel with
  | O => Diverge
  | S fuel' =>
      match get_task tasks task_id with
      | None => Ok tasks
      | Some task_to_delete =>
          do tasks <- for_each (delete_task fuel') (obj_children task_to_delete) tasks;
          let tasks :=
            match known_parent tasks task_to_delete with
            | Some p =>
                match dict_get tasks p with
                | Some parent =>
                    dict_set tasks p
                      (set_children parent
                         (List.filter (fun c => negb (String.eqb c task_id))
                            (obj_children parent)))
                | None => tasks
                end
            | None => tasks
            end in
          Ok (dict_del tasks task_id)
      end
  end.

End Manager.

Import Manager.

(** *** Vocabulary for the loaded tree *)

(** The part of [l] from the first [p] on. *)
Fixpoint suffix_from (p : string) (l : list string) : list string :=
  match l with
  | [] => []
  | x :: l' => if String.eqb x p then l else suffix_from p l'
  end.

(** In [temp], the task [c] names the known task [p] as its parent. *)
Definition links_to (temp : dict task_obj) (p c : string) : bool :=
  match dict_get temp c with
  | Some oc =>
      match known_parent temp oc with
      | Some q => String.eqb q p
      | None => false
      end
  | None => false
  end.

Definition with_parent (t : Task) (p : option string) : Task :=
  mk_task (task_id t) (task_title t) (task_description t) p.

(** What the loop of [load_tasks] has made of the object [orig] stored under
    [id] once the ids [done] are processed. *)
Definition loaded_obj (temp : dict task_obj) (done : list string) (id : string)
  (orig : task_obj) : task_obj :=
  if mem id done
  then mk_obj (with_parent (obj_task orig) (known_parent temp orig))
         (List.filter (links_to temp id) (suffix_from id done))
  else mk_obj (obj_task orig)
         (obj_children orig ++ List.filter (links_to temp id) done).

Definition loading (temp : dict task_obj) (done : list string) (st : dict task_obj)
  : Prop :=
  keys st = keys temp /\
  forall id orig, dict_get temp id = Some orig ->
                  dict_get st id = Some (loaded_obj temp done id orig).

(** In [tasks], the task [c] carries [p] as its [parent_id]. *)
Definition child_of (tasks : dict task_obj) (p c : string) : bool :=
  match dict_get tasks c with
  | Some o_c =>
      match obj_parent_id o_c with
      | Some q => String.eqb q p
      | None => false
      end
  | None => false
  end.

(** Some task of the map lists itself among its children. *)
Definition self_child (tasks : dict task_obj) (id : string) : Prop :=
  exists o, dict_get tasks id = Some o /\ In id (obj_children o).

(** Every listed child that is a key of the map is stored after its parent. *)
Definition forward (tasks : dict task_obj) : Prop :=
  forall p o c,
    dict_get tasks p = Some o -> In c (obj_children o) -> In c (keys tasks) ->
    In c (tl (suffix_from p (keys tasks))).

(** *** Vocabulary for floats *)

(** The value is a number: a zero, a finite value or an infinity. *)
Definition not_nan (s : spec_float) : Prop :=
  match s with S754_nan => False | _ => True end.
(** * Properties *)

(** ** Sanity checks of the number model *)

Example Z_to_float_15 : Z_to_float 15 = Ok 15%float.
Proof. reflexivity. Qed.
Example Z_to_float_rounds : Z_to_float (2 ^ 53 + 1) = Ok 9007199254740992%float.
Proof. reflexivity. Qed.
Example Z_to_float_overflow : Z_to_float (10 ^ 400) = Raise OverflowError.
Proof. reflexivity. Qed.
Example int_truediv_1_2 : int_truediv 1 2 = Ok 0.5%float.
Proof. reflexivity. Qed.
Example int_truediv_1_3 : int_truediv 1 3 = Ok 0x1.5555555555555p-2%float.
Proof. reflexivity. Qed.
Example int_truediv_big : int_truediv (2^70 + 1) 3 = Ok 0x1.5555555555555p+68%float.
Proof. reflexivity. Qed.
Example py_int_neg : py_int (PyFloat (-2.75)%float) = Ok (-2).
Proof. reflexivity. Qed.
Example py_int_pos : py_int (PyFloat (13.75)%float) = Ok 13.
Proof. reflexivity. Qed.
Example num_lt_mixed : num_lt (PyFloat 0.5%float) (PyInt 1) = true.
Proof. reflexivity. Qed.
Example num_le_half_zero : num_le (PyFloat 0.5%float) (PyInt 0) = false.
Proof. reflexivity. Qed.
Example py_max_nan : py_max (PyInt 0) (PyFloat nan) = PyInt 0.
Proof. reflexivity. Qed.


(** ** The result monad *)

Lemma bind_Ok {A B : Type} (m : result A) (k : A -> result B) (b : B) :
  bind m k = Ok b <-> exists a, m = Ok a /\ k a = Ok b.
Proof.
  split.
  - destruct m as [a| |]; simpl; intros H; try discriminate. eauto.
  - intros (a & -> & H). exact H.
Qed.

(** Split every successful [bind] among the hypotheses. *)
Ltac inv_bind :=
  repeat match goal with
    | H : bind _ _ = Ok _ |- _ =>
        let a := fresh "a" in
        let Ha := fresh "Ha" in
        apply bind_Ok in H; destruct H as (a & Ha & H)
    | H : Ok _ = Ok _ |- _ => injection H as H
    | H : Raise _ = Ok _ |- _ => discriminate H
    | H : Diverge = Ok _ |- _ => discriminate H
    end.

Lemma map_result_Ok {A B : Type} (f : A -> result B) (l : list A) (l' : list B) :
  map_result f l = Ok l' <-> Forall2 (fun a b => f a = Ok b) l l'.
Proof.
  revert l'. induction l as [|a l IH]; intros l'; simpl.
  - split.
    + intros H. inv_bind. subst. constructor.
    + intros H. inversion H. reflexivity.
  - split.
    + intros H. inv_bind. subst. constructor; [assumption|]. apply IH. assumption.
    + intros H. inversion H as [|? b ? bs Hb Hbs]; subst.
      rewrite Hb. simpl. apply IH in Hbs. rewrite Hbs. reflexivity.
Qed.

Lemma for_each_app {A S : Type} (body : S -> A -> result S) (l1 l2 : list A) (s : S) :
  for_each body (l1 ++ l2) s = do s' <- for_each body l1 s; for_each body l2 s'.
Proof.
  revert s. induction l1 as [|a l1 IH]; intros s; simpl; [reflexivity|].
  destruct (body s a); simpl; auto.
Qed.

(** A property kept by every pass of a loop holds when the loop ends. *)
Lemma for_each_invariant {A S : Type} (P : S -> Prop)
  (body : S -> A -> result S) (l : list A) :
  (forall s a s', P s -> body s a = Ok s' -> P s') ->
  forall s s', P s -> for_each body l s = Ok s' -> P s'.
Proof.
  intros Hstep. induction l as [|a l IH]; intros s s' Hs H; simpl in H.
  - inv_bind. subst. assumption.
  - inv_bind. eauto.
Qed.

(** ** Lists and grids *)

Lemma norm_index_in_range {A : Type} (l : list A) (i : Z) :
  0 <= i < len l -> norm_index l i = Some (Z.to_nat i).
Proof.
  intros [H0 H1]. unfold norm_index.
  destruct (Z.ltb_spec i 0); [lia|].
  destruct (Z.leb_spec 0 i); [|lia].
  destruct (Z.ltb_spec i (len l)); [|lia]. reflexivity.
Qed.

Lemma py_getitem_in_range {A : Type} (l : list A) (i : Z) :
  0 <= i < len l ->
  exists a, py_getitem l i = Ok a /\ l !! Z.to_nat i = Some a.
Proof.
  intros Hi. unfold py_getitem. rewrite norm_index_in_range by assumption.
  destruct (lookup_lt_is_Some_2 l (Z.to_nat i)) as [a Ha].
  { unfold len in Hi. lia. }
  exists a. rewrite Ha. auto.
Qed.

Lemma py_setitem_in_range {A : Type} (l : list A) (i : Z) (v : A) :
  0 <= i < len l -> py_setitem l i v = Ok (<[Z.to_nat i := v]> l).
Proof.
  intros Hi. unfold py_setitem. rewrite norm_index_in_range by assumption. reflexivity.
Qed.

Lemma rect_row (w h : nat) (g : grid) (r : nat) (row : list ascii) :
  rect w h g -> g !! r = Some row -> length row = w.
Proof.
  intros [_ Hrows] Hr. rewrite Forall_forall in Hrows. apply Hrows.
  eapply list_elem_of_lookup_2. eassumption.
Qed.

Lemma rect_len (w h : nat) (g : grid) : rect w h g -> len g = Z.of_nat h.
Proof. intros [Hlen _]. unfold len. rewrite Hlen. reflexivity. Qed.

(** A write inside the grid succeeds, keeps the dimensions and changes the
    addressed cell only. *)
Lemma grid_set_in_range (w h : nat) (g : grid) (y x : Z) (c : ascii) :
  rect w h g -> 0 <= y < Z.of_nat h -> 0 <= x < Z.of_nat w ->
  exists g', grid_set g y x c = Ok g' /\ rect w h g' /\
    forall r k : nat,
      cell g' r k =
      if decide (Z.of_nat r = y /\ Z.of_nat k = x) then Some c else cell g r k.
Proof.
  intros Hrect Hy Hx. unfold grid_set.
  pose proof (rect_len _ _ _ Hrect) as Hlen.
  destruct (py_getitem_in_range g y) as (row & Hget & Hrow); [lia|].
  rewrite Hget. simpl.
  pose proof (rect_row _ _ _ _ _ Hrect Hrow) as Hw.
  rewrite py_setitem_in_range by (unfold len; lia). simpl.
  rewrite py_setitem_in_range by lia.
  eexists. split; [reflexivity|]. split.
  - destruct Hrect as [Hh Hrows]. split.
    + rewrite length_insert. assumption.
    + apply Forall_insert; [assumption|]. rewrite length_insert. assumption.
  - intros r k. unfold cell.
    destruct (decide (r = Z.to_nat y)) as [->|Hr].
    + rewrite list_lookup_insert_eq by (apply lookup_lt_is_Some; eauto).
      destruct (decide (k = Z.to_nat x)) as [->|Hk].
      * rewrite list_lookup_insert_eq by lia.
        rewrite decide_True by lia. reflexivity.
      * rewrite list_lookup_insert_ne by congruence.
        rewrite decide_False by lia. rewrite Hrow. reflexivity.
    + rewrite list_lookup_insert_ne by congruence.
      rewrite decide_False by lia. reflexivity.
Qed.

(** ** Line rasterisation *)

Lemma py_getitem_no_diverge {A : Type} (l : list A) (i : Z) : py_getitem l i <> Diverge.
Proof. unfold py_getitem. destruct (norm_index l i); [destruct (l !! _)|]; discriminate. Qed.

Lemma py_setitem_no_diverge {A : Type} (l : list A) (i : Z) (v : A) :
  py_setitem l i v <> Diverge.
Proof. unfold py_setitem. destruct (norm_index l i); discriminate. Qed.

Lemma bind_no_diverge {A B : Type} (m : result A) (k : A -> result B) :
  m <> Diverge -> (forall a, k a <> Diverge) -> bind m k <> Diverge.
Proof. intros Hm Hk. destruct m; simpl; [apply Hk|discriminate|contradiction]. Qed.

Lemma grid_set_no_diverge (g : grid) (y x : Z) (c : ascii) : grid_set g y x c <> Diverge.
Proof.
  unfold grid_set.
  apply bind_no_diverge; [apply py_getitem_no_diverge|intros row].
  apply bind_no_diverge; [apply py_setitem_no_diverge|intros row'].
  apply py_setitem_no_diverge.
Qed.

Lemma plot_no_diverge (g : grid) (x y : Z) : plot g x y <> Diverge.
Proof.
  unfold plot, blank_at.
  apply bind_no_diverge.
  - destruct (_ && _); [|discriminate].
    apply bind_no_diverge; [apply py_getitem_no_diverge|intros row0].
    destruct (_ && _); [|discriminate].
    apply bind_no_diverge; [apply py_getitem_no_diverge|intros row].
    apply bind_no_diverge; [apply py_getitem_no_diverge|discriminate].
  - intros [|]; [apply grid_set_no_diverge|discriminate].
Qed.

(** On a rectangular grid [plot] never raises: it marks the cell [(y, x)]
    when that cell exists and is blank, and leaves every other cell alone. *)
Lemma plot_rect (w h : nat) (g : grid) (x y : Z) :
  rect w h g ->
  exists g', plot g x y = Ok g' /\ rect w h g' /\
    forall r k : nat,
      cell g' r k =
      if decide (Z.of_nat r = y /\ Z.of_nat k = x /\ cell g r k = Some " "%char)
      then Some "."%char else cell g r k.
Proof.
  intros Hrect. pose proof (rect_len _ _ _ Hrect) as Hlen.
  assert (Hout : ~ (0 <= y < Z.of_nat h /\ 0 <= x < Z.of_nat w) ->
                 forall r k : nat,
                   ~ (Z.of_nat r = y /\ Z.of_nat k = x /\ cell g r k = Some " "%char)).
  { intros Hno r k (Hr & Hk & Hc). apply Hno. unfold cell in Hc.
    destruct (g !! r) as [row|] eqn:Hrow; [|discriminate].
    pose proof (rect_row _ _ _ _ _ Hrect Hrow) as Hw.
    apply lookup_lt_Some in Hrow, Hc. destruct Hrect as [Hh _]. lia. }
  unfold plot, blank_at. rewrite Hlen.
  destruct ((0 <=? y) && (y <? Z.of_nat h)) eqn:Hy; simpl.
  2:{ exists g. repeat split; try apply Hrect.
      intros r k. rewrite decide_False; [reflexivity|].
      apply Hout. intros [Hy' _].
      apply andb_false_iff in Hy. destruct Hy as [Hy|Hy]; lia. }
  apply andb_true_iff in Hy. destruct Hy as [Hy0 Hy1].
  destruct (py_getitem_in_range g 0) as (row0 & Hget0 & Hrow0); [lia|].
  rewrite Hget0. simpl.
  pose proof (rect_row _ _ _ _ _ Hrect Hrow0) as Hw0. unfold len at 1. rewrite Hw0.
  destruct ((0 <=? x) && (x <? Z.of_nat w)) eqn:Hx; simpl.
  2:{ exists g. repeat split; try apply Hrect.
      intros r k. rewrite decide_False; [reflexivity|].
      apply Hout. intros [_ Hx'].
      apply andb_false_iff in Hx. destruct Hx as [Hx|Hx]; lia. }
  apply andb_true_iff in Hx. destruct Hx as [Hx0 Hx1].
  destruct (py_getitem_in_range g y) as (row & Hget & Hrow); [lia|].
  rewrite Hget. simpl.
  pose proof (rect_row _ _ _ _ _ Hrect Hrow) as Hw.
  destruct (py_getitem_in_range row x) as (c & Hgetc & Hc); [unfold len; lia|].
  rewrite Hgetc. simpl.
  destruct (Ascii.eqb_spec c " "%char) as [->|Hne].
  - destruct (grid_set_in_range w h g y x "."%char Hrect) as (g' & Hset & Hrect' & Hcells);
      [lia|lia|].
    exists g'. repeat split; try assumption; try apply Hrect'.
    intros r k. rewrite Hcells.
    destruct (decide (Z.of_nat r = y /\ Z.of_nat k = x)) as [[Hr Hk]|Hno].
    + rewrite decide_True; [reflexivity|]. repeat split; try assumption.
      unfold cell. replace r with (Z.to_nat y) by lia. rewrite Hrow.
      replace k with (Z.to_nat x) by lia. assumption.
    + rewrite decide_False; [reflexivity|]. intros (? & ? & _). apply Hno. auto.
  - exists g. repeat split; try apply Hrect.
    intros r k. rewrite decide_False; [reflexivity|].
    intros (Hr & Hk & Hcell). apply Hne. unfold cell in Hcell.
    replace r with (Z.to_nat y) in Hcell by lia. rewrite Hrow in Hcell.
    replace k with (Z.to_nat x) in Hcell by lia. congruence.
Qed.

Section Bresenham.

Variables x1 y1 x2 y2 : Z.

Abbreviation DX := (Z.abs (x2 - x1)).
Abbreviation DY := (Z.abs (y2 - y1)).
Abbreviation SX := (if x1 <? x2 then 1 else -1).
Abbreviation SY := (if y1 <? y2 then 1 else -1).

Lemma on_line_start : on_line x1 y1 x2 y2 0 0 (mk_cursor x1 y1 (DX + - DY)).
Proof. unfold on_line. simpl. repeat split; lia. Qed.

(** The loop breaks exactly when both step counts are complete. *)
Lemma on_line_target (a b : Z) (c : cursor) :
  on_line x1 y1 x2 y2 a b c ->
  (c_x c =? x2) && (c_y c =? y2) = true <-> a = DX /\ b = DY.
Proof.
  intros (Ha & Hb & Hx & Hy & _).
  rewrite andb_true_iff, !Z.eqb_eq. rewrite Hx, Hy.
  destruct (Z.ltb_spec x1 x2), (Z.ltb_spec y1 y2); lia.
Qed.

(** Away from the target a pass moves at least one unit, and never past the
    target on either axis. *)
Lemma on_line_advance (a b : Z) (c : cursor) :
  on_line x1 y1 x2 y2 a b c ->
  ~ (a = DX /\ b = DY) ->
  exists a' b',
    on_line x1 y1 x2 y2 a' b' (advance DX (- DY) SX SY c) /\
    a <= a' /\ b <= b' /\ a + b < a' + b'.
Proof.
  intros (Ha & Hb & Hx & Hy & He) Hnot. unfold advance.
  set (dx := DX) in *. set (dy := DY) in *.
  assert (0 <= dx) by (subst dx; lia). assert (0 <= dy) by (subst dy; lia).
  destruct (Z.leb_spec (- dy) (2 * c_err c)) as [Hsx|Hsx];
    destruct (Z.leb_spec (2 * c_err c) dx) as [Hsy|Hsy]; simpl.
  - exists (a + 1), (b + 1). unfold on_line; simpl. fold dx dy.
    assert (a < dx) by (rewrite He in Hsx; nia).
    assert (b < dy) by (rewrite He in Hsy; nia).
    repeat split; try lia; try nia.
  - exists (a + 1), b. unfold on_line; simpl. fold dx dy.
    assert (a < dx) by (rewrite He in Hsx; nia).
    repeat split; try lia; try nia.
  - exists a, (b + 1). unfold on_line; simpl. fold dx dy.
    assert (b < dy) by (rewrite He in Hsy; nia).
    repeat split; try lia; try nia.
  - lia.
Qed.

(** The loop returns only through [break], on the target cell. *)
Lemma draw_line_loop_target (fuel : nat) (dx dy sx sy : Z) :
  forall (g : grid) (c : cursor) (g' : grid) (c' : cursor),
    draw_line_loop fuel g x2 y2 dx dy sx sy c = Ok (g', c') ->
    c_x c' = x2 /\ c_y c' = y2.
Proof.
  induction fuel as [|fuel IH]; intros g c g' c' H; simpl in H; [discriminate|].
  apply bind_Ok in H. destruct H as (g1 & _ & H).
  destruct ((c_x c =? x2) && (c_y c =? y2)) eqn:Hbreak.
  - assert (c' = c) as -> by congruence.
    apply andb_true_iff in Hbreak. rewrite !Z.eqb_eq in Hbreak. exact Hbreak.
  - eapply IH. eassumption.
Qed.

(** More fuel than needed does not change the outcome. *)
Lemma draw_line_loop_fuel (fuel : nat) (dx dy sx sy : Z) :
  forall (g : grid) (c : cursor) (n : nat),
    draw_line_loop fuel g x2 y2 dx dy sx sy c <> Diverge ->
    draw_line_loop (fuel + n) g x2 y2 dx dy sx sy c =
    draw_line_loop fuel g x2 y2 dx dy sx sy c.
Proof.
  induction fuel as [|fuel IH]; intros g c n H; simpl in *; [contradiction|].
  destruct (plot g (c_x c) (c_y c)) as [g1| |]; simpl in *; try reflexivity.
  destruct ((c_x c =? x2) && (c_y c =? y2)); [reflexivity|].
  apply IH. assumption.
Qed.

(** With one unit of fuel per remaining step and one for the last pass, the
    loop does not run out, whatever the grid. *)
Lemma draw_line_loop_no_diverge (fuel : nat) :
  forall (g : grid) (a b : Z) (c : cursor),
    on_line x1 y1 x2 y2 a b c ->
    (Z.to_nat (DX - a + (DY - b)) < fuel)%nat ->
    draw_line_loop fuel g x2 y2 DX (- DY) SX SY c <> Diverge.
Proof.
  induction fuel as [|fuel IH]; intros g a b c Hc Hfuel; [lia|]. simpl.
  apply bind_no_diverge; [apply plot_no_diverge|intros g1].
  destruct ((c_x c =? x2) && (c_y c =? y2)) eqn:Hbreak; [discriminate|].
  assert (Hnot : ~ (a = DX /\ b = DY)).
  { intros Hab. apply (on_line_target a b c Hc) in Hab. congruence. }
  destruct (on_line_advance a b c Hc Hnot) as (a' & b' & Hc' & Ha & Hb & Hlt).
  apply (IH g1 a' b'); [assumption|].
  destruct Hc' as (? & ? & _). lia.
Qed.

(** On a rectangular grid the loop also never raises. *)
Lemma draw_line_loop_rect (w h : nat) (fuel : nat) :
  forall (g : grid) (a b : Z) (c : cursor),
    rect w h g ->
    on_line x1 y1 x2 y2 a b c ->
    (Z.to_nat (DX - a + (DY - b)) < fuel)%nat ->
    exists g' c',
      draw_line_loop fuel g x2 y2 DX (- DY) SX SY c = Ok (g', c') /\ rect w h g'.
Proof.
  induction fuel as [|fuel IH]; intros g a b c Hrect Hc Hfuel; [lia|]. simpl.
  destruct (plot_rect w h g (c_x c) (c_y c) Hrect) as (g1 & Hplot & Hrect1 & _).
  rewrite Hplot. simpl.
  destruct ((c_x c =? x2) && (c_y c =? y2)) eqn:Hbreak; [eauto|].
  assert (Hnot : ~ (a = DX /\ b = DY)).
  { intros Hab. apply (on_line_target a b c Hc) in Hab. congruence. }
  destruct (on_line_advance a b c Hc Hnot) as (a' & b' & Hc' & Ha & Hb & Hlt).
  apply (IH g1 a' b'); [assumption|assumption|].
  destruct Hc' as (? & ? & _). lia.
Qed.

End Bresenham.

Lemma line_fuel_enough (x1 y1 x2 y2 : Z) (fuel : nat) :
  (line_fuel x1 y1 x2 y2 <= fuel)%nat ->
  (Z.to_nat (Z.abs (x2 - x1) - 0 + (Z.abs (y2 - y1) - 0)) < fuel)%nat.
Proof. unfold line_fuel. lia. Qed.

(** C9: [draw_line] terminates for all integer endpoints and every grid.
    Given at least [line_fuel] passes the loop never runs out of them,
    whatever list of rows the grid is; more passes change nothing; it
    returns only on the cell [(x2, y2)]; and on a rectangular grid it does
    return, with a grid of the same dimensions. *)
Theorem draw_line_terminates (g : grid) (x1 y1 x2 y2 : Z) (fuel : nat) :
  (line_fuel x1 y1 x2 y2 <= fuel)%nat ->
  draw_line_with fuel g x1 y1 x2 y2 <> Diverge /\
  draw_line_with fuel g x1 y1 x2 y2 =
    draw_line_with (line_fuel x1 y1 x2 y2) g x1 y1 x2 y2 /\
  (forall g' c, draw_line_with fuel g x1 y1 x2 y2 = Ok (g', c) ->
                c_x c = x2 /\ c_y c = y2) /\
  (forall w h, rect w h g ->
     exists g' c, draw_line_with fuel g x1 y1 x2 y2 = Ok (g', c) /\ rect w h g').
Proof.
  intros Hfuel. unfold draw_line_with.
  pose proof (on_line_start x1 y1 x2 y2) as Hstart.
  repeat split.
  - eapply draw_line_loop_no_diverge; [exact Hstart|].
    apply line_fuel_enough. assumption.
  - replace fuel with (line_fuel x1 y1 x2 y2 + (fuel - line_fuel x1 y1 x2 y2))%nat by lia.
    apply draw_line_loop_fuel.
    eapply draw_line_loop_no_diverge; [exact Hstart|].
    apply line_fuel_enough. lia.
  - eapply draw_line_loop_target; eassumption.
  - eapply draw_line_loop_target; eassumption.
  - intros w h Hrect.
    eapply draw_line_loop_rect; [exact Hrect|exact Hstart|].
    apply line_fuel_enough. assumption.
Qed.

Lemma draw_line_terminates_witness :
  draw_line_with 9 (blank_grid 5 3) 4 0 (-2) 2 <> Diverge /\
  exists g' c, draw_line_with 9 (blank_grid 5 3) 4 0 (-2) 2 = Ok (g', c) /\ rect 5 3 g'.
Proof.
  assert (Hfuel : (line_fuel 4 0 (-2) 2 <= 9)%nat) by (vm_compute; lia).
  destruct (draw_line_terminates (blank_grid 5 3) 4 0 (-2) 2 9 Hfuel) as (H1 & _ & _ & H4).
  split; [exact H1|].
  apply H4. split; [reflexivity|]. repeat constructor.
Defined.

(** ** Dictionaries *)

Lemma dict_mem_keys {V : Type} (d : dict V) (k : string) :
  dict_mem d k = existsb (String.eqb k) (keys d).
Proof.
  unfold dict_mem. induction d as [|[k' v] d IH]; simpl; [reflexivity|].
  rewrite (String.eqb_sym k k'). destruct (String.eqb k' k); simpl; auto.
Qed.

Lemma dict_mem_same_keys {V W : Type} (d : dict V) (d' : dict W) (k : string) :
  keys d' = keys d -> dict_mem d' k = dict_mem d k.
Proof. intros H. rewrite !dict_mem_keys, H. reflexivity. Qed.

Lemma dict_get_mem {V : Type} (d : dict V) (k : string) (v : V) :
  dict_get d k = Some v -> dict_mem d k = true.
Proof. unfold dict_mem. intros ->. reflexivity. Qed.

Lemma dict_mem_get {V : Type} (d : dict V) (k : string) :
  dict_mem d k = true -> exists v, dict_get d k = Some v.
Proof. unfold dict_mem. destruct (dict_get d k); [eauto|discriminate]. Qed.

Lemma dict_get_none {V : Type} (d : dict V) (k : string) :
  dict_mem d k = false -> dict_get d k = None.
Proof. unfold dict_mem. destruct (dict_get d k); [discriminate|reflexivity]. Qed.

(** Storing under a key that is there keeps the order of the keys. *)
Lemma keys_dict_set {V : Type} (d : dict V) (k : string) (v : V) :
  dict_mem d k = true -> keys (dict_set d k v) = keys d.
Proof.
  unfold dict_mem. induction d as [|[k' v'] d IH]; simpl; [discriminate|].
  destruct (String.eqb k' k); simpl; [reflexivity|].
  intros H. f_equal. apply IH. exact H.
Qed.

(** A comprehension that keeps each key keeps the keys. *)
Lemma map_result_keys {V W : Type} (f : string * V -> result (string * W))
  (d : dict V) (d' : dict W) :
  (forall e e', f e = Ok e' -> fst e' = fst e) ->
  map_result f d = Ok d' -> keys d' = keys d.
Proof.
  intros Hf H. apply map_result_Ok in H.
  induction H as [|e e' d d' He _ IH]; simpl; [reflexivity|].
  f_equal; [apply Hf; assumption|assumption].
Qed.

(** Looking a key up after such a comprehension finds the image of what
    the key held before. *)
Lemma map_result_get {V W : Type} (f : string * V -> result (string * W))
  (d : dict V) (d' : dict W) (k : string) (v : V) :
  (forall e e', f e = Ok e' -> fst e' = fst e) ->
  map_result f d = Ok d' -> dict_get d k = Some v ->
  exists w, dict_get d' k = Some w /\ f (k, v) = Ok (k, w).
Proof.
  intros Hf H. apply map_result_Ok in H.
  induction H as [|[k0 v0] [k1 w1] d d' He _ IH]; simpl; [discriminate|].
  pose proof (Hf _ _ He) as Hk. simpl in Hk. subst k1.
  destruct (String.eqb_spec k0 k) as [->|Hne].
  - intros [= ->]. eauto.
  - exact IH.
Qed.

(** ** Layout: the keys never change *)

Lemma repulse_key (k : float) (nodes : dict node) (e e' : string * node) :
  repulse k nodes e = Ok e' -> fst e' = fst e.
Proof.
  destruct e as [i node1]. unfold repulse. intros H. inv_bind. subst. reflexivity.
Qed.

Lemma repulsion_pass_keys (k : float) (nodes nodes' : dict node) :
  repulsion_pass k nodes = Ok nodes' -> keys nodes' = keys nodes.
Proof. apply map_result_keys. apply repulse_key. Qed.

Lemma aug_assign_keys (nodes nodes' : dict node) (key : string)
  (get : node -> option num) (set : node -> num -> node)
  (op : num -> num -> result num) (rhs : result num) :
  aug_assign nodes key get set op rhs = Ok nodes' -> keys nodes' = keys nodes.
Proof.
  unfold aug_assign. destruct (dict_get nodes key) as [n|] eqn:Hget; [|discriminate].
  intros H. inv_bind. subst. apply keys_dict_set. eapply dict_get_mem. eassumption.
Qed.

Lemma attract_keys (k : float) (central : option string) (nodes nodes' : dict node)
  (e : edge) :
  attract k central nodes e = Ok nodes' -> keys nodes' = keys nodes.
Proof.
  destruct e as [source target]. unfold attract.
  destruct (dict_get nodes source) as [node1|]; [|intros [= <-]; reflexivity].
  destruct (dict_get nodes target) as [node2|]; [|intros [= <-]; reflexivity].
  intros H. apply bind_Ok in H. destruct H as (dx & _ & H).
  apply bind_Ok in H. destruct H as (dy & _ & H).
  apply bind_Ok in H. destruct H as (distance & _ & H).
  apply bind_Ok in H. destruct H as (d2 & _ & H).
  apply bind_Ok in H. destruct H as (force0 & _ & H).
  apply bind_Ok in H. destruct H as (force & _ & H).
  apply bind_Ok in H. destruct H as (n1 & H1 & H).
  apply bind_Ok in H. destruct H as (n2 & H2 & H).
  apply bind_Ok in H. destruct H as (n3 & H3 & H).
  apply aug_assign_keys in H, H1, H2, H3. congruence.
Qed.

Lemma attraction_pass_keys (k : float) (central : option string) (edges : list edge)
  (nodes nodes' : dict node) :
  attraction_pass k central edges nodes = Ok nodes' -> keys nodes' = keys nodes.
Proof.
  unfold attraction_pass.
  apply (for_each_invariant (fun d : dict node => keys d = keys nodes));
    [|reflexivity].
  intros s e s' Hs H. apply attract_keys in H. congruence.
Qed.

Lemma integrate_key (width height : Z) (central : option string)
  (e e' : string * node) :
  integrate width height central e = Ok e' -> fst e' = fst e.
Proof.
  destruct e as [node_id n]. unfold integrate.
  destruct (is_central node_id central); intros H; inv_bind; subst; reflexivity.
Qed.

Lemma integration_pass_keys (width height : Z) (central : option string)
  (nodes nodes' : dict node) :
  integration_pass width height central nodes = Ok nodes' -> keys nodes' = keys nodes.
Proof. apply map_result_keys. apply integrate_key. Qed.

Lemma iteration_keys (k : float) (edges : list edge) (width height : Z)
  (central : option string) (nodes nodes' : dict node) :
  iteration k edges width height central nodes = Ok nodes' -> keys nodes' = keys nodes.
Proof.
  unfold iteration. intros H.
  apply bind_Ok in H. destruct H as (n1 & H1 & H).
  apply bind_Ok in H. destruct H as (n2 & H2 & H).
  apply repulsion_pass_keys in H1. apply attraction_pass_keys in H2.
  apply integration_pass_keys in H. congruence.
Qed.

Lemma iterate_keys (step : dict node -> result (dict node)) (n : nat) :
  (forall d d', step d = Ok d' -> keys d' = keys d) ->
  forall nodes nodes', iterate n step nodes = Ok nodes' -> keys nodes' = keys nodes.
Proof.
  intros Hstep. induction n as [|n IH]; intros nodes nodes' H; simpl in H.
  - injection H as <-. reflexivity.
  - apply bind_Ok in H. destruct H as (d & Hd & H).
    apply IH in H. apply Hstep in Hd. congruence.
Qed.

(** A run of [j + m] passes is a run of [j] passes followed by [m] more. *)
Lemma iterate_add (step : dict node -> result (dict node)) (j m : nat)
  (nodes : dict node) :
  iterate (j + m) step nodes = do d <- iterate j step nodes; iterate m step d.
Proof.
  revert nodes. induction j as [|j IH]; intros nodes; simpl; [reflexivity|].
  destruct (step nodes); simpl; auto.
Qed.

Lemma iterate_last (step : dict node -> result (dict node)) (n : nat)
  (nodes nodes' : dict node) :
  iterate (S n) step nodes = Ok nodes' ->
  exists d, iterate n step nodes = Ok d /\ step d = Ok nodes'.
Proof.
  replace (S n) with (n + 1)%nat by lia. rewrite iterate_add. intros H.
  apply bind_Ok in H. destruct H as (d & Hd & H). exists d. split; [assumption|].
  simpl in H. destruct (step d); simpl in H; congruence.
Qed.

(** ** Comparisons *)

Lemma dyadic_compare_antisym (m1 e1 m2 e2 : Z) :
  dyadic_compare m2 e2 m1 e1 = CompOpp (dyadic_compare m1 e1 m2 e2).
Proof.
  unfold dyadic_compare. cbv zeta. rewrite (Z.min_comm e2 e1). apply Z.compare_antisym.
Qed.

Lemma xval_compare_gt_lt (a b : xval) :
  xval_compare a b = Some Gt -> xval_compare b a = Some Lt.
Proof.
  destruct a as [|s1|m1 e1], b as [|s2|m2 e2]; simpl; try discriminate.
  - destruct s1, s2; congruence.
  - destruct s1; congruence.
  - destruct s2; congruence.
  - rewrite (dyadic_compare_antisym m1 e1 m2 e2).
    intros [= ->]. reflexivity.
Qed.

Lemma num_gt_le (a b : num) : num_gt a b = true -> num_le b a = true.
Proof.
  unfold num_gt, num_le, num_compare.
  destruct (xval_compare (num_xval a) (num_xval b)) as [[]|] eqn:H; try discriminate.
  intros _. rewrite (xval_compare_gt_lt _ _ H). reflexivity.
Qed.

Lemma num_lt_le (a b : num) : num_lt a b = true -> num_le a b = true.
Proof.
  unfold num_lt, num_le. destruct (num_compare a b) as [[]|]; congruence.
Qed.

Lemma num_le_int (a b : Z) : num_le (PyInt a) (PyInt b) = true <-> a <= b.
Proof.
  unfold num_le, num_compare, num_xval, xval_compare, dyadic_compare.
  change (2 ^ (0 - Z.min 0 0)) with 1.
  rewrite !Z.mul_1_r. destruct (Z.compare_spec a b); split; intros; lia || congruence.
Qed.

(** The clamp lands in [[0, bound - 1]] whatever its operand, NaN and the
    infinities included. *)
Lemma clamp_bounds (bound : Z) (v : num) :
  0 < bound ->
  num_le (PyInt 0) (clamp bound v) = true /\
  num_le (clamp bound v) (PyInt (bound - 1)) = true.
Proof.
  intros Hpos. unfold clamp, py_min, py_max.
  assert (H0 : num_le (PyInt 0) (PyInt (bound - 1)) = true) by (apply num_le_int; lia).
  assert (H1 : forall z, num_le (PyInt z) (PyInt z) = true) by (intros; apply num_le_int; lia).
  destruct (num_gt v (PyInt 0)) eqn:Hgt.
  - destruct (num_lt v (PyInt (bound - 1))) eqn:Hlt.
    + split; [apply num_gt_le|apply num_lt_le]; assumption.
    + auto.
  - destruct (num_lt (PyInt 0) (PyInt (bound - 1))); auto.
Qed.

(** ** Layout: the integration pass *)

Lemma is_central_refl (c : string) : is_central c (Some c) = true.
Proof. simpl. apply String.eqb_refl. Qed.

(** What [integrate] leaves in a node: the centre for the central node, a
    clamped position for any other. *)
Lemma integrate_position (width height : Z) (central : option string)
  (node_id : string) (n : node) (e' : string * node) :
  integrate width height central (node_id, n) = Ok e' ->
  if is_central node_id central
  then at_center width height (snd e')
  else exists vx vy, n_x (snd e') = clamp width vx /\ n_y (snd e') = clamp height vy.
Proof.
  unfold integrate. destruct (is_central node_id central); intros H.
  - apply bind_Ok in H. destruct H as (cx & Hcx & H).
    apply bind_Ok in H. destruct H as (cy & Hcy & H).
    injection H as <-. exists cx, cy. simpl. auto.
  - inv_bind. subst. simpl. eauto.
Qed.

Lemma integration_pass_position (width height : Z) (central : option string)
  (nodes nodes' : dict node) (node_id : string) (n' : node) :
  integration_pass width height central nodes = Ok nodes' ->
  In (node_id, n') nodes' ->
  if is_central node_id central
  then at_center width height n'
  else exists vx vy, n_x n' = clamp width vx /\ n_y n' = clamp height vy.
Proof.
  unfold integration_pass. intros H. apply map_result_Ok in H.
  induction H as [|[id0 n0] e' d d' He _ IH]; simpl; [contradiction|].
  intros [->|Hin]; [|exact (IH Hin)].
  pose proof (integrate_key _ _ _ _ _ He) as Hk. simpl in Hk. subst id0.
  apply integrate_position in He. exact He.
Qed.

Lemma force_layout_unfold (nodes : dict node) (edges : list edge) (width height : Z)
  (iterations : nat) (central : option string) :
  nodes <> [] ->
  force_layout nodes edges width height iterations central =
  do k <- ideal_distance nodes width height;
  iterate iterations (iteration k edges width height central) nodes.
Proof. destruct nodes; [contradiction|reflexivity]. Qed.

(** C1: focus pinning.  When the focus is a key of the node map and the run
    of [iterations] passes returns, the run cut after any pass [j] returns
    as well and holds the focus node at exactly [(width / 2, height / 2)];
    [j = iterations] is the end of the run. *)
Theorem focus_pinned_after_every_iteration (nodes : dict node) (edges : list edge)
  (width height : Z) (iterations : nat) (c : string) (nodes' : dict node) :
  dict_mem nodes c = true ->
  force_layout nodes edges width height iterations (Some c) = Ok nodes' ->
  forall j : nat, (1 <= j <= iterations)%nat ->
    exists nodes_j n,
      force_layout nodes edges width height j (Some c) = Ok nodes_j /\
      dict_get nodes_j c = Some n /\
      at_center width height n.
Proof.
  intros Hmem Hrun j Hj.
  assert (Hne : nodes <> []) by (intros ->; discriminate).
  rewrite force_layout_unfold in Hrun |- * by assumption.
  apply bind_Ok in Hrun. destruct Hrun as (k & Hk & Hrun). rewrite Hk. simpl.
  set (step := iteration k edges width height (Some c)) in *.
  replace iterations with (j + (iterations - j))%nat in Hrun by lia.
  rewrite iterate_add in Hrun.
  apply bind_Ok in Hrun. destruct Hrun as (nodes_j & Hj_run & _).
  exists nodes_j. destruct j as [|j]; [lia|].
  destruct (iterate_last _ _ _ _ Hj_run) as (d & Hd & Hstep).
  apply (iterate_keys step j (iteration_keys k edges width height (Some c))) in Hd.
  unfold step, iteration in Hstep.
  apply bind_Ok in Hstep. destruct Hstep as (n1 & H1 & Hstep).
  apply bind_Ok in Hstep. destruct Hstep as (n2 & H2 & Hstep).
  apply repulsion_pass_keys in H1. apply attraction_pass_keys in H2.
  assert (Hmem2 : dict_mem n2 c = true).
  { rewrite <- Hmem. apply dict_mem_same_keys. congruence. }
  destruct (dict_mem_get _ _ Hmem2) as (v & Hv).
  destruct (map_result_get _ _ _ _ _ (integrate_key width height (Some c)) Hstep Hv)
    as (w & Hw & Hint).
  exists w. repeat split; try assumption.
  apply integrate_position in Hint. rewrite is_central_refl in Hint. exact Hint.
Qed.

Lemma focus_pinned_after_every_iteration_witness :
  exists nodes_j n,
    force_layout Samples.two_nodes [("a", "b")] 28 6 2 (Some "b") = Ok nodes_j /\
    dict_get nodes_j "b" = Some n /\
    at_center 28 6 n.
Proof.
  eapply (focus_pinned_after_every_iteration
            Samples.two_nodes [("a", "b")] 28 6 3 "b").
  - reflexivity.
  - vm_compute. reflexivity.
  - lia.
Defined.

(** C2, as the code has it: after a run of at least one pass on a canvas of
    positive width and height, every node other than the focus lies in
    [[0, width - 1] x [0, height - 1]], and the focus node, which skips the
    clamp, lies at [(width / 2, height / 2)]. *)
Theorem force_layout_bounds (nodes : dict node) (edges : list edge)
  (width height : Z) (iterations : nat) (central : option string)
  (nodes' : dict node) :
  0 < width -> 0 < height -> (1 <= iterations)%nat ->
  force_layout nodes edges width height iterations central = Ok nodes' ->
  forall (node_id : string) (n : node),
    In (node_id, n) nodes' ->
    if is_central node_id central
    then at_center width height n
    else in_bounds width height n.
Proof.
  intros Hw Hh Hit Hrun node_id n Hin.
  destruct nodes as [|e0 nodes0]; [injection Hrun as <-; contradiction|].
  rewrite force_layout_unfold in Hrun by discriminate.
  apply bind_Ok in Hrun. destruct Hrun as (k & _ & Hrun).
  destruct iterations as [|m]; [lia|].
  destruct (iterate_last _ _ _ _ Hrun) as (d & _ & Hstep).
  unfold iteration in Hstep.
  apply bind_Ok in Hstep. destruct Hstep as (n1 & _ & Hstep).
  apply bind_Ok in Hstep. destruct Hstep as (n2 & _ & Hstep).
  pose proof (integration_pass_position _ _ _ _ _ _ _ Hstep Hin) as Hpos.
  destruct (is_central node_id central); [exact Hpos|].
  destruct Hpos as (vx & vy & Hx & Hy). unfold in_bounds. rewrite Hx, Hy.
  destruct (clamp_bounds width vx Hw), (clamp_bounds height vy Hh). auto.
Qed.

Lemma force_layout_bounds_witness :
  List.Forall (fun e : string * node =>
                 if is_central (fst e) None
                 then at_center 28 6 (snd e)
                 else in_bounds 28 6 (snd e))
    Samples.two_nodes_laid_out.
Proof.
  apply List.Forall_forall. intros [node_id n] Hin.
  apply (force_layout_bounds Samples.two_nodes [("a", "b")] 28 6 3 None
           Samples.two_nodes_laid_out);
    [lia|lia|lia|vm_compute; reflexivity|exact Hin].
Defined.

Lemma force_layout_bounds_counterexample :
  force_layout Samples.lone_node [] 1 1 100 (Some "a") =
    Ok [("a", mk_node "Alpha" (PyFloat 0.5) (PyFloat 0.5)
                (Some (PyFloat 0)) (Some (PyFloat 0)))] /\
  ~ in_bounds 1 1 (mk_node "Alpha" (PyFloat 0.5) (PyFloat 0.5)
                     (Some (PyFloat 0)) (Some (PyFloat 0))).
Proof.
  split.
  - vm_compute. reflexivity.
  - unfold in_bounds. simpl. intros (_ & H & _). vm_compute in H. discriminate.
Qed.

(** On the canvas the list view lays out (200 x 50 less the inset) the
    centre is inside the box. *)
Example center_in_bounds_188_46 :
  int_truediv 188 2 = Ok 94%float /\ int_truediv 46 2 = Ok 23%float /\
  in_bounds 188 46 (mk_node "" (PyFloat 94) (PyFloat 23) None None).
Proof. repeat split. Qed.

(** Without a pass the input comes back as it is. *)
Example force_layout_no_iteration :
  force_layout Samples.two_nodes [("a", "b")] 28 6 0 (Some "b"%string)
  = Ok Samples.two_nodes.
Proof. vm_compute. reflexivity. Qed.

(** ** Edges with a missing endpoint *)

Lemma present_same_keys (d d' : dict node) (e : edge) :
  keys d' = keys d -> present d' e = present d e.
Proof.
  intros H. unfold present.
  rewrite (dict_mem_same_keys d d' (fst e) H), (dict_mem_same_keys d d' (snd e) H).
  reflexivity.
Qed.

Lemma attract_absent (k : float) (central : option string) (nodes : dict node)
  (e : edge) :
  present nodes e = false -> attract k central nodes e = Ok nodes.
Proof.
  destruct e as [source target]. unfold present, attract. simpl.
  intros H. apply andb_false_iff in H. destruct H as [H|H];
    apply dict_get_none in H; rewrite H; [reflexivity|].
  destruct (dict_get nodes source); reflexivity.
Qed.

Lemma draw_edge_absent (nodes : dict node) (g : grid) (e : edge) :
  present nodes e = false -> draw_edge nodes g e = Ok g.
Proof.
  destruct e as [source target]. unfold present, draw_edge. simpl.
  intros H. apply andb_false_iff in H. destruct H as [H|H];
    apply dict_get_none in H; rewrite H; [reflexivity|].
  destruct (dict_get nodes source); reflexivity.
Qed.

Lemma attraction_pass_filter (k : float) (central : option string)
  (nodes0 : dict node) (edges : list edge) :
  forall nodes : dict node,
    keys nodes = keys nodes0 ->
    attraction_pass k central edges nodes =
    attraction_pass k central (List.filter (present nodes0) edges) nodes.
Proof.
  unfold attraction_pass.
  induction edges as [|e edges IH]; intros nodes Hkeys; simpl; [reflexivity|].
  rewrite <- (present_same_keys nodes0 nodes e Hkeys).
  destruct (present nodes e) eqn:He; simpl.
  - destruct (attract k central nodes e) as [nodes1| |] eqn:Ha; simpl; try reflexivity.
    apply IH. apply attract_keys in Ha. congruence.
  - rewrite (attract_absent _ _ _ _ He). simpl. apply IH. assumption.
Qed.

Lemma iteration_filter (k : float) (edges : list edge) (width height : Z)
  (central : option string) (nodes0 nodes : dict node) :
  keys nodes = keys nodes0 ->
  iteration k edges width height central nodes =
  iteration k (List.filter (present nodes0) edges) width height central nodes.
Proof.
  intros Hkeys. unfold iteration.
  destruct (repulsion_pass k nodes) as [nodes1| |] eqn:H1; simpl; try reflexivity.
  rewrite (attraction_pass_filter k central nodes0 edges nodes1); [reflexivity|].
  apply repulsion_pass_keys in H1. congruence.
Qed.

Lemma iterate_filter (k : float) (edges : list edge) (width height : Z)
  (central : option string) (nodes0 : dict node) (n : nat) :
  forall nodes : dict node,
    keys nodes = keys nodes0 ->
    iterate n (iteration k edges width height central) nodes =
    iterate n (iteration k (List.filter (present nodes0) edges) width height central)
      nodes.
Proof.
  induction n as [|n IH]; intros nodes Hkeys; simpl; [reflexivity|].
  rewrite <- (iteration_filter k edges width height central nodes0 nodes Hkeys).
  destruct (iteration k edges width height central nodes) as [nodes1| |] eqn:H1;
    simpl; try reflexivity.
  apply IH. apply iteration_keys in H1. congruence.
Qed.

Lemma draw_edges_filter (nodes : dict node) (edges : list edge) :
  forall g : grid,
    for_each (draw_edge nodes) edges g =
    for_each (draw_edge nodes) (List.filter (present nodes) edges) g.
Proof.
  induction edges as [|e edges IH]; intros g; simpl; [reflexivity|].
  destruct (present nodes e) eqn:He; simpl.
  - destruct (draw_edge nodes g e); simpl; auto.
  - rewrite (draw_edge_absent _ _ _ He). simpl. apply IH.
Qed.

(** C7: an edge with an endpoint that is no key of the node map raises
    nothing and changes nothing, in the attraction loop and in the edge
    drawing loop alike; the layout and the rendering are those of the edge
    list without such edges, exceptions included. *)
Theorem missing_endpoint_edges_skipped (nodes : dict node) (edges : list edge)
  (width height : Z) (iterations : nat) (central : option string) :
  (forall (k : float) (d : dict node) (g : grid) (e : edge),
     present d e = false ->
     attract k central d e = Ok d /\ draw_edge d g e = Ok g) /\
  force_layout nodes edges width height iterations central =
    force_layout nodes (List.filter (present nodes) edges)
      width height iterations central /\
  render_to_grid nodes edges width height central =
    render_to_grid nodes (List.filter (present nodes) edges) width height central.
Proof.
  repeat split.
  - apply attract_absent. assumption.
  - apply draw_edge_absent. assumption.
  - destruct nodes as [|e0 nodes0]; [reflexivity|].
    rewrite !force_layout_unfold by discriminate.
    destruct (ideal_distance (e0 :: nodes0) width height); simpl; try reflexivity.
    apply iterate_filter. reflexivity.
  - unfold render_to_grid. rewrite draw_edges_filter. reflexivity.
Qed.

(** ** Link extraction *)

Example findall_sample :
  findall "see [[b]] and [[a]], not [[zz]] [[[b]] [[b] [[0-9a-f]][[]] [[ab]]]"
  = ["b"; "a"; "b"; "0-9a-f"; "ab"].
Proof. reflexivity. Qed.

Lemma const_runtime_set_semantics (h : Z) : set_semantics (const_runtime h).
Proof.
  intros l. simpl. split.
  - apply NoDup_ListNoDup. apply NoDup_remove_dups.
  - intros e. rewrite <- !list_elem_of_In. apply elem_of_remove_dups.
Qed.

Lemma mem_In (s : string) (l : list string) : mem s l = true <-> In s l.
Proof.
  unfold mem. rewrite existsb_exists. split.
  - intros (x & Hx & Heq). apply String.eqb_eq in Heq. congruence.
  - intros H. exists s. split; [assumption|apply String.eqb_refl].
Qed.

(** The links a task appends: a reference to another known task, or its
    non-empty known parent. *)
Lemma links_of_In (task_ids : list string) (task : Task) (s t : string) :
  In (s, t) (links_of task_ids task) <->
  s = task_id task /\ In t task_ids /\
  ((In t (findall (task_description task)) /\ s <> t) \/
   (task_parent_id task = Some t /\ t <> ""%string)).
Proof.
  unfold links_of. rewrite in_app_iff, in_map_iff. split.
  - intros [(x & [= <- <-] & Hx)|Hp].
    + apply filter_In in Hx. destruct Hx as (Hfound & Hcond).
      apply andb_true_iff in Hcond. destruct Hcond as (Hmem & Hne).
      apply mem_In in Hmem. apply negb_true_iff, String.eqb_neq in Hne. auto.
    + destruct (task_parent_id task) as [p|]; [|contradiction].
      destruct (negb (String.eqb p "") && mem p task_ids) eqn:Hcond; [|contradiction].
      destruct Hp as [[= <- <-]|[]].
      apply andb_true_iff in Hcond. destruct Hcond as (Hne & Hmem).
      apply mem_In in Hmem. apply negb_true_iff, String.eqb_neq in Hne. auto.
  - intros (-> & Hmem & [(Hfound & Hne)|(Hp & Hne)]).
    + left. exists t. split; [reflexivity|].
      apply filter_In. split; [assumption|].
      apply andb_true_iff. split; [apply mem_In; assumption|].
      apply negb_true_iff, String.eqb_neq. assumption.
    + right. rewrite Hp.
      replace (negb (String.eqb t "") && mem t task_ids) with true; [left; reflexivity|].
      symmetry. apply andb_true_iff. split.
      * apply negb_true_iff, String.eqb_neq. assumption.
      * apply mem_In. assumption.
Qed.

Lemma find_links_In (rt : runtime) (tasks : list Task) (s t : string) :
  set_semantics rt ->
  In (s, t) (find_links rt tasks) <->
  exists task,
    In task tasks /\ task_id task = s /\ In t (map task_id tasks) /\
    ((In t (findall (task_description task)) /\ s <> t) \/
     (task_parent_id task = Some t /\ t <> ""%string)).
Proof.
  intros Hrt. unfold find_links. rewrite (proj2 (Hrt _)), in_flat_map. split.
  - intros (task & Htask & Hin). apply links_of_In in Hin.
    destruct Hin as (-> & Hmem & Hcases). eauto.
  - intros (task & Htask & <- & Hmem & Hcases). exists task. split; [assumption|].
    apply links_of_In. auto.
Qed.

(** C3, as the code has it: [find_links] removes repeated ordered pairs
    only.  The returned list holds no pair twice, and it holds [(s, t)]
    exactly when a task [s] names another known task [t] in its description
    or has the known task [t] as parent; a link found as [(s, t)] and one
    found as [(t, s)] are both kept. *)
Theorem find_links_ordered_pairs (rt : runtime) (tasks : list Task) :
  set_semantics rt ->
  List.NoDup (find_links rt tasks) /\
  forall s t : string,
    In (s, t) (find_links rt tasks) <->
    exists task,
      In task tasks /\ task_id task = s /\ In t (map task_id tasks) /\
      ((In t (findall (task_description task)) /\ s <> t) \/
       (task_parent_id task = Some t /\ t <> ""%string)).
Proof.
  intros Hrt. split.
  - unfold find_links. apply (proj1 (Hrt _)).
  - intros s t. apply find_links_In. assumption.
Qed.

Lemma find_links_ordered_pairs_witness :
  List.NoDup (find_links (const_runtime 0) [Samples.referring_task; Samples.child_task]) /\
  (In ("b", "a")%string
      (find_links (const_runtime 0) [Samples.referring_task; Samples.child_task]) <->
   exists task,
     In task [Samples.referring_task; Samples.child_task] /\
     task_id task = "b"%string /\
     In "a"%string (map task_id [Samples.referring_task; Samples.child_task]) /\
     ((In "a"%string (findall (task_description task)) /\ "b"%string <> "a"%string) \/
      (task_parent_id task = Some "a"%string /\ "a"%string <> ""%string))).
Proof.
  destruct (find_links_ordered_pairs (const_runtime 0)
              [Samples.referring_task; Samples.child_task]
              (const_runtime_set_semantics 0)) as (Hnodup & Hin).
  split; [exact Hnodup|apply Hin].
Defined.

(** The reference of [a] to [b] and the parent link of [b] to [a] are two
    edges between the same two tasks. *)
Lemma find_links_both_directions :
  find_links (const_runtime 0) [Samples.referring_task; Samples.child_task]
  = [("a", "b"); ("b", "a")]%string.
Proof. vm_compute. reflexivity. Qed.

(** Whatever order the set is listed in, both directions are there. *)
Lemma find_links_both_directions_any_runtime (rt : runtime) :
  set_semantics rt ->
  In ("a", "b")%string (find_links rt [Samples.referring_task; Samples.child_task]) /\
  In ("b", "a")%string (find_links rt [Samples.referring_task; Samples.child_task]).
Proof.
  intros Hrt. split; apply (find_links_In rt _ _ _ Hrt).
  - exists Samples.referring_task. simpl.
    split; [auto|]. split; [reflexivity|]. split; [auto|].
    left. split; [left; reflexivity|discriminate].
  - exists Samples.child_task. simpl.
    split; [auto|]. split; [reflexivity|]. split; [auto|].
    right. split; [reflexivity|discriminate].
Qed.

(** A self-edge can only come from the parent link. *)
Lemma find_links_self_edge_origin (rt : runtime) (tasks : list Task) (s : string) :
  set_semantics rt ->
  In (s, s) (find_links rt tasks) ->
  exists task, In task tasks /\ task_id task = s /\ task_parent_id task = Some s.
Proof.
  intros Hrt Hin. apply (find_links_In rt _ _ _ Hrt) in Hin.
  destruct Hin as (task & Htask & Hid & _ & [(_ & Hne)|(Hp & _)]).
  - contradiction.
  - eauto.
Qed.

(** Any task that is its own parent contributes its self-edge. *)
Lemma find_links_self_parent_any (rt : runtime) (tasks : list Task) (task : Task) :
  set_semantics rt ->
  In task tasks ->
  task_parent_id task = Some (task_id task) ->
  task_id task <> ""%string ->
  In (task_id task, task_id task) (find_links rt tasks).
Proof.
  intros Hrt Htask Hparent Hne. apply (find_links_In rt _ _ _ Hrt).
  exists task. split; [assumption|]. split; [reflexivity|].
  split; [apply in_map; assumption|]. right. auto.
Qed.

(** A reference to a task that is not in the task list yields no edge. *)
Example find_links_unknown_reference :
  find_links (const_runtime 0) [Samples.referring_task] = [].
Proof. reflexivity. Qed.

(** C4: a task whose [parent_id] is its own id yields the self-edge
    [(a, a)]: the parent branch lacks the [task.id != target_id] test of
    the reference branch. *)
Theorem find_links_self_parent :
  find_links (const_runtime 0) [Samples.self_parent_task] = [("a", "a")]%string.
Proof. vm_compute. reflexivity. Qed.

(** ** Rendering *)

Lemma len_cons {A : Type} (a : A) (l : list A) : len (a :: l) = 1 + len l.
Proof. unfold len. simpl length. lia. Qed.

Lemma len_nonneg {A : Type} (l : list A) : 0 <= len l.
Proof. unfold len. lia. Qed.

(** The label loop, started at offset [i]: every character fits, so each is
    written, left to right, over whatever the row held. *)
Lemma put_chars_cells (w h : nat) (x y : Z) (label : list ascii) :
  forall (i : Z) (g : grid),
    rect w h g ->
    0 <= y < Z.of_nat h -> 0 <= x + i -> x + i + len label <= Z.of_nat w ->
    exists g',
      for_each (put_char (Z.of_nat w) x y) (enumerate_from i label) g = Ok g' /\
      rect w h g' /\
      forall r k : nat,
        cell g' r k =
        if decide (Z.of_nat r = y /\ x + i <= Z.of_nat k)
        then match label !! Z.to_nat (Z.of_nat k - (x + i)) with
             | Some c => Some c
             | None => cell g r k
             end
        else cell g r k.
Proof.
  induction label as [|c label IH]; intros i g Hrect Hy Hx Hfit.
  - exists g. simpl. repeat split; try apply Hrect.
    intros r k. destruct (decide _); reflexivity.
  - rewrite len_cons in Hfit. pose proof (len_nonneg label) as Hlen.
    simpl. destruct (Z.ltb_spec (x + i) (Z.of_nat w)) as [_|]; [|lia].
    destruct (grid_set_in_range w h g y (x + i) c Hrect) as (g1 & Hset & Hrect1 & Hcells1);
      [lia|lia|].
    rewrite Hset. simpl.
    destruct (IH (i + 1) g1 Hrect1) as (g' & Hrun & Hrect' & Hcells'); [lia|lia|lia|].
    exists g'. split; [assumption|]. split; [assumption|].
    intros r k. rewrite Hcells', Hcells1.
    destruct (decide (Z.of_nat r = y /\ x + i <= Z.of_nat k)) as [[Hr Hk]|Hno].
    + destruct (decide (Z.of_nat k = x + i)) as [Heq|Hne].
      * rewrite decide_False by lia. rewrite decide_True by lia.
        replace (Z.to_nat (Z.of_nat k - (x + i))) with 0%nat by lia. reflexivity.
      * rewrite decide_True by lia. rewrite decide_False by lia.
        replace (Z.to_nat (Z.of_nat k - (x + i)))
          with (S (Z.to_nat (Z.of_nat k - (x + (i + 1))))) by lia.
        reflexivity.
    + rewrite decide_False by lia. rewrite decide_False by lia. reflexivity.
Qed.

(** Drawing one node on a grid of the rendered size: nothing raises, the
    size stays, and a cell changes only where the label puts a character. *)
Lemma draw_node_cells (width height : Z) (central : option string)
  (g : grid) (entry : string * node) :
  rect (Z.to_nat width) (Z.to_nat height) g ->
  finite_position (snd entry) ->
  exists g',
    draw_node width height central g entry = Ok g' /\
    rect (Z.to_nat width) (Z.to_nat height) g' /\
    forall r k : nat,
      cell g' r k =
      match label_char width height central entry r k with
      | Some c => Some c
      | None => cell g r k
      end.
Proof.
  destruct entry as [node_id data]. intros Hrect Hfin.
  simpl in Hfin. destruct Hfin as (x & y & Hx & Hy).
  unfold draw_node, label_char. simpl fst. simpl snd. rewrite Hx, Hy. simpl.
  set (label := list_ascii_of_string (label_of central node_id data)).
  pose proof (len_nonneg label) as Hlen.
  destruct ((0 <=? y) && (y <? height) && (0 <=? x) && (x <? width - len label))
    eqn:Hguard.
  - apply andb_true_iff in Hguard. destruct Hguard as (Hguard & H4).
    apply andb_true_iff in Hguard. destruct Hguard as (Hguard & H3).
    apply andb_true_iff in Hguard. destruct Hguard as (H1 & H2).
    apply Z.leb_le in H1, H3. apply Z.ltb_lt in H2, H4.
    destruct (put_chars_cells (Z.to_nat width) (Z.to_nat height) x y label 0 g Hrect)
      as (g' & Hrun & Hrect' & Hcells); [lia|lia|lia|].
    replace (Z.of_nat (Z.to_nat width)) with width in Hrun by lia.
    exists g'. split; [exact Hrun|]. split; [assumption|].
    intros r k. rewrite Hcells. rewrite Z.add_0_r.
    destruct (decide (Z.of_nat r = y /\ x <= Z.of_nat k)) as [Hrk|Hno].
    + rewrite decide_True by lia. reflexivity.
    + rewrite decide_False by lia. reflexivity.
  - exists g. split; [reflexivity|]. split; [assumption|].
    intros r k. rewrite decide_False; [reflexivity|].
    intros (H1 & H2 & _).
    apply andb_false_iff in Hguard. destruct Hguard as [Hguard|Hguard]; [|lia].
    apply andb_false_iff in Hguard. destruct Hguard as [Hguard|Hguard]; [|lia].
    apply andb_false_iff in Hguard. destruct Hguard as [Hguard|Hguard]; lia.
Qed.

Lemma draw_nodes_cells (width height : Z) (central : option string)
  (nodes : dict node) :
  forall g : grid,
    rect (Z.to_nat width) (Z.to_nat height) g ->
    (forall entry, In entry nodes -> finite_position (snd entry)) ->
    exists g',
      for_each (draw_node width height central) nodes g = Ok g' /\
      rect (Z.to_nat width) (Z.to_nat height) g' /\
      forall r k : nat,
        cell g' r k = paint width height central nodes r k (cell g r k).
Proof.
  induction nodes as [|entry nodes IH]; intros g Hrect Hfin.
  - exists g. repeat split; try apply Hrect.
  - destruct (draw_node_cells width height central g entry Hrect)
      as (g1 & Hdraw & Hrect1 & Hcells1); [apply Hfin; left; reflexivity|].
    destruct (IH g1 Hrect1) as (g' & Hrun & Hrect' & Hcells');
      [intros e He; apply Hfin; right; assumption|].
    exists g'. simpl. rewrite Hdraw. simpl.
    split; [assumption|]. split; [assumption|].
    intros r k. rewrite Hcells', Hcells1. reflexivity.
Qed.

Lemma blank_grid_rect (width height : Z) :
  rect (Z.to_nat width) (Z.to_nat height) (blank_grid width height).
Proof.
  unfold rect, blank_grid. split; [apply repeat_length|].
  apply Forall_forall. intros row Hrow. apply list_elem_of_In, repeat_spec in Hrow.
  subst row. apply repeat_length.
Qed.

Lemma dict_get_In {V : Type} (d : dict V) (k : string) (v : V) :
  dict_get d k = Some v -> In (k, v) d.
Proof.
  induction d as [|[k' v'] d IH]; simpl; [discriminate|].
  destruct (String.eqb_spec k' k) as [->|_].
  - intros [= ->]. left. reflexivity.
  - intros H. right. apply IH. assumption.
Qed.

Lemma draw_line_rect (w h : nat) (g : grid) (x1 y1 x2 y2 : Z) :
  rect w h g -> exists g', draw_line g x1 y1 x2 y2 = Ok g' /\ rect w h g'.
Proof.
  intros Hrect. unfold draw_line, draw_line_with.
  destruct (draw_line_loop_rect x1 y1 x2 y2 w h (line_fuel x1 y1 x2 y2) g 0 0
              (mk_cursor x1 y1 (Z.abs (x2 - x1) + - Z.abs (y2 - y1))) Hrect
              (on_line_start x1 y1 x2 y2))
    as (g' & c' & Hrun & Hrect').
  { apply line_fuel_enough. lia. }
  exists g'. rewrite Hrun. simpl. auto.
Qed.

Lemma draw_edges_rect (w h : nat) (nodes : dict node) (edges : list edge) :
  (forall entry, In entry nodes -> finite_position (snd entry)) ->
  forall g : grid,
    rect w h g ->
    exists g', for_each (draw_edge nodes) edges g = Ok g' /\ rect w h g'.
Proof.
  intros Hfin. induction edges as [|[source target] edges IH]; intros g Hrect.
  - exists g. auto.
  - cbn [for_each].
    assert (Hstep : exists g1, draw_edge nodes g (source, target) = Ok g1 /\ rect w h g1).
    { unfold draw_edge.
      destruct (dict_get nodes source) as [n1|] eqn:H1; [|eauto].
      destruct (dict_get nodes target) as [n2|] eqn:H2; [|eauto].
      destruct (Hfin _ (dict_get_In _ _ _ H1)) as (x1 & y1 & Hx1 & Hy1).
      destruct (Hfin _ (dict_get_In _ _ _ H2)) as (x2 & y2 & Hx2 & Hy2).
      simpl in Hx1, Hy1, Hx2, Hy2. rewrite Hx1, Hy1, Hx2, Hy2. simpl.
      apply draw_line_rect. assumption. }
    destruct Hstep as (g1 & Hdraw & Hrect1). rewrite Hdraw. simpl.
    apply IH. assumption.
Qed.

Lemma paint_last (width height : Z) (central : option string)
  (before after : dict node) (entry : string * node) (r k : nat)
  (c : ascii) (c0 : option ascii) :
  label_char width height central entry r k = Some c ->
  (forall e, In e after -> label_char width height central e r k = None) ->
  paint width height central (before ++ entry :: after) r k c0 = Some c.
Proof.
  intros Hc Hafter. unfold paint. rewrite fold_left_app. simpl. rewrite Hc.
  clear Hc. induction after as [|e after IH]; simpl; [reflexivity|].
  rewrite (Hafter e) by (left; reflexivity).
  apply IH. intros e' He'. apply Hafter. right. assumption.
Qed.

Lemma paint_none (width height : Z) (central : option string)
  (nodes : dict node) (r k : nat) (c0 : option ascii) :
  (forall e, In e nodes -> label_char width height central e r k = None) ->
  paint width height central nodes r k c0 = c0.
Proof.
  unfold paint. revert c0. induction nodes as [|e nodes IH]; intros c0 Hnone; simpl;
    [reflexivity|].
  rewrite (Hnone e) by (left; reflexivity).
  apply IH. intros e' He'. apply Hnone. right. assumption.
Qed.

(** C5, as the code has it.  A label is drawn whole or not at all: the node
    is drawn when [0 <= y < height] and [0 <= x < width - len(label)] (this
    is [label_char]), and then every character of the label is written, left
    to right from [(x, y)], over whatever the cell held, edge marks
    included.  In the rendered grid a cell reached by labels shows the
    character of the label drawn last on it; a cell reached by no label
    shows what the edge pass left. *)
Theorem render_to_grid_labels (nodes : dict node) (edges : list edge)
  (width height : Z) (central : option string) :
  (forall entry, In entry nodes -> finite_position (snd entry)) ->
  exists g0 g,
    for_each (draw_edge nodes) edges (blank_grid width height) = Ok g0 /\
    render_to_grid nodes edges width height central = Ok g /\
    (forall (before after : dict node) (entry : string * node) (r k : nat) (c : ascii),
       nodes = before ++ entry :: after ->
       label_char width height central entry r k = Some c ->
       (forall e, In e after -> label_char width height central e r k = None) ->
       cell g r k = Some c) /\
    (forall r k : nat,
       (forall e, In e nodes -> label_char width height central e r k = None) ->
       cell g r k = cell g0 r k).
Proof.
  intros Hfin. unfold render_to_grid.
  destruct (draw_edges_rect _ _ nodes edges Hfin _ (blank_grid_rect width height))
    as (g0 & Hedges & Hrect0).
  destruct (draw_nodes_cells width height central nodes g0 Hrect0 Hfin)
    as (g & Hnodes & _ & Hcells).
  exists g0, g. rewrite Hedges. simpl.
  split; [reflexivity|]. split; [assumption|]. split.
  - intros before after entry r k c -> Hc Hafter.
    rewrite Hcells. apply paint_last; assumption.
  - intros r k Hnone. rewrite Hcells. apply paint_none. assumption.
Qed.

Lemma stray_nodes_finite :
  forall entry, In entry Samples.stray_nodes -> finite_position (snd entry).
Proof.
  intros entry [<-|[<-|[<-|[]]]]; eexists; eexists; split; vm_compute; reflexivity.
Qed.

Lemma render_to_grid_labels_witness :
  exists g,
    render_to_grid Samples.stray_nodes [("a", "c"); ("c", "b")] 20 4 None = Ok g /\
    cell g 1 2 = Some "["%char /\ cell g 1 8 = Some "]"%char.
Proof.
  destruct (render_to_grid_labels Samples.stray_nodes [("a", "c"); ("c", "b")] 20 4 None
              stray_nodes_finite) as (g0 & g & _ & Hg & Hlast & _).
  exists g. split; [exact Hg|].
  split;
    apply (Hlast (firstn 2 Samples.stray_nodes) []
             ("c"%string, mk_node "Gamma" (PyFloat 2.5) (PyInt 1) None None));
    try reflexivity; intros e [].
Defined.

(** A label that would cross the right edge is not clipped to its prefix:
    nothing of it is drawn. *)
Lemma render_to_grid_labels_counterexample :
  label_of None "a" (mk_node "abc" (PyInt 1) (PyInt 0) None None) = "[abc]"%string /\
  render_to_grid Samples.tight_nodes [] 5 1 None = Ok (blank_grid 5 1) /\
  cell (blank_grid 5 1) 0 1 = Some " "%char.
Proof. repeat split. Qed.

(** C10: rendering writes inside the grid only.  For nodes whose
    coordinates [int()] accepts, wherever the truncated positions lie,
    [render_to_grid] raises nothing and returns a grid of [height] rows of
    [width] columns; and each of the two writes lands on the cell it
    addresses, which exists: [plot] changes at most the cell [(y1, x1)], and
    drawing a node changes only cells of row [y] from column [x] to the end
    of the label. *)
Theorem render_to_grid_in_bounds (nodes : dict node) (edges : list edge)
  (width height : Z) (central : option string) :
  (forall entry, In entry nodes -> finite_position (snd entry)) ->
  (exists g,
     render_to_grid nodes edges width height central = Ok g /\
     rect (Z.to_nat width) (Z.to_nat height) g) /\
  (forall (g : grid) (x1 y1 : Z),
     rect (Z.to_nat width) (Z.to_nat height) g ->
     exists g',
       plot g x1 y1 = Ok g' /\ rect (Z.to_nat width) (Z.to_nat height) g' /\
       forall r k : nat,
         cell g' r k <> cell g r k -> Z.of_nat r = y1 /\ Z.of_nat k = x1) /\
  (forall (g : grid) (entry : string * node),
     rect (Z.to_nat width) (Z.to_nat height) g -> In entry nodes ->
     exists g' x y,
       draw_node width height central g entry = Ok g' /\
       rect (Z.to_nat width) (Z.to_nat height) g' /\
       py_int (n_x (snd entry)) = Ok x /\ py_int (n_y (snd entry)) = Ok y /\
       forall r k : nat,
         cell g' r k <> cell g r k ->
         Z.of_nat r = y /\
         x <= Z.of_nat k <
           x + len (list_ascii_of_string (label_of central (fst entry) (snd entry)))).
Proof.
  intros Hfin. split; [|split].
  - unfold render_to_grid.
    destruct (draw_edges_rect _ _ nodes edges Hfin _ (blank_grid_rect width height))
      as (g0 & Hedges & Hrect0).
    destruct (draw_nodes_cells width height central nodes g0 Hrect0 Hfin)
      as (g & Hnodes & Hrect & _).
    exists g. rewrite Hedges. simpl. auto.
  - intros g x1 y1 Hrect.
    destruct (plot_rect _ _ g x1 y1 Hrect) as (g' & Hplot & Hrect' & Hcells).
    exists g'. split; [assumption|]. split; [assumption|].
    intros r k Hdiff. rewrite Hcells in Hdiff.
    destruct (decide _) as [(Hr & Hk & _)|]; [auto|contradiction].
  - intros g entry Hrect Hin.
    destruct (draw_node_cells width height central g entry Hrect (Hfin _ Hin))
      as (g' & Hdraw & Hrect' & Hcells).
    destruct (Hfin _ Hin) as (x & y & Hx & Hy).
    exists g', x, y. repeat (split; [assumption|]).
    intros r k Hdiff. rewrite Hcells in Hdiff. unfold label_char in Hdiff.
    rewrite Hx, Hy in Hdiff. cbv zeta in Hdiff.
    destruct (decide _) as [(_ & _ & Hr & Hk)|]; [|contradiction].
    destruct (_ !! _) as [c|] eqn:Hc; [|contradiction].
    apply lookup_lt_Some in Hc. unfold len. lia.
Qed.

Lemma render_to_grid_in_bounds_witness :
  exists g,
    render_to_grid Samples.stray_nodes [("a", "c"); ("c", "b")] 20 4 None = Ok g /\
    rect 20 4 g.
Proof.
  exact (proj1 (render_to_grid_in_bounds Samples.stray_nodes [("a", "c"); ("c", "b")]
                  20 4 None stray_nodes_finite)).
Defined.

(** ** The pipeline *)

Lemma for_each_ext {A S : Type} (f g : S -> A -> result S) (l : list A) :
  (forall s a, In a l -> f s a = g s a) ->
  forall s, for_each f l s = for_each g l s.
Proof.
  induction l as [|a l IH]; intros Hfg s; simpl; [reflexivity|].
  rewrite (Hfg s a) by (left; reflexivity).
  destruct (g s a); simpl; try reflexivity.
  apply IH. intros s' a' Ha'. apply Hfg. right. assumption.
Qed.

(** The edge pass leaves blanks and edge marks only. *)
Lemma blank_grid_only_marks (width height : Z) : only_marks (blank_grid width height).
Proof.
  intros r k c. unfold cell, blank_grid.
  destruct (repeat _ (Z.to_nat height) !! r) as [row|] eqn:Hrow; [|discriminate].
  apply list_elem_of_lookup_2, list_elem_of_In, repeat_spec in Hrow. subst row.
  intros Hc. apply list_elem_of_lookup_2, list_elem_of_In, repeat_spec in Hc. auto.
Qed.

Lemma plot_only_marks (w h : nat) (g g' : grid) (x y : Z) :
  rect w h g -> only_marks g -> plot g x y = Ok g' -> rect w h g' /\ only_marks g'.
Proof.
  intros Hrect Hmarks Hplot.
  destruct (plot_rect w h g x y Hrect) as (g1 & Hplot1 & Hrect1 & Hcells).
  assert (g1 = g') as -> by congruence.
  split; [assumption|].
  intros r k c. rewrite Hcells.
  destruct (decide _); [intros [= <-]; auto|apply Hmarks].
Qed.

Lemma draw_line_loop_only_marks (w h : nat) (x2 y2 dx dy sx sy : Z) (fuel : nat) :
  forall (g : grid) (c : cursor) (g' : grid) (c' : cursor),
    rect w h g -> only_marks g ->
    draw_line_loop fuel g x2 y2 dx dy sx sy c = Ok (g', c') ->
    rect w h g' /\ only_marks g'.
Proof.
  induction fuel as [|fuel IH]; intros g c g' c' Hrect Hmarks H; simpl in H;
    [discriminate|].
  apply bind_Ok in H. destruct H as (g1 & Hplot & H).
  destruct (plot_only_marks w h g g1 _ _ Hrect Hmarks Hplot) as (Hrect1 & Hmarks1).
  destruct ((c_x c =? x2) && (c_y c =? y2)).
  - assert (g' = g1) as -> by congruence. auto.
  - eapply IH; eassumption.
Qed.

Lemma draw_edges_only_marks (w h : nat) (nodes : dict node) (edges : list edge)
  (g g' : grid) :
  rect w h g -> only_marks g ->
  for_each (draw_edge nodes) edges g = Ok g' ->
  rect w h g' /\ only_marks g'.
Proof.
  intros Hrect Hmarks.
  apply (for_each_invariant (fun g1 : grid => rect w h g1 /\ only_marks g1)); [|auto].
  intros g1 [source target] g2 (Hrect1 & Hmarks1) Hdraw. unfold draw_edge in Hdraw.
  destruct (dict_get nodes source); [|injection Hdraw as <-; auto].
  destruct (dict_get nodes target); [|injection Hdraw as <-; auto].
  apply bind_Ok in Hdraw. destruct Hdraw as (x1 & _ & Hdraw).
  apply bind_Ok in Hdraw. destruct Hdraw as (y1 & _ & Hdraw).
  apply bind_Ok in Hdraw. destruct Hdraw as (x2 & _ & Hdraw).
  apply bind_Ok in Hdraw. destruct Hdraw as (y2 & _ & Hdraw).
  unfold draw_line, draw_line_with in Hdraw.
  apply bind_Ok in Hdraw. destruct Hdraw as ([g3 c3] & Hloop & Hdraw).
  injection Hdraw as <-.
  eapply draw_line_loop_only_marks; eassumption.
Qed.

(** A successful node pass is the painting of the labels. *)
Lemma draw_nodes_inv (width height : Z) (central : option string) (nodes : dict node) :
  forall g g' : grid,
    rect (Z.to_nat width) (Z.to_nat height) g ->
    for_each (draw_node width height central) nodes g = Ok g' ->
    rect (Z.to_nat width) (Z.to_nat height) g' /\
    forall r k : nat, cell g' r k = paint width height central nodes r k (cell g r k).
Proof.
  induction nodes as [|[node_id data] nodes IH]; intros g g' Hrect H;
    cbn [for_each] in H.
  - injection H as <-. auto.
  - apply bind_Ok in H. destruct H as (g1 & Hdraw & H).
    assert (Hfin : finite_position (snd (node_id, data))).
    { unfold draw_node in Hdraw.
      apply bind_Ok in Hdraw. destruct Hdraw as (x & Hx & Hdraw).
      apply bind_Ok in Hdraw. destruct Hdraw as (y & Hy & _).
      exists x, y. auto. }
    destruct (draw_node_cells width height central g _ Hrect Hfin)
      as (g2 & Hdraw2 & Hrect2 & Hcells2).
    assert (g2 = g1) as -> by congruence.
    destruct (IH g1 g' Hrect2 H) as (Hrect' & Hcells').
    split; [assumption|].
    intros r k. rewrite Hcells', Hcells2. reflexivity.
Qed.

(** Whatever [render_to_grid] returns has the requested size, and shows
    labels painted over blanks and edge marks. *)
Lemma render_to_grid_inv (nodes : dict node) (edges : list edge)
  (width height : Z) (central : option string) (g : grid) :
  render_to_grid nodes edges width height central = Ok g ->
  rect (Z.to_nat width) (Z.to_nat height) g /\
  exists g0,
    only_marks g0 /\
    forall r k : nat, cell g r k = paint width height central nodes r k (cell g0 r k).
Proof.
  unfold render_to_grid. intros H.
  apply bind_Ok in H. destruct H as (g0 & Hedges & Hnodes).
  destruct (draw_edges_only_marks _ _ nodes edges _ g0
              (blank_grid_rect width height) (blank_grid_only_marks width height) Hedges)
    as (Hrect0 & Hmarks0).
  destruct (draw_nodes_inv width height central nodes g0 g Hrect0 Hnodes)
    as (Hrect & Hcells).
  split; [assumption|]. exists g0. auto.
Qed.

(** A label starts with its opening bracket. *)
Lemma label_char_first_column (width height : Z) (central : option string)
  (entry : string * node) (r : nat) (c : ascii) :
  label_char width height central entry r 0 = Some c ->
  c = "["%char \/ c = "<"%char.
Proof.
  unfold label_char.
  destruct (py_int (n_x (snd entry))) as [x| |]; try discriminate.
  destruct (py_int (n_y (snd entry))) as [y| |]; try discriminate.
  cbv zeta. destruct (decide _) as [(_ & Hx & _ & Hk)|]; [|discriminate].
  replace (Z.to_nat (Z.of_nat 0 - x)) with 0%nat by lia.
  unfold label_of. destruct (is_central (fst entry) central); simpl; intros [= <-]; auto.
Qed.

(** The top left cell of a rendered grid never shows a letter. *)
Lemma render_to_grid_corner (nodes : dict node) (edges : list edge)
  (width height : Z) (central : option string) (g : grid) (c : ascii) :
  render_to_grid nodes edges width height central = Ok g ->
  cell g 0 0 = Some c ->
  c = " "%char \/ c = "."%char \/ c = "["%char \/ c = "<"%char.
Proof.
  intros Hrender. apply render_to_grid_inv in Hrender.
  destruct Hrender as (_ & g0 & Hmarks & Hcells). rewrite Hcells.
  assert (Hstart : forall c0, cell g0 0 0 = Some c0 ->
                     c0 = " "%char \/ c0 = "."%char \/ c0 = "["%char \/ c0 = "<"%char).
  { intros c0 Hc0. destruct (Hmarks _ _ _ Hc0); auto. }
  revert Hstart. generalize (cell g0 0 0). unfold paint. clear Hcells.
  induction nodes as [|entry nodes IH]; intros acc Hacc; simpl; [apply Hacc|].
  apply IH. intros c0.
  destruct (label_char width height central entry 0 0) as [c1|] eqn:Hlabel; [|apply Hacc].
  intros [= <-]. destruct (label_char_first_column _ _ _ _ _ _ Hlabel); auto.
Qed.

(** The text of a grid starts with its top left cell, or with a newline. *)
Lemma grid_to_string_head (g : grid) (c : ascii) (rest : string) :
  grid_to_string g = String c rest ->
  cell g 0 0 = Some c \/ c = "010"%char.
Proof.
  unfold grid_to_string, cell.
  destruct g as [|row g']; simpl; [discriminate|].
  destruct row as [|c0 row'].
  - destruct g' as [|row2 g'']; simpl; [discriminate|].
    intros [= <- _]. right. reflexivity.
  - destruct g' as [|row2 g'']; simpl; intros [= <- _]; left; reflexivity.
Qed.

(** No rendered grid reads as one of the two messages. *)
Lemma render_to_grid_not_message (nodes : dict node) (edges : list edge)
  (width height : Z) (central : option string) (g : grid) :
  render_to_grid nodes edges width height central = Ok g ->
  grid_to_string g <> no_tasks_message /\ grid_to_string g <> no_links_message.
Proof.
  intros Hrender.
  assert (Hhead : forall rest, grid_to_string g <> String "N" rest).
  { intros rest Heq. apply grid_to_string_head in Heq.
    destruct Heq as [Hcell|Heq]; [|discriminate].
    destruct (render_to_grid_corner _ _ _ _ _ _ _ Hrender Hcell) as [H|[H|[H|H]]];
      discriminate. }
  split; apply Hhead.
Qed.

(** ** Quotients of integers are finite *)

Lemma shr_1_nonneg (mrs : shr_record) : 0 <= shr_m mrs -> 0 <= shr_m (shr_1 mrs).
Proof.
  destruct mrs as [m r s]. simpl.
  destruct m as [|[p|p|]|p]; simpl; lia.
Qed.

Lemma iter_pos_shr_1_nonneg (p : positive) :
  forall mrs, 0 <= shr_m mrs -> 0 <= shr_m (SpecFloat.iter_pos shr_1 p mrs).
Proof.
  induction p as [p IH|p IH|]; intros mrs H; simpl.
  - apply IH, IH, shr_1_nonneg, H.
  - apply IH, IH, H.
  - apply shr_1_nonneg, H.
Qed.

Lemma shr_fexp_nonneg (m e : Z) (l : location) :
  0 <= m -> 0 <= shr_m (fst (shr_fexp prec emax m e l)).
Proof.
  intros H. unfold shr_fexp, shr.
  assert (H0 : 0 <= shr_m (shr_record_of_loc m l)) by (destruct l as [|[]]; exact H).
  destruct (fexp prec emax (Zdigits2 m + e) - e) as [|p|p]; simpl; try exact H0.
  apply iter_pos_shr_1_nonneg, H0.
Qed.

Lemma round_nearest_even_nonneg (m : Z) (l : location) :
  0 <= m -> 0 <= round_nearest_even m l.
Proof.
  intros H. destruct l as [|[]]; simpl; try lia. destruct (Z.even m); lia.
Qed.

Lemma binary_round_aux_not_nan (sx : bool) (mx ex : Z) (lx : location) :
  0 <= mx -> not_nan (binary_round_aux prec emax sx mx ex lx).
Proof.
  intros H. unfold binary_round_aux.
  pose proof (shr_fexp_nonneg mx ex lx H) as H1.
  destruct (shr_fexp prec emax mx ex lx) as [mrs' e']. simpl in H1.
  pose proof (shr_fexp_nonneg _ e' loc_Exact
                (round_nearest_even_nonneg _ (loc_of_shr_record mrs') H1)) as H2.
  destruct (shr_fexp prec emax _ e' loc_Exact) as [mrs'' e'']. simpl in H2.
  destruct (shr_m mrs'') as [|m|m]; [exact I| |lia].
  destruct (e'' <=? emax - prec); exact I.
Qed.

Lemma binary_round_not_nan (sx : bool) (mx : positive) (ex : Z) :
  not_nan (binary_round prec emax sx mx ex).
Proof.
  unfold binary_round. destruct (shl_align _ _ _) as [mz ez].
  apply binary_round_aux_not_nan. lia.
Qed.

Lemma SFdiv_ints_not_nan (a b : Z) :
  b <> 0 -> not_nan (SFdiv prec emax (Z_to_SF a) (Z_to_SF b)).
Proof.
  intros Hb. destruct b as [|q|q]; [contradiction| |];
    destruct a as [|p|p]; simpl; try exact I.
  all: unfold SFdiv_core_binary; cbv zeta;
    match goal with
    | |- context [Z.div_eucl ?m ?d] =>
        pose proof (Z_div_mod m d ltac:(lia)) as Hdiv;
        assert (Hm : 0 <= m);
        [|destruct (Z.div_eucl m d) as [quo r]; apply binary_round_aux_not_nan; nia]
    end.
  all: match goal with
       | |- 0 <= match ?s with _ => _ end =>
           destruct s; [lia|apply Z.shiftl_nonneg; lia|lia]
       end.
Qed.

Lemma SFldexp_not_nan (s : spec_float) (e : Z) :
  not_nan s -> not_nan (SFldexp prec emax s e).
Proof.
  destruct s; simpl; auto. intros _. apply binary_round_not_nan.
Qed.

Lemma SFopp_not_nan (s : spec_float) : not_nan s -> not_nan (SFopp s).
Proof. destruct s; simpl; auto. Qed.

Lemma SF2Prim_not_nan (s : spec_float) : not_nan s -> not_nan (Prim2SF (SF2Prim s)).
Proof.
  destruct s as [[]|[]| |sx m e]; try (intros _; vm_compute; exact I); [contradiction|].
  intros _. unfold SF2Prim. cbv zeta.
  assert (H : not_nan (Prim2SF (Z.ldexp (of_uint63 (Uint63.of_Z (Z.pos m))) e))).
  { rewrite Z_ldexp_spec. apply SFldexp_not_nan. rewrite of_uint63_spec.
    unfold binary_normalize.
    destruct (Uint63.to_Z (Uint63.of_Z (Z.pos m))); try exact I;
      apply binary_round_not_nan. }
  destruct sx; [rewrite opp_spec; apply SFopp_not_nan|]; exact H.
Qed.

Lemma is_infinity_spec (f : float) :
  is_infinity f = false -> forall s, Prim2SF f <> S754_infinity s.
Proof.
  unfold is_infinity. rewrite FloatAxioms.eqb_spec, abs_spec. intros H s Hs.
  rewrite Hs in H. destruct s; vm_compute in H; discriminate.
Qed.

(** [int()] accepts every quotient of two integers that [/] returns. *)
Lemma int_truediv_finite (a b : Z) (f : float) :
  int_truediv a b = Ok f -> exists z, py_int (PyFloat f) = Ok z.
Proof.
  unfold int_truediv. destruct (Z.eqb_spec b 0) as [|Hb]; [discriminate|].
  cbv zeta. destruct (is_infinity _) eqn:Hinf; [discriminate|].
  intros [= <-].
  pose proof (SF2Prim_not_nan _ (SFdiv_ints_not_nan a b Hb)) as Hnan.
  pose proof (is_infinity_spec _ Hinf) as Hfin.
  unfold py_int.
  destruct (Prim2SF (SF2Prim (SFdiv prec emax (Z_to_SF a) (Z_to_SF b))))
    as [s|s| |s m e]; eauto.
  - exfalso. apply (Hfin s). reflexivity.
  - contradiction.
Qed.

(** [int()] accepts every clamped number, whatever was clamped. *)
Lemma clamp_finite (bound : Z) (v : num) : exists z, py_int (clamp bound v) = Ok z.
Proof.
  unfold clamp, py_min, py_max.
  destruct (num_gt v (PyInt 0)) eqn:Hgt; [|destruct (num_lt _ _); simpl; eauto].
  destruct (num_lt v (PyInt (bound - 1))) eqn:Hlt; [|simpl; eauto].
  destruct v as [z|f]; [simpl; eauto|].
  unfold num_gt, num_lt, num_compare, num_xval, float_xval in Hgt, Hlt.
  unfold py_int. destruct (Prim2SF f) as [s|s| |s m e]; eauto.
  - destruct s; simpl in Hgt, Hlt; discriminate.
  - simpl in Hgt. discriminate.
Qed.

Lemma at_center_finite (width height : Z) (n : node) :
  at_center width height n -> finite_position n.
Proof.
  intros (cx & cy & Hcx & Hcy & Hx & Hy). unfold finite_position.
  destruct (int_truediv_finite _ _ _ Hcx) as (x & Hpx).
  destruct (int_truediv_finite _ _ _ Hcy) as (y & Hpy).
  exists x, y. rewrite Hx, Hy. auto.
Qed.

(** Every node that comes out of an integration pass has a position that
    [int()] accepts. *)
Lemma integration_pass_finite (width height : Z) (central : option string)
  (nodes nodes' : dict node) :
  integration_pass width height central nodes = Ok nodes' ->
  forall entry, In entry nodes' -> finite_position (snd entry).
Proof.
  intros Hpass [node_id n] Hin.
  pose proof (integration_pass_position _ _ _ _ _ _ _ Hpass Hin) as Hpos.
  destruct (is_central node_id central).
  - eapply at_center_finite. exact Hpos.
  - destruct Hpos as (vx & vy & Hx & Hy). simpl. unfold finite_position.
    destruct (clamp_finite width vx) as (x & Hpx).
    destruct (clamp_finite height vy) as (y & Hpy).
    exists x, y. rewrite Hx, Hy. auto.
Qed.

(** After a layout of at least one pass, every position is one [int()]
    accepts. *)
Lemma force_layout_finite (nodes : dict node) (edges : list edge)
  (width height : Z) (iterations : nat) (central : option string)
  (nodes' : dict node) :
  (1 <= iterations)%nat ->
  force_layout nodes edges width height iterations central = Ok nodes' ->
  forall entry, In entry nodes' -> finite_position (snd entry).
Proof.
  intros Hit Hrun.
  destruct nodes as [|e0 nodes0]; [injection Hrun as <-; intros ? []|].
  rewrite force_layout_unfold in Hrun by discriminate.
  apply bind_Ok in Hrun. destruct Hrun as (k & _ & Hrun).
  destruct iterations as [|m]; [lia|].
  destruct (iterate_last _ _ _ _ Hrun) as (d & _ & Hstep).
  unfold iteration in Hstep.
  apply bind_Ok in Hstep. destruct Hstep as (n1 & _ & Hstep).
  apply bind_Ok in Hstep. destruct Hstep as (n2 & _ & Hstep).
  apply (integration_pass_finite _ _ _ _ _ Hstep).
Qed.

(** Rendering returns a grid for every map of such positions. *)
Lemma render_to_grid_returns (nodes : dict node) (edges : list edge)
  (width height : Z) (central : option string) :
  (forall entry, In entry nodes -> finite_position (snd entry)) ->
  exists g, render_to_grid nodes edges width height central = Ok g.
Proof.
  intros Hfin. unfold render_to_grid.
  destruct (draw_edges_rect _ _ nodes edges Hfin _ (blank_grid_rect width height))
    as (g0 & Hedges & Hrect0).
  destruct (draw_nodes_cells width height central nodes g0 Hrect0 Hfin)
    as (g & Hnodes & _).
  exists g. rewrite Hedges. simpl. assumption.
Qed.

(** C6, as the code has it: the two placeholder messages.  No task at all
    gives the first.  Tasks that yield no edge, when there is more than one
    task, give the second without a layout (one edge is enough for a
    layout), once the node map is built, which can raise.  In every other
    case the outcome is that of building the node map, laying it out and
    rendering: an exception of the first two propagates, and when both
    return, rendering returns too and the result is the text of a grid of
    [height] rows of [width] columns, which is neither message. *)
Theorem generate_ascii_graph_cases (rt : runtime) (tasks : list Task)
  (width height : Z) (central : option string) :
  generate_ascii_graph rt [] width height central = Ok no_tasks_message /\
  (tasks <> [] -> find_links rt tasks = [] -> 1 < len tasks ->
   generate_ascii_graph rt tasks width height central =
   do _ <- nodes_map_of rt width height tasks; Ok no_links_message) /\
  (tasks <> [] -> find_links rt tasks <> [] \/ len tasks <= 1 ->
   generate_ascii_graph rt tasks width height central =
   (do nodes_map <- nodes_map_of rt width height tasks;
    do positioned_nodes <-
      force_layout nodes_map (find_links rt tasks) (width - 12) (height - 4) 100
        central;
    do g <- render_to_grid positioned_nodes (find_links rt tasks) width height central;
    Ok (grid_to_string g)) /\
   forall nodes_map positioned_nodes,
     nodes_map_of rt width height tasks = Ok nodes_map ->
     force_layout nodes_map (find_links rt tasks) (width - 12) (height - 4) 100
       central = Ok positioned_nodes ->
     exists g,
       render_to_grid positioned_nodes (find_links rt tasks) width height central
         = Ok g /\
       rect (Z.to_nat width) (Z.to_nat height) g /\
       generate_ascii_graph rt tasks width height central = Ok (grid_to_string g) /\
       grid_to_string g <> no_tasks_message /\
       grid_to_string g <> no_links_message).
Proof.
  split; [reflexivity|]. split.
  - intros Hne Hlinks Hlen.
    destruct tasks as [|t tasks']; [contradiction|].
    unfold generate_ascii_graph. rewrite Hlinks.
    destruct (Z.ltb_spec 1 (len (t :: tasks'))); [reflexivity|lia].
  - intros Hne Hcase.
    destruct tasks as [|t tasks']; [contradiction|].
    assert (Hguard : (match find_links rt (t :: tasks') with [] => true | _ => false end)
                     && (1 <? len (t :: tasks')) = false).
    { destruct Hcase as [Hlinks|Hlen].
      - destruct (find_links rt (t :: tasks')); [contradiction|reflexivity].
      - apply andb_false_iff. right. apply Z.ltb_ge. assumption. }
    assert (Heq : generate_ascii_graph rt (t :: tasks') width height central =
                  (do nodes_map <- nodes_map_of rt width height (t :: tasks');
                   do positioned_nodes <-
                     force_layout nodes_map (find_links rt (t :: tasks')) (width - 12)
                       (height - 4) 100 central;
                   do g <- render_to_grid positioned_nodes (find_links rt (t :: tasks'))
                             width height central;
                   Ok (grid_to_string g))).
    { unfold generate_ascii_graph. rewrite Hguard. reflexivity. }
    split; [exact Heq|].
    intros nodes_map positioned_nodes Hnodes Hlayout.
    destruct (render_to_grid_returns positioned_nodes (find_links rt (t :: tasks'))
                width height central) as (g & Hrender).
    { assert (Hiter : (1 <= 100)%nat) by lia.
      apply (force_layout_finite _ _ _ _ _ _ _ Hiter Hlayout). }
    exists g. split; [assumption|].
    split; [apply (render_to_grid_inv _ _ _ _ _ _ Hrender)|].
    split; [rewrite Heq, Hnodes; simpl; rewrite Hlayout; simpl; rewrite Hrender;
            reflexivity|].
    apply (render_to_grid_not_message _ _ _ _ _ _ Hrender).
Qed.

Lemma generate_ascii_graph_cases_witness :
  generate_ascii_graph length_runtime
    [Samples.parent_task; mk_task "b" "Beta" "" None] 40 10 None
  = Ok no_links_message /\
  exists g,
    rect 40 10 g /\
    generate_ascii_graph length_runtime [Samples.parent_task; Samples.child_task]
      40 10 None = Ok (grid_to_string g) /\
    grid_to_string g <> no_links_message.
Proof.
  split.
  - rewrite (proj1 (proj2 (generate_ascii_graph_cases length_runtime
                             [Samples.parent_task; mk_task "b" "Beta" "" None]
                             40 10 None))).
    + vm_compute. reflexivity.
    + discriminate.
    + vm_compute. reflexivity.
    + vm_compute. reflexivity.
  - assert (Hne : [Samples.parent_task; Samples.child_task] <> []) by discriminate.
    assert (Hcase : find_links length_runtime [Samples.parent_task; Samples.child_task]
                    <> [] \/
                    len [Samples.parent_task; Samples.child_task] <= 1)
      by (left; vm_compute; discriminate).
    destruct (proj2 (proj2 (generate_ascii_graph_cases length_runtime
                              [Samples.parent_task; Samples.child_task] 40 10 None))
                Hne Hcase) as (_ & Hgrid).
    destruct (nodes_map_of length_runtime 40 10
                [Samples.parent_task; Samples.child_task]) as [nodes_map| |] eqn:Hnodes;
      [|vm_compute in Hnodes; discriminate|vm_compute in Hnodes; discriminate].
    destruct (force_layout nodes_map
                (find_links length_runtime [Samples.parent_task; Samples.child_task])
                (40 - 12) (10 - 4) 100 None) as [positioned| |] eqn:Hlayout.
    + destruct (Hgrid nodes_map positioned eq_refl Hlayout)
        as (g & _ & Hrect & Hrun & _ & Hnot).
      exists g. split; [exact Hrect|]. split; [exact Hrun|exact Hnot].
    + exfalso. vm_compute in Hnodes. injection Hnodes as <-.
      vm_compute in Hlayout. discriminate.
    + exfalso. vm_compute in Hnodes. injection Hnodes as <-.
      vm_compute in Hlayout. discriminate.
Defined.

(** C6 as the claim words it fails three times.  Two tasks joined by a
    single edge, fewer than two, are laid out and drawn.  Two tasks with two
    edges on a grid 12 columns wide, one of ``all other cases'', get no grid:
    the canvas has no width and the layout divides by zero.  And two tasks
    without an edge get no message when the width is beyond the floats:
    the node map is built first, and [width / 2] overflows. *)
Lemma generate_ascii_graph_cases_counterexample :
  (find_links length_runtime [Samples.parent_task; Samples.child_task]
     = [("b", "a")]%string /\
   exists s,
     generate_ascii_graph length_runtime [Samples.parent_task; Samples.child_task]
       40 10 None = Ok s /\
     s <> no_links_message /\ s <> no_tasks_message /\
     String.length s = 409%nat) /\
  (find_links length_runtime [Samples.referring_task; Samples.child_task]
     = [("a", "b"); ("b", "a")]%string /\
   generate_ascii_graph length_runtime [Samples.referring_task; Samples.child_task]
     12 10 None = Raise ZeroDivisionError) /\
  (find_links length_runtime [Samples.parent_task; mk_task "b" "Beta" "" None] = [] /\
   generate_ascii_graph length_runtime
     [Samples.parent_task; mk_task "b" "Beta" "" None] (2 ^ 1025) 10 None
   = Raise OverflowError).
Proof.
  split; [|split].
  - split; [vm_compute; reflexivity|].
    eexists. split; [vm_compute; reflexivity|].
    split; [discriminate|]. split; [discriminate|]. reflexivity.
  - split; vm_compute; reflexivity.
  - split; vm_compute; reflexivity.
Qed.

(** ** Determinism *)

Lemma nodes_map_of_hash (rt1 rt2 : runtime) (tasks : list Task) (width height : Z) :
  (forall task, In task tasks ->
     hash rt1 (task_id task) mod 10 = hash rt2 (task_id task) mod 10 /\
     hash rt1 (task_title task) mod 10 = hash rt2 (task_title task) mod 10) ->
  nodes_map_of rt1 width height tasks = nodes_map_of rt2 width height tasks.
Proof.
  intros Hhash. unfold nodes_map_of. apply for_each_ext.
  intros nodes task Htask. unfold add_node, initial_node.
  destruct (Hhash task Htask) as (-> & ->). reflexivity.
Qed.

(** C8, as the code has it: the output is a function of the task list, the
    size, the focus and the interpreter's string hash and set order.  The
    hash enters through [hash(id) % 10] and [hash(title) % 10] only: two
    runtimes that agree on these residues and list sets in the same order
    give the same result, exceptions included. *)
Theorem generate_ascii_graph_deterministic (rt1 rt2 : runtime) (tasks : list Task)
  (width height : Z) (central : option string) :
  (forall l, set_list rt1 l = set_list rt2 l) ->
  (forall task, In task tasks ->
     hash rt1 (task_id task) mod 10 = hash rt2 (task_id task) mod 10 /\
     hash rt1 (task_title task) mod 10 = hash rt2 (task_title task) mod 10) ->
  generate_ascii_graph rt1 tasks width height central =
  generate_ascii_graph rt2 tasks width height central.
Proof.
  intros Hset Hhash. unfold generate_ascii_graph.
  destruct tasks as [|t tasks']; [reflexivity|].
  rewrite (nodes_map_of_hash rt1 rt2 (t :: tasks') width height Hhash).
  assert (Hlinks : find_links rt1 (t :: tasks') = find_links rt2 (t :: tasks'))
    by (unfold find_links; apply Hset).
  rewrite Hlinks. reflexivity.
Qed.

Lemma generate_ascii_graph_deterministic_witness :
  generate_ascii_graph (const_runtime 3) [Samples.parent_task; Samples.child_task]
    40 10 (Some "a"%string) =
  generate_ascii_graph (const_runtime 13) [Samples.parent_task; Samples.child_task]
    40 10 (Some "a"%string).
Proof.
  apply generate_ascii_graph_deterministic.
  - reflexivity.
  - intros task _. split; reflexivity.
Defined.

(** The same task under two hash seeds is drawn in two places. *)
Lemma generate_ascii_graph_deterministic_counterexample :
  exists s1 s2,
    generate_ascii_graph (const_runtime 0) [Samples.parent_task] 40 10 None = Ok s1 /\
    generate_ascii_graph (const_runtime 5) [Samples.parent_task] 40 10 None = Ok s2 /\
    String.get 15 s1 = Some "["%char /\
    String.get 15 s2 = Some " "%char /\
    s1 <> s2.
Proof.
  eexists. eexists.
  split; [vm_compute; reflexivity|].
  split; [vm_compute; reflexivity|].
  split; [reflexivity|]. split; [reflexivity|]. discriminate.
Qed.

(** * Further properties *)

(** ** Layout: what a run keeps *)

Lemma titles_keys (d : dict node) : map fst (titles d) = keys d.
Proof. unfold titles, keys. rewrite map_map. reflexivity. Qed.

Lemma map_result_titles (f : string * node -> result (string * node))
  (d d' : dict node) :
  (forall e e', f e = Ok e' -> fst e' = fst e /\ n_title (snd e') = n_title (snd e)) ->
  map_result f d = Ok d' -> titles d' = titles d.
Proof.
  intros Hf H. apply map_result_Ok in H.
  induction H as [|e e' d d' He _ IH]; simpl; [reflexivity|].
  destruct (Hf _ _ He) as (-> & ->). f_equal. assumption.
Qed.

Lemma dict_set_titles (d : dict node) (k : string) (n n' : node) :
  dict_get d k = Some n -> n_title n' = n_title n ->
  titles (dict_set d k n') = titles d.
Proof.
  intros Hget Htitle. induction d as [|[k0 n0] d IH]; simpl in *; [discriminate|].
  destruct (String.eqb k0 k); simpl.
  - injection Hget as ->. rewrite Htitle. reflexivity.
  - f_equal. apply IH. assumption.
Qed.

Lemma aug_assign_titles (nodes nodes' : dict node) (key : string)
  (get : node -> option num) (set : node -> num -> node)
  (op : num -> num -> result num) (rhs : result num) :
  (forall n v, n_title (set n v) = n_title n) ->
  aug_assign nodes key get set op rhs = Ok nodes' -> titles nodes' = titles nodes.
Proof.
  intros Hset. unfold aug_assign.
  destruct (dict_get nodes key) as [n|] eqn:Hget; [|discriminate].
  intros H. inv_bind. subst. eapply dict_set_titles; [eassumption|apply Hset].
Qed.

Lemma attract_titles (k : float) (central : option string) (nodes nodes' : dict node)
  (e : edge) :
  attract k central nodes e = Ok nodes' -> titles nodes' = titles nodes.
Proof.
  destruct e as [source target]. unfold attract.
  destruct (dict_get nodes source) as [node1|]; [|intros [= <-]; reflexivity].
  destruct (dict_get nodes target) as [node2|]; [|intros [= <-]; reflexivity].
  intros H. apply bind_Ok in H. destruct H as (dx & _ & H).
  apply bind_Ok in H. destruct H as (dy & _ & H).
  apply bind_Ok in H. destruct H as (distance & _ & H).
  apply bind_Ok in H. destruct H as (d2 & _ & H).
  apply bind_Ok in H. destruct H as (force0 & _ & H).
  apply bind_Ok in H. destruct H as (force & _ & H).
  apply bind_Ok in H. destruct H as (n1 & H1 & H).
  apply bind_Ok in H. destruct H as (n2 & H2 & H).
  apply bind_Ok in H. destruct H as (n3 & H3 & H).
  apply aug_assign_titles in H, H1, H2, H3; try reflexivity. congruence.
Qed.

Lemma iteration_titles (k : float) (edges : list edge) (width height : Z)
  (central : option string) (nodes nodes' : dict node) :
  iteration k edges width height central nodes = Ok nodes' ->
  titles nodes' = titles nodes.
Proof.
  unfold iteration. intros H.
  apply bind_Ok in H. destruct H as (n1 & H1 & H).
  apply bind_Ok in H. destruct H as (n2 & H2 & H).
  assert (titles n1 = titles nodes) as <-.
  { revert H1. apply map_result_titles. intros [i node1] e' He.
    unfold repulse in He. inv_bind. subst. auto. }
  assert (titles n2 = titles n1) as <-.
  { revert H2. unfold attraction_pass.
    apply (for_each_invariant (fun d : dict node => titles d = titles n1));
      [|reflexivity].
    intros s e s' Hs Ha. apply attract_titles in Ha. congruence. }
  revert H. apply map_result_titles. intros [node_id n] e' He.
  unfold integrate in He.
  destruct (is_central node_id central); inv_bind; subst; auto.
Qed.

Lemma iterate_titles (step : dict node -> result (dict node)) (n : nat) :
  (forall d d', step d = Ok d' -> titles d' = titles d) ->
  forall nodes nodes', iterate n step nodes = Ok nodes' -> titles nodes' = titles nodes.
Proof.
  intros Hstep. induction n as [|n IH]; intros nodes nodes' H; simpl in H.
  - injection H as <-. reflexivity.
  - apply bind_Ok in H. destruct H as (d & Hd & H).
    apply IH in H. apply Hstep in Hd. congruence.
Qed.

Lemma force_layout_titles (nodes : dict node) (edges : list edge)
  (width height : Z) (iterations : nat) (central : option string)
  (nodes' : dict node) :
  force_layout nodes edges width height iterations central = Ok nodes' ->
  titles nodes' = titles nodes.
Proof.
  intros Hrun.
  destruct nodes as [|e0 nodes0]; [injection Hrun as <-; reflexivity|].
  rewrite force_layout_unfold in Hrun by discriminate.
  apply bind_Ok in Hrun. destruct Hrun as (k & _ & Hrun).
  revert Hrun. apply iterate_titles. apply iteration_titles.
Qed.

Lemma force_layout_length (nodes : dict node) (edges : list edge)
  (width height : Z) (iterations : nat) (central : option string)
  (nodes' : dict node) :
  force_layout nodes edges width height iterations central = Ok nodes' ->
  length nodes' = length nodes.
Proof.
  intros Hrun. apply force_layout_titles in Hrun.
  apply (f_equal (@length (string * string))) in Hrun.
  unfold titles in Hrun. rewrite !length_map in Hrun. assumption.
Qed.


(** The ideal distance depends on the node map through its size only. *)
Lemma ideal_distance_length (nodes nodes' : dict node) (width height : Z) :
  length nodes' = length nodes ->
  ideal_distance nodes' width height = ideal_distance nodes width height.
Proof. intros H. unfold ideal_distance. rewrite H. reflexivity. Qed.

(** A layout can be resumed: a run of [j + m] passes is a run of [j]
    passes followed by a run of [m] passes on what it returned. *)
Theorem force_layout_resume (nodes : dict node) (edges : list edge)
  (width height : Z) (j m : nat) (central : option string) (nodes_j : dict node) :
  force_layout nodes edges width height j central = Ok nodes_j ->
  force_layout nodes edges width height (j + m) central =
  force_layout nodes_j edges width height m central.
Proof.
  intros Hj.
  pose proof (force_layout_length _ _ _ _ _ _ _ Hj) as Hlen.
  destruct nodes as [|e0 nodes0].
  - injection Hj as <-. reflexivity.
  - assert (Hne : nodes_j <> []) by (intros ->; discriminate).
    rewrite force_layout_unfold in Hj |- * by discriminate.
    rewrite (force_layout_unfold nodes_j) by assumption.
    rewrite (ideal_distance_length (e0 :: nodes0) nodes_j) by assumption.
    apply bind_Ok in Hj. destruct Hj as (k & Hk & Hj). rewrite Hk. simpl.
    rewrite iterate_add, Hj. reflexivity.
Qed.

Lemma force_layout_resume_witness :
  force_layout Samples.two_nodes [("a", "b")] 28 6 (3 + 2) None =
  force_layout Samples.two_nodes_laid_out [("a", "b")] 28 6 2 None.
Proof.
  apply force_layout_resume. vm_compute. reflexivity.
Defined.

(** ** Line rasterisation: what a line marks *)

Lemma on_line_box (x1 y1 x2 y2 a b : Z) (c : cursor) :
  on_line x1 y1 x2 y2 a b c ->
  Z.min x1 x2 <= c_x c <= Z.max x1 x2 /\ Z.min y1 y2 <= c_y c <= Z.max y1 y2.
Proof.
  intros (Ha & Hb & Hx & Hy & _). rewrite Hx, Hy.
  destruct (Z.ltb_spec x1 x2), (Z.ltb_spec y1 y2); lia.
Qed.

Lemma plot_inked (w h : nat) (g g' : grid) (x y : Z) :
  rect w h g -> plot g x y = Ok g' -> inked g' x y.
Proof.
  intros Hrect Hplot.
  destruct (plot_rect w h g x y Hrect) as (g1 & Hplot1 & _ & Hcells).
  assert (g1 = g') as -> by congruence.
  intros r k Hr Hk. rewrite Hcells.
  destruct (decide _) as [|Hno]; [discriminate|].
  intros Hblank. apply Hno. auto.
Qed.

Lemma marked_within_inked (x1 y1 x2 y2 x y : Z) (g g' : grid) :
  marked_within x1 y1 x2 y2 g g' -> inked g x y -> inked g' x y.
Proof.
  intros Hmarked Hinked r k Hr Hk.
  destruct (Hmarked r k) as [->|(_ & -> & _)]; [apply Hinked; assumption|discriminate].
Qed.

Lemma marked_within_trans (x1 y1 x2 y2 : Z) (g g1 g' : grid) :
  marked_within x1 y1 x2 y2 g g1 -> marked_within x1 y1 x2 y2 g1 g' ->
  marked_within x1 y1 x2 y2 g g'.
Proof.
  intros H1 H2 r k.
  destruct (H1 r k) as [Heq|(Hb & Hm & Hbox)], (H2 r k) as [Heq'|(Hb' & Hm' & Hbox')].
  - left. congruence.
  - right. rewrite <- Heq. auto.
  - right. rewrite Heq'. auto.
  - congruence.
Qed.

Lemma plot_marked_within (w h : nat) (x1 y1 x2 y2 a b : Z) (c : cursor) (g g' : grid) :
  rect w h g -> on_line x1 y1 x2 y2 a b c ->
  plot g (c_x c) (c_y c) = Ok g' ->
  marked_within x1 y1 x2 y2 g g'.
Proof.
  intros Hrect Hc Hplot.
  destruct (plot_rect w h g (c_x c) (c_y c) Hrect) as (g1 & Hplot1 & _ & Hcells).
  assert (g1 = g') as -> by congruence.
  destruct (on_line_box _ _ _ _ _ _ _ Hc) as (Hx & Hy).
  intros r k. rewrite Hcells.
  destruct (decide _) as [(Hr & Hk & Hblank)|]; [|left; reflexivity].
  right. repeat split; try assumption; lia.
Qed.

Section LineCells.

Variables (w h : nat) (x1 y1 x2 y2 : Z).

Abbreviation DX' := (Z.abs (x2 - x1)).
Abbreviation DY' := (Z.abs (y2 - y1)).
Abbreviation SX' := (if x1 <? x2 then 1 else -1).
Abbreviation SY' := (if y1 <? y2 then 1 else -1).

(** One pass of the loop, taken apart. *)
Lemma draw_line_loop_step (fuel : nat) (g : grid) (a b : Z) (c : cursor)
  (g' : grid) (c' : cursor) :
  rect w h g -> on_line x1 y1 x2 y2 a b c ->
  draw_line_loop (S fuel) g x2 y2 DX' (- DY') SX' SY' c = Ok (g', c') ->
  exists g1,
    plot g (c_x c) (c_y c) = Ok g1 /\ rect w h g1 /\
    ((a = DX' /\ b = DY' /\ g' = g1 /\ c' = c) \/
     (exists a' b',
        on_line x1 y1 x2 y2 a' b' (advance DX' (- DY') SX' SY' c) /\
        a <= a' <= a + 1 /\ b <= b' <= b + 1 /\
        draw_line_loop fuel g1 x2 y2 DX' (- DY') SX' SY'
          (advance DX' (- DY') SX' SY' c) = Ok (g', c'))).
Proof.
  intros Hrect Hc H. simpl in H.
  apply bind_Ok in H. destruct H as (g1 & Hplot & H).
  exists g1. split; [assumption|].
  destruct (plot_rect w h g (c_x c) (c_y c) Hrect) as (g2 & Hplot2 & Hrect2 & _).
  assert (g2 = g1) as -> by congruence.
  split; [assumption|].
  destruct ((c_x c =? x2) && (c_y c =? y2)) eqn:Hbreak.
  - left. apply (on_line_target x1 y1 x2 y2 a b c Hc) in Hbreak.
    destruct Hbreak. repeat split; congruence.
  - right.
    assert (Hnot : ~ (a = DX' /\ b = DY')).
    { intros Hab. apply (on_line_target x1 y1 x2 y2 a b c Hc) in Hab. congruence. }
    pose proof Hc as (Ha & Hb & Hx & Hy & He).
    unfold advance in *.
    destruct (Z.leb_spec (- DY') (2 * c_err c)) as [Hsx|Hsx];
      destruct (Z.leb_spec (2 * c_err c) DX') as [Hsy|Hsy]; simpl in *.
    + exists (a + 1), (b + 1). split; [|split; [lia|split; [lia|assumption]]].
      assert (a < DX') by (rewrite He in Hsx; nia).
      assert (b < DY') by (rewrite He in Hsy; nia).
      unfold on_line; simpl. repeat split; try lia; try nia.
    + exists (a + 1), b. split; [|split; [lia|split; [lia|assumption]]].
      assert (a < DX') by (rewrite He in Hsx; nia).
      unfold on_line; simpl. repeat split; try lia; try nia.
    + exists a, (b + 1). split; [|split; [lia|split; [lia|assumption]]].
      assert (b < DY') by (rewrite He in Hsy; nia).
      unfold on_line; simpl. repeat split; try lia; try nia.
    + lia.
Qed.

Lemma draw_line_loop_marked_within (fuel : nat) :
  forall (g : grid) (a b : Z) (c : cursor) (g' : grid) (c' : cursor),
    rect w h g -> on_line x1 y1 x2 y2 a b c ->
    draw_line_loop fuel g x2 y2 DX' (- DY') SX' SY' c = Ok (g', c') ->
    marked_within x1 y1 x2 y2 g g'.
Proof.
  induction fuel as [|fuel IH]; intros g a b c g' c' Hrect Hc H; [discriminate|].
  destruct (draw_line_loop_step fuel g a b c g' c' Hrect Hc H)
    as (g1 & Hplot & Hrect1 & Hcase).
  pose proof (plot_marked_within w h _ _ _ _ _ _ _ _ _ Hrect Hc Hplot) as Hstep.
  destruct Hcase as [(_ & _ & -> & _)|(a' & b' & Hc' & _ & _ & Hrest)]; [assumption|].
  eapply marked_within_trans; [exact Hstep|].
  eapply IH; eassumption.
Qed.

(** Every column from the cursor's to the target's holds an inked cell of
    the box, and so does every row. *)
Lemma draw_line_loop_covers (fuel : nat) :
  forall (g : grid) (a b : Z) (c : cursor) (g' : grid) (c' : cursor),
    rect w h g -> on_line x1 y1 x2 y2 a b c ->
    draw_line_loop fuel g x2 y2 DX' (- DY') SX' SY' c = Ok (g', c') ->
    (forall i, a <= i <= DX' ->
       exists j, b <= j <= DY' /\ inked g' (x1 + SX' * i) (y1 + SY' * j)) /\
    (forall j, b <= j <= DY' ->
       exists i, a <= i <= DX' /\ inked g' (x1 + SX' * i) (y1 + SY' * j)) /\
    inked g' (x1 + SX' * DX') (y1 + SY' * DY').
Proof.
  induction fuel as [|fuel IH]; intros g a b c g' c' Hrect Hc H; [discriminate|].
  destruct (draw_line_loop_step fuel g a b c g' c' Hrect Hc H)
    as (g1 & Hplot & Hrect1 & Hcase).
  pose proof Hc as (Ha & Hb & Hx & Hy & _).
  pose proof (plot_inked w h _ _ _ _ Hrect Hplot) as Hhere.
  rewrite Hx, Hy in Hhere.
  destruct Hcase as [(-> & -> & -> & _)|(a' & b' & Hc' & Ha' & Hb' & Hrest)].
  - split; [|split; [|assumption]].
    + intros i Hi. exists DY'. split; [lia|]. replace i with DX' by lia. assumption.
    + intros j Hj. exists DX'. split; [lia|]. replace j with DY' by lia. assumption.
  - pose proof (draw_line_loop_marked_within fuel _ _ _ _ _ _ Hrect1 Hc' Hrest) as Hmarked.
    pose proof (marked_within_inked _ _ _ _ _ _ _ _ Hmarked Hhere) as Hhere'.
    destruct (IH _ _ _ _ _ _ Hrect1 Hc' Hrest) as (Hcols & Hrows & Hend).
    pose proof Hc' as (Ha2 & Hb2 & _).
    split; [|split; [|assumption]].
    + intros i Hi. destruct (decide (i = a)) as [->|Hne].
      * exists b. split; [lia|assumption].
      * destruct (Hcols i) as (j & Hj & Hink); [lia|]. exists j. split; [lia|assumption].
    + intros j Hj. destruct (decide (j = b)) as [->|Hne].
      * exists a. split; [lia|assumption].
      * destruct (Hrows j) as (i & Hi & Hink); [lia|]. exists i. split; [lia|assumption].
Qed.

End LineCells.

Lemma draw_line_Ok_inv (w h : nat) (g g' : grid) (x1 y1 x2 y2 : Z) :
  draw_line g x1 y1 x2 y2 = Ok g' ->
  exists c',
    draw_line_loop (line_fuel x1 y1 x2 y2) g x2 y2 (Z.abs (x2 - x1)) (- Z.abs (y2 - y1))
      (if x1 <? x2 then 1 else -1) (if y1 <? y2 then 1 else -1)
      (mk_cursor x1 y1 (Z.abs (x2 - x1) + - Z.abs (y2 - y1))) = Ok (g', c').
Proof.
  unfold draw_line, draw_line_with. intros H.
  apply bind_Ok in H. destruct H as ([g1 c1] & Hloop & H).
  injection H as <-. eauto.
Qed.

(** A line changes blank cells only, into edge marks only, and only inside
    the box spanned by its two endpoints: no label character and no earlier
    mark is overwritten, and nothing is drawn beyond the endpoints. *)
Theorem draw_line_marks_blank_cells_in_box (w h : nat) (g : grid) (x1 y1 x2 y2 : Z) :
  rect w h g ->
  exists g',
    draw_line g x1 y1 x2 y2 = Ok g' /\ rect w h g' /\
    marked_within x1 y1 x2 y2 g g'.
Proof.
  intros Hrect.
  destruct (draw_line_rect w h g x1 y1 x2 y2 Hrect) as (g' & Hdraw & Hrect').
  exists g'. split; [assumption|]. split; [assumption|].
  destruct (draw_line_Ok_inv w h _ _ _ _ _ _ Hdraw) as (c' & Hloop).
  eapply draw_line_loop_marked_within; [exact Hrect|apply on_line_start|exact Hloop].
Qed.

Lemma draw_line_marks_blank_cells_in_box_witness :
  exists g',
    draw_line (blank_grid 5 3) 4 0 (-2) 2 = Ok g' /\ rect 5 3 g' /\
    marked_within 4 0 (-2) 2 (blank_grid 5 3) g'.
Proof.
  apply draw_line_marks_blank_cells_in_box.
  split; [reflexivity|]. repeat constructor.
Defined.

(** A line has no gap: after [draw_line], both endpoints are inked, every
    column between [x1] and [x2] holds an inked cell of a row between [y1]
    and [y2], and every such row holds an inked cell of such a column
    (cells outside the grid count as inked: they are skipped). *)
Theorem draw_line_covers_columns_and_rows (w h : nat) (g : grid) (x1 y1 x2 y2 : Z) :
  rect w h g ->
  exists g',
    draw_line g x1 y1 x2 y2 = Ok g' /\
    inked g' x1 y1 /\ inked g' x2 y2 /\
    (forall x, Z.min x1 x2 <= x <= Z.max x1 x2 ->
       exists y, Z.min y1 y2 <= y <= Z.max y1 y2 /\ inked g' x y) /\
    (forall y, Z.min y1 y2 <= y <= Z.max y1 y2 ->
       exists x, Z.min x1 x2 <= x <= Z.max x1 x2 /\ inked g' x y).
Proof.
  intros Hrect.
  destruct (draw_line_rect w h g x1 y1 x2 y2 Hrect) as (g' & Hdraw & Hrect').
  exists g'. split; [assumption|].
  destruct (draw_line_Ok_inv w h _ _ _ _ _ _ Hdraw) as (c' & Hloop).
  destruct (draw_line_loop_covers w h x1 y1 x2 y2 _ _ _ _ _ _ _ Hrect
              (on_line_start x1 y1 x2 y2) Hloop) as (Hcols & Hrows & Hend).
  assert (Hcol : forall x, Z.min x1 x2 <= x <= Z.max x1 x2 ->
            exists y, Z.min y1 y2 <= y <= Z.max y1 y2 /\ inked g' x y).
  { intros x Hx.
    destruct (Hcols (Z.abs (x - x1))) as (j & Hj & Hink); [lia|].
    exists (y1 + (if y1 <? y2 then 1 else -1) * j). split.
    - destruct (Z.ltb_spec y1 y2); lia.
    - replace x with (x1 + (if x1 <? x2 then 1 else -1) * Z.abs (x - x1));
        [assumption|destruct (Z.ltb_spec x1 x2); lia]. }
  assert (Hrow : forall y, Z.min y1 y2 <= y <= Z.max y1 y2 ->
            exists x, Z.min x1 x2 <= x <= Z.max x1 x2 /\ inked g' x y).
  { intros y Hy.
    destruct (Hrows (Z.abs (y - y1))) as (i & Hi & Hink); [lia|].
    exists (x1 + (if x1 <? x2 then 1 else -1) * i). split.
    - destruct (Z.ltb_spec x1 x2); lia.
    - replace y with (y1 + (if y1 <? y2 then 1 else -1) * Z.abs (y - y1));
        [assumption|destruct (Z.ltb_spec y1 y2); lia]. }
  split; [|split; [|split; assumption]].
  - unfold line_fuel in Hloop.
    destruct (draw_line_loop_step w h x1 y1 x2 y2 _ _ _ _ _ _ _ Hrect
                (on_line_start x1 y1 x2 y2) Hloop) as (g1 & Hplot & Hrect1 & Hcase).
    pose proof (plot_inked w h _ _ _ _ Hrect Hplot) as Hhere. simpl in Hhere.
    destruct Hcase as [(_ & _ & -> & _)|(a' & b' & Hc' & _ & _ & Hrest)]; [assumption|].
    eapply marked_within_inked; [|exact Hhere].
    eapply draw_line_loop_marked_within; eassumption.
  - replace (x1 + (if x1 <? x2 then 1 else -1) * Z.abs (x2 - x1)) with x2 in Hend
      by (destruct (Z.ltb_spec x1 x2); lia).
    replace (y1 + (if y1 <? y2 then 1 else -1) * Z.abs (y2 - y1)) with y2 in Hend
      by (destruct (Z.ltb_spec y1 y2); lia).
    assumption.
Qed.

Lemma draw_line_covers_columns_and_rows_witness :
  exists g',
    draw_line (blank_grid 5 3) 4 0 (-2) 2 = Ok g' /\
    inked g' 4 0 /\ inked g' (-2) 2 /\
    (forall x, Z.min 4 (-2) <= x <= Z.max 4 (-2) ->
       exists y, Z.min 0 2 <= y <= Z.max 0 2 /\ inked g' x y) /\
    (forall y, Z.min 0 2 <= y <= Z.max 0 2 ->
       exists x, Z.min 4 (-2) <= x <= Z.max 4 (-2) /\ inked g' x y).
Proof.
  apply draw_line_covers_columns_and_rows with (w := 5%nat) (h := 3%nat).
  split; [reflexivity|]. repeat constructor.
Defined.

(** ** Rendering: what a cell can show *)

Lemma paint_origin (width height : Z) (central : option string) (nodes : dict node)
  (r k : nat) :
  forall c0 : option ascii,
    paint width height central nodes r k c0 = c0 \/
    exists entry c,
      In entry nodes /\ label_char width height central entry r k = Some c /\
      paint width height central nodes r k c0 = Some c.
Proof.
  unfold paint. induction nodes as [|e nodes IH]; intros c0; simpl; [left; reflexivity|].
  destruct (IH (match label_char width height central e r k with
                | Some c => Some c
                | None => c0
                end)) as [Heq|(entry & c & Hin & Hlabel & Heq)].
  - rewrite Heq. destruct (label_char width height central e r k) as [c|] eqn:Hlabel.
    + right. exists e, c. auto.
    + left. reflexivity.
  - right. exists entry, c. auto.
Qed.

(** A rendered grid shows nothing but blanks, edge marks and characters of
    the labels of its nodes, each at a place where that label puts it. *)
Theorem render_to_grid_alphabet (nodes : dict node) (edges : list edge)
  (width height : Z) (central : option string) (g : grid) :
  render_to_grid nodes edges width height central = Ok g ->
  forall (r k : nat) (c : ascii),
    cell g r k = Some c ->
    c = " "%char \/ c = "."%char \/
    exists entry, In entry nodes /\ label_char width height central entry r k = Some c.
Proof.
  intros Hrender r k c Hc. apply render_to_grid_inv in Hrender.
  destruct Hrender as (_ & g0 & Hmarks & Hcells). rewrite Hcells in Hc.
  destruct (paint_origin width height central nodes r k (cell g0 r k))
    as [Heq|(entry & c' & Hin & Hlabel & Heq)].
  - rewrite Heq in Hc. destruct (Hmarks _ _ _ Hc); auto.
  - right. right. exists entry. split; [assumption|]. congruence.
Qed.

Lemma render_to_grid_alphabet_witness :
  "["%char = " "%char \/ "["%char = "."%char \/
  exists entry,
    In entry [("a"%string, mk_node "abc" (PyInt 0) (PyInt 1) None None);
              ("b"%string, mk_node "xyz" (PyInt 40) (PyInt 1) None None)] /\
    label_char 6 2 None entry 1 0 = Some "["%char.
Proof.
  apply (render_to_grid_alphabet
           [("a"%string, mk_node "abc" (PyInt 0) (PyInt 1) None None);
            ("b"%string, mk_node "xyz" (PyInt 40) (PyInt 1) None None)]
           [("a", "b")]%string 6 2 None
           [[" "; " "; " "; " "; " "; " "]; ["["; "a"; "b"; "c"; "]"; "."]]%char).
  - vm_compute. reflexivity.
  - reflexivity.
Defined.

(** ** The node map of the pipeline *)

Lemma dict_get_set {V : Type} (d : dict V) (k k' : string) (v : V) :
  dict_get (dict_set d k v) k' = if String.eqb k k' then Some v else dict_get d k'.
Proof.
  induction d as [|[k0 v0] d IH]; simpl.
  - reflexivity.
  - destruct (String.eqb_spec k0 k) as [->|Hne]; simpl.
    + destruct (String.eqb k k'); reflexivity.
    + rewrite IH. destruct (String.eqb_spec k0 k') as [->|Hne'].
      * destruct (String.eqb_spec k k'); [congruence|reflexivity].
      * reflexivity.
Qed.

Lemma dict_mem_set {V : Type} (d : dict V) (k k' : string) (v : V) :
  dict_mem (dict_set d k v) k' = String.eqb k k' || dict_mem d k'.
Proof.
  unfold dict_mem. rewrite dict_get_set. destruct (String.eqb k k'); reflexivity.
Qed.

Lemma dict_mem_In {V : Type} (d : dict V) (k : string) :
  dict_mem d k = true <-> In k (keys d).
Proof.
  rewrite dict_mem_keys, existsb_exists. split.
  - intros (x & Hx & Heq). apply String.eqb_eq in Heq. congruence.
  - intros H. exists k. split; [assumption|apply String.eqb_refl].
Qed.

(** Storing under a new key appends it. *)
Lemma dict_set_fresh {V : Type} (d : dict V) (k : string) (v : V) :
  dict_mem d k = false -> dict_set d k v = d ++ [(k, v)].
Proof.
  unfold dict_mem. induction d as [|[k0 v0] d IH]; simpl; [reflexivity|].
  destruct (String.eqb k0 k); [discriminate|].
  intros H. f_equal. apply IH. assumption.
Qed.

Lemma nodes_map_of_mem (rt : runtime) (width height : Z) (tasks : list Task) :
  forall acc nodes_map : dict node,
    for_each (add_node rt width height) tasks acc = Ok nodes_map ->
    forall k, dict_mem nodes_map k = true <->
              dict_mem acc k = true \/ In k (map task_id tasks).
Proof.
  induction tasks as [|task tasks IH]; intros acc nodes_map H k; simpl in H.
  - injection H as <-. simpl. tauto.
  - apply bind_Ok in H. destruct H as (acc1 & Hadd & H).
    unfold add_node in Hadd. apply bind_Ok in Hadd. destruct Hadd as (n & _ & Hadd).
    injection Hadd as <-.
    rewrite (IH _ _ H k), dict_mem_set. simpl.
    destruct (String.eqb_spec (task_id task) k) as [->|Hne]; simpl; [tauto|].
    split; [intros [?|?]; auto|intros [?|[?|?]]; auto; contradiction].
Qed.

(** Every edge the pipeline hands to the layout and to the renderer joins
    two nodes of the node map built from the same tasks: there no edge is
    ever skipped. *)
Theorem pipeline_edges_present (rt : runtime) (tasks : list Task) (width height : Z)
  (nodes_map : dict node) :
  set_semantics rt ->
  nodes_map_of rt width height tasks = Ok nodes_map ->
  (forall e, In e (find_links rt tasks) -> present nodes_map e = true) /\
  List.filter (present nodes_map) (find_links rt tasks) = find_links rt tasks.
Proof.
  intros Hrt Hnodes.
  assert (Hall : forall e, In e (find_links rt tasks) -> present nodes_map e = true).
  { intros [s t] Hin. apply (find_links_In rt _ _ _ Hrt) in Hin.
    destruct Hin as (task & Htask & Hid & Ht & _).
    unfold present. simpl. apply andb_true_iff.
    split; apply (nodes_map_of_mem rt width height tasks [] nodes_map Hnodes); right.
    - subst s. apply in_map. assumption.
    - assumption. }
  split; [assumption|].
  induction (find_links rt tasks) as [|e l IH]; simpl; [reflexivity|].
  rewrite Hall by (left; reflexivity). f_equal. apply IH.
  intros e' He'. apply Hall. right. assumption.
Qed.

Lemma pipeline_edges_present_witness :
  (forall e,
     In e (find_links length_runtime [Samples.referring_task; Samples.child_task]) ->
     present [("a"%string, mk_node "Alpha" (PyFloat 16) (PyFloat 5) None None);
              ("b"%string, mk_node "Beta" (PyFloat 16) (PyFloat 4) None None)] e = true) /\
  List.filter
    (present [("a"%string, mk_node "Alpha" (PyFloat 16) (PyFloat 5) None None);
              ("b"%string, mk_node "Beta" (PyFloat 16) (PyFloat 4) None None)])
    (find_links length_runtime [Samples.referring_task; Samples.child_task])
  = find_links length_runtime [Samples.referring_task; Samples.child_task].
Proof.
  apply (pipeline_edges_present length_runtime
           [Samples.referring_task; Samples.child_task] 40 10).
  - intros l. simpl. split.
    + apply NoDup_ListNoDup. apply NoDup_remove_dups.
    + intros e. rewrite <- !list_elem_of_In. apply elem_of_remove_dups.
  - vm_compute. reflexivity.
Defined.

Lemma dict_set_In {V : Type} (d : dict V) (k : string) (v : V) (e : string * V) :
  In e (dict_set d k v) -> In e d \/ e = (k, v).
Proof.
  induction d as [|[k0 v0] d IH]; simpl.
  - intros [<-|[]]. auto.
  - destruct (String.eqb_spec k0 k) as [->|Hne]; simpl.
    + intros [<-|H]; auto.
    + intros [<-|H]; [auto|]. destruct (IH H); auto.
Qed.

Lemma initial_node_shape (rt : runtime) (width height : Z) (task : Task) (n : node) :
  initial_node rt width height task = Ok n ->
  n_title n = task_title task /\ n_dx n = None /\ n_dy n = None /\
  exists cx cy jx jy,
    int_truediv width 2 = Ok cx /\ int_truediv height 2 = Ok cy /\
    -5 <= jx <= 4 /\ -5 <= jy <= 4 /\
    num_add (PyFloat cx) (PyInt jx) = Ok (n_x n) /\
    num_add (PyFloat cy) (PyInt jy) = Ok (n_y n).
Proof.
  unfold initial_node. intros H.
  apply bind_Ok in H. destruct H as (cx & Hcx & H).
  apply bind_Ok in H. destruct H as (x0 & Hx0 & H).
  apply bind_Ok in H. destruct H as (cy & Hcy & H).
  apply bind_Ok in H. destruct H as (y0 & Hy0 & H).
  injection H as <-. simpl. repeat split.
  exists cx, cy, (hash rt (task_id task) mod 10 - 5), (hash rt (task_title task) mod 10 - 5).
  pose proof (Z.mod_pos_bound (hash rt (task_id task)) 10).
  pose proof (Z.mod_pos_bound (hash rt (task_title task)) 10).
  repeat split; try assumption; lia.
Qed.

Lemma nodes_map_of_titles (rt : runtime) (width height : Z) (tasks : list Task) :
  forall acc nodes_map : dict node,
    List.NoDup (keys acc ++ map task_id tasks) ->
    for_each (add_node rt width height) tasks acc = Ok nodes_map ->
    titles nodes_map =
    titles acc ++ map (fun task => (task_id task, task_title task)) tasks.
Proof.
  induction tasks as [|task tasks IH]; intros acc nodes_map Hnodup H; simpl in H.
  - injection H as <-. simpl. rewrite app_nil_r. reflexivity.
  - apply bind_Ok in H. destruct H as (acc1 & Hadd & H).
    unfold add_node in Hadd. apply bind_Ok in Hadd. destruct Hadd as (n & Hn & Hadd).
    injection Hadd as <-.
    assert (Hfresh : dict_mem acc (task_id task) = false).
    { destruct (dict_mem acc (task_id task)) eqn:Hmem; [|reflexivity].
      apply dict_mem_In in Hmem. simpl in Hnodup.
      apply NoDup_remove_2 in Hnodup. exfalso. apply Hnodup.
      apply in_or_app. left. assumption. }
    rewrite (dict_set_fresh _ _ _ Hfresh) in H.
    apply IH in H.
    + rewrite H. unfold titles. rewrite map_app. simpl.
      destruct (initial_node_shape _ _ _ _ _ Hn) as (-> & _).
      rewrite <- app_assoc. reflexivity.
    + unfold keys. rewrite map_app. simpl. rewrite <- app_assoc. exact Hnodup.
Qed.

(** The node map holds a node for every task and for nothing else; each node
    starts without force accumulators, at the centre of the canvas moved by
    a whole number of cells between -5 and 4 on each axis, whatever the
    hash; and when the task ids are distinct the nodes come in task order,
    each with the title of its task. *)
Theorem nodes_map_of_tasks (rt : runtime) (width height : Z) (tasks : list Task)
  (nodes_map : dict node) :
  nodes_map_of rt width height tasks = Ok nodes_map ->
  (forall k, In k (keys nodes_map) <-> In k (map task_id tasks)) /\
  (forall entry, In entry nodes_map ->
     n_dx (snd entry) = None /\ n_dy (snd entry) = None /\
     exists cx cy jx jy,
       int_truediv width 2 = Ok cx /\ int_truediv height 2 = Ok cy /\
       -5 <= jx <= 4 /\ -5 <= jy <= 4 /\
       num_add (PyFloat cx) (PyInt jx) = Ok (n_x (snd entry)) /\
       num_add (PyFloat cy) (PyInt jy) = Ok (n_y (snd entry))) /\
  (List.NoDup (map task_id tasks) ->
   titles nodes_map = map (fun task => (task_id task, task_title task)) tasks).
Proof.
  intros Hnodes. split; [|split].
  - intros k. rewrite <- dict_mem_In.
    rewrite (nodes_map_of_mem rt width height tasks [] nodes_map Hnodes k).
    unfold dict_mem. simpl. split; [intros [?|?]; [discriminate|assumption]|auto].
  - revert Hnodes. unfold nodes_map_of.
    apply (for_each_invariant
             (fun d : dict node =>
                forall entry, In entry d ->
                  n_dx (snd entry) = None /\ n_dy (snd entry) = None /\
                  exists cx cy jx jy,
                    int_truediv width 2 = Ok cx /\ int_truediv height 2 = Ok cy /\
                    -5 <= jx <= 4 /\ -5 <= jy <= 4 /\
                    num_add (PyFloat cx) (PyInt jx) = Ok (n_x (snd entry)) /\
                    num_add (PyFloat cy) (PyInt jy) = Ok (n_y (snd entry))));
      [|intros entry []].
    intros d task d' Hd Hadd entry Hin.
    unfold add_node in Hadd. apply bind_Ok in Hadd. destruct Hadd as (n & Hn & Hadd).
    injection Hadd as <-.
    destruct (dict_set_In _ _ _ _ Hin) as [Hold| ->]; [auto|].
    simpl. destruct (initial_node_shape _ _ _ _ _ Hn) as (_ & Hdx & Hdy & Hpos). auto.
  - intros Hnodup.
    apply (nodes_map_of_titles rt width height tasks [] nodes_map Hnodup Hnodes).
Qed.

Lemma nodes_map_of_tasks_witness :
  titles [("a"%string, mk_node "Alpha" (PyFloat 16) (PyFloat 5) None None);
          ("b"%string, mk_node "Beta" (PyFloat 16) (PyFloat 4) None None)]
  = map (fun task => (task_id task, task_title task))
      [Samples.parent_task; Samples.child_task].
Proof.
  refine (proj2 (proj2 (nodes_map_of_tasks length_runtime 40 10
                          [Samples.parent_task; Samples.child_task] _ _)) _).
  - vm_compute. reflexivity.
  - repeat constructor; simpl; intuition discriminate.
Defined.

(** ** Link extraction: more tasks, more links *)

(** Adding tasks to the list never removes a link: every edge found among
    [tasks] is found again when further tasks come before or after them. *)
Theorem find_links_monotone (rt : runtime) (before tasks after : list Task) (e : edge) :
  set_semantics rt ->
  In e (find_links rt tasks) ->
  In e (find_links rt (before ++ tasks ++ after)).
Proof.
  intros Hrt. destruct e as [s t]. rewrite !(find_links_In rt _ _ _ Hrt).
  intros (task & Htask & Hid & Ht & Hcase).
  exists task. split; [|split; [assumption|split; [|assumption]]].
  - apply in_or_app. right. apply in_or_app. left. assumption.
  - rewrite !map_app. apply in_or_app. right. apply in_or_app. left. assumption.
Qed.

Lemma find_links_monotone_witness :
  In ("b", "a")%string
    (find_links (const_runtime 0)
       ([Samples.self_parent_task] ++ [Samples.parent_task; Samples.child_task]
        ++ [Samples.referring_task])).
Proof.
  apply find_links_monotone.
  - apply const_runtime_set_semantics.
  - vm_compute. auto.
Defined.

(** ** The pipeline: tasks without links *)

Lemma findall_from_no_bracket (s : string) :
  ~ In "["%char (list_ascii_of_string s) ->
  forall skip, findall_from skip s = [].
Proof.
  induction s as [|c s IH]; intros Hno skip; cbn [findall_from]; [reflexivity|].
  simpl in Hno.
  assert (Hc : c <> "["%char) by (intros ->; apply Hno; left; reflexivity).
  assert (Hs : ~ In "["%char (list_ascii_of_string s)) by (intros H; apply Hno; right; exact H).
  destruct skip as [|skip]; [|apply IH; assumption].
  assert (Hmatch : match_link (String c s) = None).
  { unfold match_link.
    destruct c as [[] [] [] [] [] [] [] []]; try reflexivity. contradiction Hc. reflexivity. }
  rewrite Hmatch. apply IH. assumption.
Qed.

Lemma flat_map_all_nil {A B : Type} (f : A -> list B) (l : list A) :
  (forall a, In a l -> f a = []) -> flat_map f l = [].
Proof.
  induction l as [|a l IH]; intros H; simpl; [reflexivity|].
  rewrite (H a) by (left; reflexivity). apply IH.
  intros a' Ha'. apply H. right. assumption.
Qed.

Lemma set_list_nil (rt : runtime) : set_semantics rt -> set_list rt [] = [].
Proof.
  intros Hrt. destruct (set_list rt []) as [|e l] eqn:Hset; [reflexivity|].
  exfalso. apply (proj2 (Hrt []) e). rewrite Hset. left. reflexivity.
Qed.

(** Tasks that have no parent and no opening bracket in their description
    have no edge, and two or more of them get the second message: no layout
    is attempted. *)
Theorem unlinked_tasks_message (rt : runtime) (tasks : list Task) (width height : Z)
  (central : option string) (nodes_map : dict node) :
  set_semantics rt ->
  (forall task, In task tasks ->
     task_parent_id task = None /\
     ~ In "["%char (list_ascii_of_string (task_description task))) ->
  1 < len tasks ->
  nodes_map_of rt width height tasks = Ok nodes_map ->
  find_links rt tasks = [] /\
  generate_ascii_graph rt tasks width height central = Ok no_links_message.
Proof.
  intros Hrt Hplain Hlen Hnodes.
  assert (Hlinks : find_links rt tasks = []).
  { unfold find_links.
    replace (flat_map (links_of (map task_id tasks)) tasks) with (@nil edge);
      [apply set_list_nil; assumption|].
    symmetry. apply flat_map_all_nil. intros task Htask.
    destruct (Hplain task Htask) as (Hparent & Hdesc).
    unfold links_of, findall. rewrite Hparent.
    rewrite (findall_from_no_bracket _ Hdesc). reflexivity. }
  split; [assumption|].
  destruct tasks as [|t tasks']; [unfold len in Hlen; simpl in Hlen; lia|].
  unfold generate_ascii_graph. rewrite Hnodes, Hlinks. simpl bind.
  destruct (Z.ltb_spec 1 (len (t :: tasks'))); [reflexivity|lia].
Qed.

Lemma unlinked_tasks_message_witness :
  find_links length_runtime [Samples.parent_task; mk_task "b" "Beta" "to do" None] = [] /\
  generate_ascii_graph length_runtime
    [Samples.parent_task; mk_task "b" "Beta" "to do" None] 40 10 (Some "a"%string)
  = Ok no_links_message.
Proof.
  eapply (unlinked_tasks_message length_runtime
            [Samples.parent_task; mk_task "b" "Beta" "to do" None] 40 10).
  - intros l. simpl. split.
    + apply NoDup_ListNoDup. apply NoDup_remove_dups.
    + intros e. rewrite <- !list_elem_of_In. apply elem_of_remove_dups.
  - intros task [<-|[<-|[]]]; split; try reflexivity; simpl; intuition discriminate.
  - reflexivity.
  - vm_compute. reflexivity.
Defined.

(** ** The pipeline: the size of the text *)

Lemma string_length_append (s1 s2 : string) :
  String.length (s1 ++ s2) = (String.length s1 + String.length s2)%nat.
Proof. induction s1 as [|c s1 IH]; simpl; [reflexivity|]. rewrite IH. reflexivity. Qed.

Lemma string_of_list_ascii_length (l : list ascii) :
  String.length (string_of_list_ascii l) = length l.
Proof. induction l as [|c l IH]; simpl; [reflexivity|]. rewrite IH. reflexivity. Qed.

Lemma grid_to_string_length (w h : nat) (g : grid) :
  rect w h g -> String.length (grid_to_string g) = (h * (w + 1) - 1)%nat.
Proof.
  unfold grid_to_string. revert h. induction g as [|row g IH]; intros h [Hlen Hrows].
  - simpl in *. subst h. reflexivity.
  - simpl in Hlen. subst h. apply Forall_cons in Hrows. destruct Hrows as (Hrow & Hrows).
    specialize (IH (length g) (conj eq_refl Hrows)).
    destruct g as [|row2 g'].
    + simpl. rewrite string_of_list_ascii_length. lia.
    + change (String.length
                (string_of_list_ascii row ++ String "010" EmptyString
                 ++ String.concat (String "010" EmptyString)
                      (map string_of_list_ascii (row2 :: g')))
              = (S (length (row2 :: g')) * (w + 1) - 1)%nat).
      rewrite !string_length_append, string_of_list_ascii_length, IH, Hrow.
      simpl String.length. simpl length. lia.
Qed.

(** What [generate_ascii_graph] returns is one of the two messages or a
    text of exactly [height] rows of [width] characters and the newlines
    between them: [height * (width + 1) - 1] characters, none for an empty
    grid. *)
Theorem generate_ascii_graph_size (rt : runtime) (tasks : list Task)
  (width height : Z) (central : option string) (s : string) :
  generate_ascii_graph rt tasks width height central = Ok s ->
  s = no_tasks_message \/ s = no_links_message \/
  String.length s = (Z.to_nat height * (Z.to_nat width + 1) - 1)%nat.
Proof.
  intros Hrun. destruct tasks as [|t tasks']; [left; simpl in Hrun; congruence|].
  unfold generate_ascii_graph in Hrun.
  apply bind_Ok in Hrun. destruct Hrun as (nodes_map & _ & Hrun).
  destruct ((match find_links rt (t :: tasks') with [] => true | _ => false end)
            && (1 <? len (t :: tasks'))).
  - right. left. congruence.
  - right. right.
    apply bind_Ok in Hrun. destruct Hrun as (positioned_nodes & _ & Hrun).
    apply bind_Ok in Hrun. destruct Hrun as (g & Hrender & Hrun).
    injection Hrun as <-.
    apply grid_to_string_length. apply (render_to_grid_inv _ _ _ _ _ _ Hrender).
Qed.

Lemma generate_ascii_graph_size_witness :
  exists s,
    generate_ascii_graph length_runtime [Samples.parent_task; Samples.child_task]
      40 10 None = Ok s /\
    (s = no_tasks_message \/ s = no_links_message \/
     String.length s = (Z.to_nat 10 * (Z.to_nat 40 + 1) - 1)%nat).
Proof.
  eexists. split; [vm_compute; reflexivity|].
  apply (generate_ascii_graph_size length_runtime
           [Samples.parent_task; Samples.child_task] 40 10 None).
  vm_compute. reflexivity.
Defined.

(** ** The pipeline: the inset leaves room for every label *)

Lemma le_of_compare (x y : Z) :
  match x ?= y with Lt | Eq => true | Gt => false end = true -> x <= y.
Proof. unfold Z.le. destruct (x ?= y); congruence. Qed.

Lemma py_int_bounds (v : num) (b : Z) :
  num_le (PyInt 0) v = true -> num_le v (PyInt b) = true ->
  exists z, py_int v = Ok z /\ 0 <= z <= b.
Proof.
  destruct v as [z|f].
  - intros H0 H1. apply num_le_int in H0, H1. exists z. auto.
  - unfold num_le, num_compare, num_xval, float_xval, py_int.
    destruct (Prim2SF f) as [s|s| |s m e]; simpl xval_compare.
    + (* zero *)
      intros _ H1. exists 0. split; [reflexivity|].
      unfold dyadic_compare in H1. cbv zeta in H1.
      apply le_of_compare in H1.
      change (2 ^ (0 - Z.min 0 0)) with 1 in H1. lia.
    + destruct s; discriminate.
    + discriminate.
    + intros H0 H1. unfold dyadic_compare in H0, H1. cbv zeta in H0, H1.
      apply le_of_compare in H0, H1.
      assert (Hpow : forall k, 0 <= k -> 0 < 2 ^ k) by (intros; apply Z.pow_pos_nonneg; lia).
      destruct s.
      * exfalso. pose proof (Hpow (e - Z.min 0 e)). nia.
      * destruct (Z.leb_spec 0 e) as [He|He].
        -- exists (Z.pos m * 2 ^ e). split; [reflexivity|].
           rewrite Z.min_r in H1 by lia.
           replace (e - 0) with e in H1 by lia. change (2 ^ (0 - 0)) with 1 in H1.
           pose proof (Hpow e He). nia.
        -- exists (Z.pos m / 2 ^ (- e)). split; [reflexivity|].
           rewrite Z.min_l in H1 by lia.
           replace (e - e) with 0 in H1 by lia. replace (0 - e) with (- e) in H1 by lia.
           change (2 ^ 0) with 1 in H1.
           pose proof (Hpow (- e)) as Hp. specialize (Hp ltac:(lia)).
           split.
           ++ apply Z.div_pos; lia.
           ++ apply Z.div_le_upper_bound; [assumption|]. lia.
Qed.

Lemma substring_length_le (m : nat) (s : string) :
  (String.length (substring 0 m s) <= m)%nat.
Proof.
  revert s. induction m as [|m IH]; intros s.
  - destruct s; simpl; lia.
  - destruct s as [|c s]; simpl; [lia|]. specialize (IH s). lia.
Qed.

Lemma list_ascii_of_string_length (s : string) :
  length (list_ascii_of_string s) = String.length s.
Proof. induction s as [|c s IH]; simpl; [reflexivity|]. rewrite IH. reflexivity. Qed.

(** A label has between 2 and 12 characters. *)
Lemma label_of_length (central : option string) (node_id : string) (data : node) :
  2 <= len (list_ascii_of_string (label_of central node_id data)) <= 12.
Proof.
  unfold len. rewrite list_ascii_of_string_length. unfold label_of.
  pose proof (substring_length_le 10 (n_title data)).
  cbv zeta.
  destruct (is_central node_id central);
    rewrite !string_length_append; simpl String.length; lia.
Qed.

Lemma inset_layout_guard (nodes : dict node) (edges : list edge)
  (width height : Z) (iterations : nat) (central : option string)
  (nodes' : dict node) :
  12 < width -> 4 < height -> (1 <= iterations)%nat ->
  force_layout nodes edges (width - 12) (height - 4) iterations central = Ok nodes' ->
  forall (node_id : string) (n : node),
    In (node_id, n) nodes' -> is_central node_id central = false ->
    exists x y,
      py_int (n_x n) = Ok x /\ py_int (n_y n) = Ok y /\
      0 <= x <= width - 13 /\ 0 <= y <= height - 5 /\
      forall (i : nat) (ch : ascii),
        list_ascii_of_string (label_of central node_id n) !! i = Some ch ->
        label_char width height central (node_id, n) (Z.to_nat y) (Z.to_nat x + i)
        = Some ch.
Proof.
  intros Hw Hh Hit Hrun node_id n Hin Hcentral.
  destruct nodes as [|e0 nodes0]; [injection Hrun as <-; contradiction|].
  rewrite force_layout_unfold in Hrun by discriminate.
  apply bind_Ok in Hrun. destruct Hrun as (k & _ & Hrun).
  destruct iterations as [|m]; [lia|].
  destruct (iterate_last _ _ _ _ Hrun) as (d & _ & Hstep).
  unfold iteration in Hstep.
  apply bind_Ok in Hstep. destruct Hstep as (n1 & _ & Hstep).
  apply bind_Ok in Hstep. destruct Hstep as (n2 & _ & Hstep).
  pose proof (integration_pass_position _ _ _ _ _ _ _ Hstep Hin) as Hpos.
  rewrite Hcentral in Hpos. destruct Hpos as (vx & vy & Hx & Hy).
  destruct (clamp_bounds (width - 12) vx) as (Hx0 & Hx1); [lia|].
  destruct (clamp_bounds (height - 4) vy) as (Hy0 & Hy1); [lia|].
  rewrite <- Hx in Hx0, Hx1. rewrite <- Hy in Hy0, Hy1.
  destruct (py_int_bounds _ _ Hx0 Hx1) as (x & Hpx & Hxr).
  destruct (py_int_bounds _ _ Hy0 Hy1) as (y & Hpy & Hyr).
  exists x, y. repeat (split; [assumption || lia|]).
  intros i ch Hch. unfold label_char. simpl fst. simpl snd. rewrite Hpx, Hpy.
  cbv zeta. pose proof (label_of_length central node_id n) as Hlen.
  rewrite decide_True by lia.
  replace (Z.to_nat (Z.of_nat (Z.to_nat x + i) - x)) with i by lia.
  assumption.
Qed.


(** Laid out over the canvas less 12 columns and 4 rows, every node other
    than the focus ends at a truncated position from which its whole label
    fits the full grid: the drawing guard of [render_to_grid] holds for it,
    and the label puts each of its characters in a cell. *)
Theorem inset_layout_labels_fit (nodes : dict node) (edges : list edge)
  (width height : Z) (iterations : nat) (central : option string)
  (nodes' : dict node) :
  12 < width -> 4 < height -> (1 <= iterations)%nat ->
  force_layout nodes edges (width - 12) (height - 4) iterations central = Ok nodes' ->
  forall (node_id : string) (n : node),
    In (node_id, n) nodes' -> is_central node_id central = false ->
    exists x y,
      py_int (n_x n) = Ok x /\ py_int (n_y n) = Ok y /\
      0 <= x <= width - 13 /\ 0 <= y <= height - 5 /\
      forall (i : nat) (ch : ascii),
        list_ascii_of_string (label_of central node_id n) !! i = Some ch ->
        label_char width height central (node_id, n) (Z.to_nat y) (Z.to_nat x + i)
        = Some ch.
Proof. apply inset_layout_guard. Qed.

Lemma inset_layout_labels_fit_witness :
  List.Forall
    (fun entry : string * node =>
       is_central (fst entry) None = false ->
       exists x y,
         py_int (n_x (snd entry)) = Ok x /\ py_int (n_y (snd entry)) = Ok y /\
         0 <= x <= 40 - 13 /\ 0 <= y <= 10 - 5 /\
         forall (i : nat) (ch : ascii),
           list_ascii_of_string (label_of None (fst entry) (snd entry)) !! i = Some ch ->
           label_char 40 10 None (fst entry, snd entry) (Z.to_nat y) (Z.to_nat x + i)
           = Some ch)
    Samples.two_nodes_laid_out.
Proof.
  apply List.Forall_forall. intros [node_id n] Hin.
  apply (inset_layout_labels_fit Samples.two_nodes [("a", "b")] 40 10 3 None
           Samples.two_nodes_laid_out);
    [lia|lia|lia|vm_compute; reflexivity|exact Hin].
Defined.

(** ** Exceptions that can escape *)

Lemma arithmetic_only_bind {A B : Type} (m : result A) (k : A -> result B) :
  arithmetic_only m -> (forall a, m = Ok a -> arithmetic_only (k a)) ->
  arithmetic_only (bind m k).
Proof. destruct m as [a|e|]; simpl; auto. Qed.

Lemma Z_to_float_arithmetic (z : Z) : arithmetic_only (Z_to_float z).
Proof. unfold Z_to_float. cbv zeta. destruct (is_infinity _); exact I. Qed.

Lemma to_float_arithmetic (a : num) : arithmetic_only (to_float a).
Proof. destruct a; [apply Z_to_float_arithmetic|exact I]. Qed.

Lemma arith_arithmetic (iop : Z -> Z -> Z) (fop : float -> float -> float) (a b : num) :
  arithmetic_only (arith iop fop a b).
Proof.
  destruct a as [x|f], b as [y|f']; try exact I; unfold arith;
    (apply arithmetic_only_bind; [apply to_float_arithmetic|intros ? _]);
    (apply arithmetic_only_bind; [apply to_float_arithmetic|intros ? _]); exact I.
Qed.

Lemma int_truediv_arithmetic (a b : Z) : arithmetic_only (int_truediv a b).
Proof.
  unfold int_truediv. destruct (b =? 0); [exact I|].
  cbv zeta. destruct (is_infinity _); exact I.
Qed.

Lemma num_truediv_arithmetic (a b : num) : arithmetic_only (num_truediv a b).
Proof.
  destruct a as [x|f], b as [y|f']; unfold num_truediv;
    try (apply arithmetic_only_bind; [apply int_truediv_arithmetic|intros ? _; exact I]);
    (apply arithmetic_only_bind; [apply to_float_arithmetic|intros ? _]);
    (apply arithmetic_only_bind; [apply to_float_arithmetic|intros ? _]);
    destruct (is_zero _); exact I.
Qed.

Lemma num_sq_arithmetic (a : num) : arithmetic_only (num_sq a).
Proof.
  destruct a as [x|f]; [exact I|]. unfold num_sq. cbv zeta.
  destruct (_ && _); exact I.
Qed.

Lemma py_sqrt_arithmetic (a : num) : arithmetic_only (py_sqrt a).
Proof.
  unfold py_sqrt. apply arithmetic_only_bind; [apply to_float_arithmetic|intros f _].
  destruct (f <? 0)%float; exact I.
Qed.

Lemma py_int_arithmetic (a : num) : arithmetic_only (py_int a).
Proof.
  destruct a as [z|f]; [exact I|]. unfold py_int.
  destruct (Prim2SF f); exact I.
Qed.

Lemma distance_of_arithmetic (dx dy : num) : arithmetic_only (distance_of dx dy).
Proof.
  unfold distance_of.
  apply arithmetic_only_bind; [apply num_sq_arithmetic|intros dx2 _].
  apply arithmetic_only_bind; [apply num_sq_arithmetic|intros dy2 _].
  apply arithmetic_only_bind; [apply arith_arithmetic|intros s _].
  apply arithmetic_only_bind; [apply py_sqrt_arithmetic|intros r _]. exact I.
Qed.

Lemma for_each_arithmetic {A S : Type} (P : S -> Prop) (body : S -> A -> result S)
  (l : list A) :
  (forall s a, P s -> arithmetic_only (body s a)) ->
  (forall s a s', P s -> body s a = Ok s' -> P s') ->
  forall s, P s -> arithmetic_only (for_each body l s).
Proof.
  intros Hbody Hkeep. induction l as [|a l IH]; intros s Hs; simpl; [exact I|].
  apply arithmetic_only_bind; [apply Hbody; assumption|].
  intros s' Hs'. apply IH. eapply Hkeep; eassumption.
Qed.

Lemma map_result_arithmetic {A B : Type} (f : A -> result B) (l : list A) :
  (forall a, In a l -> arithmetic_only (f a)) -> arithmetic_only (map_result f l).
Proof.
  induction l as [|a l IH]; intros Hf; simpl; [exact I|].
  apply arithmetic_only_bind; [apply Hf; left; reflexivity|intros b _].
  apply arithmetic_only_bind; [apply IH; intros a' Ha'; apply Hf; right; assumption|].
  intros bs _. exact I.
Qed.

Lemma repel_arithmetic (k : float) (i : string) (node1 : node) (acc : num * num)
  (entry : string * node) :
  arithmetic_only (repel k i node1 acc entry).
Proof.
  destruct entry as [j node2]. unfold repel. destruct (String.eqb i j); [exact I|].
  apply arithmetic_only_bind; [apply arith_arithmetic|intros dx _].
  apply arithmetic_only_bind; [apply arith_arithmetic|intros dy _].
  apply arithmetic_only_bind; [apply distance_of_arithmetic|intros distance _].
  destruct (num_gt _ _); [|exact I].
  apply arithmetic_only_bind; [apply num_sq_arithmetic|intros k2 _].
  apply arithmetic_only_bind; [apply num_truediv_arithmetic|intros force _].
  apply arithmetic_only_bind; [apply num_truediv_arithmetic|intros ux _].
  apply arithmetic_only_bind; [apply arith_arithmetic|intros fx _].
  apply arithmetic_only_bind; [apply arith_arithmetic|intros ax _].
  apply arithmetic_only_bind; [apply num_truediv_arithmetic|intros uy _].
  apply arithmetic_only_bind; [apply arith_arithmetic|intros fy _].
  apply arithmetic_only_bind; [apply arith_arithmetic|intros ay _]. exact I.
Qed.

Lemma repulsion_pass_arithmetic (k : float) (nodes : dict node) :
  arithmetic_only (repulsion_pass k nodes).
Proof.
  unfold repulsion_pass. apply map_result_arithmetic. intros [i node1] _.
  unfold repulse. apply arithmetic_only_bind; [|intros acc _; exact I].
  apply (for_each_arithmetic (fun _ => True)); auto.
  intros s a _. apply repel_arithmetic.
Qed.

(** The repulsion pass gives every node its accumulators. *)
Lemma repulsion_pass_forces (k : float) (nodes nodes' : dict node) :
  repulsion_pass k nodes = Ok nodes' -> has_forces nodes'.
Proof.
  unfold repulsion_pass. intros H. apply map_result_Ok in H.
  induction H as [|[i node1] e' d d' He _ IH]; intros entry Hin; [contradiction|].
  destruct Hin as [<-|Hin]; [|apply IH; assumption].
  unfold repulse in He. apply bind_Ok in He. destruct He as (acc & _ & He).
  injection He as <-. simpl. split; discriminate.
Qed.

Lemma dict_set_forces (d : dict node) (k : string) (n : node) :
  has_forces d -> n_dx n <> None -> n_dy n <> None -> has_forces (dict_set d k n).
Proof.
  intros Hd Hx Hy entry Hin.
  destruct (dict_set_In _ _ _ _ Hin) as [Hold| ->]; [apply Hd; assumption|auto].
Qed.

Lemma aug_assign_forces (nodes nodes' : dict node) (key : string)
  (get : node -> option num) (set : node -> num -> node)
  (op : num -> num -> result num) (rhs : result num) :
  (forall n v, n_dx n <> None -> n_dy n <> None ->
               n_dx (set n v) <> None /\ n_dy (set n v) <> None) ->
  has_forces nodes ->
  aug_assign nodes key get set op rhs = Ok nodes' -> has_forces nodes'.
Proof.
  intros Hset Hforces. unfold aug_assign.
  destruct (dict_get nodes key) as [n|] eqn:Hget; [|discriminate].
  intros H. inv_bind. subst.
  destruct (Hforces _ (dict_get_In _ _ _ Hget)) as (Hx & Hy). simpl in Hx, Hy.
  destruct (Hset n a1 Hx Hy). apply dict_set_forces; assumption.
Qed.

Lemma aug_assign_arithmetic (nodes : dict node) (key : string)
  (get : node -> option num) (set : node -> num -> node)
  (op : num -> num -> result num) (rhs : result num) :
  dict_mem nodes key = true ->
  (forall n, n_dx n <> None -> n_dy n <> None -> get n <> None) ->
  has_forces nodes ->
  arithmetic_only rhs -> (forall a b, arithmetic_only (op a b)) ->
  arithmetic_only (aug_assign nodes key get set op rhs).
Proof.
  intros Hmem Hget Hforces Hrhs Hop. unfold aug_assign.
  destruct (dict_mem_get _ _ Hmem) as (n & Hn). rewrite Hn.
  destruct (Hforces _ (dict_get_In _ _ _ Hn)) as (Hx & Hy). simpl in Hx, Hy.
  specialize (Hget n Hx Hy).
  apply arithmetic_only_bind.
  - destruct (get n); [exact I|contradiction].
  - intros cur _. apply arithmetic_only_bind; [assumption|intros v _].
    apply arithmetic_only_bind; [apply Hop|intros r _; exact I].
Qed.

Lemma set_dx_forces (n : node) (v : num) :
  n_dx n <> None -> n_dy n <> None ->
  n_dx (set_dx n v) <> None /\ n_dy (set_dx n v) <> None.
Proof. intros Hx Hy. simpl. split; [discriminate|assumption]. Qed.

Lemma set_dy_forces (n : node) (v : num) :
  n_dx n <> None -> n_dy n <> None ->
  n_dx (set_dy n v) <> None /\ n_dy (set_dy n v) <> None.
Proof. intros Hx Hy. simpl. split; [assumption|discriminate]. Qed.

Lemma attract_forces (k : float) (central : option string) (nodes nodes' : dict node)
  (e : edge) :
  has_forces nodes -> attract k central nodes e = Ok nodes' -> has_forces nodes'.
Proof.
  intros Hforces. destruct e as [source target]. unfold attract.
  destruct (dict_get nodes source) as [node1|]; [|intros [= <-]; assumption].
  destruct (dict_get nodes target) as [node2|]; [|intros [= <-]; assumption].
  intros H. apply bind_Ok in H. destruct H as (dx & _ & H).
  apply bind_Ok in H. destruct H as (dy & _ & H).
  apply bind_Ok in H. destruct H as (distance & _ & H).
  apply bind_Ok in H. destruct H as (d2 & _ & H).
  apply bind_Ok in H. destruct H as (force0 & _ & H).
  apply bind_Ok in H. destruct H as (force & _ & H).
  apply bind_Ok in H. destruct H as (n1 & H1 & H).
  apply bind_Ok in H. destruct H as (n2 & H2 & H).
  apply bind_Ok in H. destruct H as (n3 & H3 & H).
  apply (aug_assign_forces _ _ _ _ _ _ _ set_dx_forces) in H1; [|assumption].
  apply (aug_assign_forces _ _ _ _ _ _ _ set_dx_forces) in H2; [|assumption].
  apply (aug_assign_forces _ _ _ _ _ _ _ set_dy_forces) in H3; [|assumption].
  apply (aug_assign_forces _ _ _ _ _ _ _ set_dy_forces) in H; assumption.
Qed.

Lemma attract_arithmetic (k : float) (central : option string) (nodes : dict node)
  (e : edge) :
  has_forces nodes -> arithmetic_only (attract k central nodes e).
Proof.
  intros Hforces. destruct e as [source target]. unfold attract.
  destruct (dict_get nodes source) as [node1|] eqn:Hs; [|destruct (dict_get nodes target); exact I].
  destruct (dict_get nodes target) as [node2|] eqn:Ht; [|exact I].
  apply dict_get_mem in Hs, Ht.
  apply arithmetic_only_bind; [apply arith_arithmetic|intros dx _].
  apply arithmetic_only_bind; [apply arith_arithmetic|intros dy _].
  apply arithmetic_only_bind; [apply distance_of_arithmetic|intros distance _].
  apply arithmetic_only_bind; [apply num_sq_arithmetic|intros d2 _].
  apply arithmetic_only_bind; [apply num_truediv_arithmetic|intros force0 _].
  apply arithmetic_only_bind;
    [destruct (_ && _); [apply arith_arithmetic|exact I]|intros force _].
  assert (Hpull : forall d, arithmetic_only
                    (do u <- num_truediv d (PyFloat distance); num_mul u force)).
  { intros d. apply arithmetic_only_bind; [apply num_truediv_arithmetic|intros u _].
    apply arith_arithmetic. }
  assert (Hdx : forall n, n_dx n <> None -> n_dy n <> None -> n_dx n <> None) by auto.
  assert (Hdy : forall n, n_dx n <> None -> n_dy n <> None -> n_dy n <> None) by auto.
  apply arithmetic_only_bind.
  { apply aug_assign_arithmetic; auto. intros; apply arith_arithmetic. }
  intros n1 H1.
  pose proof (aug_assign_forces _ _ _ _ _ _ _ set_dx_forces Hforces H1) as Hf1.
  pose proof (aug_assign_keys _ _ _ _ _ _ _ H1) as Hk1.
  apply arithmetic_only_bind.
  { apply aug_assign_arithmetic; auto; [|intros; apply arith_arithmetic].
    rewrite (dict_mem_same_keys nodes n1 target Hk1). assumption. }
  intros n2 H2.
  pose proof (aug_assign_forces _ _ _ _ _ _ _ set_dx_forces Hf1 H2) as Hf2.
  pose proof (aug_assign_keys _ _ _ _ _ _ _ H2) as Hk2.
  apply arithmetic_only_bind.
  { apply aug_assign_arithmetic; auto; [|intros; apply arith_arithmetic].
    rewrite (dict_mem_same_keys n1 n2 source Hk2),
            (dict_mem_same_keys nodes n1 source Hk1). assumption. }
  intros n3 H3.
  pose proof (aug_assign_forces _ _ _ _ _ _ _ set_dy_forces Hf2 H3) as Hf3.
  pose proof (aug_assign_keys _ _ _ _ _ _ _ H3) as Hk3.
  apply aug_assign_arithmetic; auto; [|intros; apply arith_arithmetic].
  rewrite (dict_mem_same_keys n2 n3 target Hk3), (dict_mem_same_keys n1 n2 target Hk2),
          (dict_mem_same_keys nodes n1 target Hk1). assumption.
Qed.

Lemma integration_pass_arithmetic (width height : Z) (central : option string)
  (nodes : dict node) :
  has_forces nodes -> arithmetic_only (integration_pass width height central nodes).
Proof.
  intros Hforces. unfold integration_pass. apply map_result_arithmetic.
  intros [node_id n] Hin. unfold integrate.
  destruct (is_central node_id central).
  - apply arithmetic_only_bind; [apply int_truediv_arithmetic|intros cx _].
    apply arithmetic_only_bind; [apply int_truediv_arithmetic|intros cy _]. exact I.
  - destruct (Hforces _ Hin) as (Hx & Hy). simpl in Hx, Hy.
    apply arithmetic_only_bind; [destruct (n_dx n); [exact I|contradiction]|intros fx _].
    apply arithmetic_only_bind; [apply arith_arithmetic|intros disp_x _].
    apply arithmetic_only_bind; [destruct (n_dy n); [exact I|contradiction]|intros fy _].
    apply arithmetic_only_bind; [apply arith_arithmetic|intros disp_y _].
    apply arithmetic_only_bind; [apply arith_arithmetic|intros x1 _].
    apply arithmetic_only_bind; [apply arith_arithmetic|intros y1 _]. exact I.
Qed.

Lemma iteration_arithmetic (k : float) (edges : list edge) (width height : Z)
  (central : option string) (nodes : dict node) :
  arithmetic_only (iteration k edges width height central nodes).
Proof.
  unfold iteration.
  apply arithmetic_only_bind; [apply repulsion_pass_arithmetic|intros n1 H1].
  apply repulsion_pass_forces in H1.
  apply arithmetic_only_bind.
  - unfold attraction_pass. apply (for_each_arithmetic has_forces); [| |assumption].
    + intros s e Hs. apply attract_arithmetic. assumption.
    + intros s e s' Hs He. eapply attract_forces; eassumption.
  - intros n2 H2. apply integration_pass_arithmetic.
    revert H2. unfold attraction_pass.
    apply (for_each_invariant has_forces); [|assumption].
    intros s e s' Hs He. eapply attract_forces; eassumption.
Qed.

Lemma force_layout_arithmetic (nodes : dict node) (edges : list edge)
  (width height : Z) (iterations : nat) (central : option string) :
  arithmetic_only (force_layout nodes edges width height iterations central).
Proof.
  destruct nodes as [|e0 nodes0]; [exact I|].
  rewrite force_layout_unfold by discriminate.
  apply arithmetic_only_bind.
  - unfold ideal_distance.
    apply arithmetic_only_bind; [apply int_truediv_arithmetic|intros q _].
    apply py_sqrt_arithmetic.
  - intros k _. generalize (e0 :: nodes0).
    induction iterations as [|n IH]; intros d; simpl; [exact I|].
    apply arithmetic_only_bind; [apply iteration_arithmetic|intros d' _; apply IH].
Qed.

Lemma render_to_grid_arithmetic (nodes : dict node) (edges : list edge)
  (width height : Z) (central : option string) :
  arithmetic_only (render_to_grid nodes edges width height central).
Proof.
  unfold render_to_grid.
  assert (Hedge : forall (g : grid) (e : edge),
            rect (Z.to_nat width) (Z.to_nat height) g ->
            arithmetic_only (draw_edge nodes g e) /\
            forall g', draw_edge nodes g e = Ok g' ->
                       rect (Z.to_nat width) (Z.to_nat height) g').
  { intros g [source target] Hrect. unfold draw_edge.
    destruct (dict_get nodes source); [|split; [exact I|congruence]].
    destruct (dict_get nodes target); [|split; [exact I|congruence]].
    split.
    - apply arithmetic_only_bind; [apply py_int_arithmetic|intros x1 _].
      apply arithmetic_only_bind; [apply py_int_arithmetic|intros y1 _].
      apply arithmetic_only_bind; [apply py_int_arithmetic|intros x2 _].
      apply arithmetic_only_bind; [apply py_int_arithmetic|intros y2 _].
      destruct (draw_line_rect _ _ g x1 y1 x2 y2 Hrect) as (g' & -> & _). exact I.
    - intros g' H.
      apply bind_Ok in H. destruct H as (x1 & _ & H).
      apply bind_Ok in H. destruct H as (y1 & _ & H).
      apply bind_Ok in H. destruct H as (x2 & _ & H).
      apply bind_Ok in H. destruct H as (y2 & _ & H).
      destruct (draw_line_rect _ _ g x1 y1 x2 y2 Hrect) as (g1 & Hline & Hrect1).
      congruence. }
  apply arithmetic_only_bind.
  - apply (for_each_arithmetic (rect (Z.to_nat width) (Z.to_nat height)));
      [| |apply blank_grid_rect].
    + intros g e Hrect. apply Hedge. assumption.
    + intros g e g' Hrect. apply Hedge. assumption.
  - intros g0 Hedges.
    assert (Hrect0 : rect (Z.to_nat width) (Z.to_nat height) g0).
    { revert Hedges.
      apply (for_each_invariant (rect (Z.to_nat width) (Z.to_nat height)));
        [|apply blank_grid_rect].
      intros g e g' Hrect. apply Hedge. assumption. }
    assert (Hnode : forall (g : grid) (entry : string * node),
              rect (Z.to_nat width) (Z.to_nat height) g ->
              arithmetic_only (draw_node width height central g entry) /\
              forall g', draw_node width height central g entry = Ok g' ->
                         rect (Z.to_nat width) (Z.to_nat height) g').
    { intros g [node_id data] Hrect.
      destruct (py_int (n_x data)) as [x|e|] eqn:Hx.
      2:{ unfold draw_node. rewrite Hx. simpl. split; [|discriminate].
          pose proof (py_int_arithmetic (n_x data)) as H. rewrite Hx in H. exact H. }
      2:{ pose proof (py_int_arithmetic (n_x data)) as H. rewrite Hx in H. contradiction. }
      destruct (py_int (n_y data)) as [y|e|] eqn:Hy.
      2:{ unfold draw_node. rewrite Hx, Hy. simpl. split; [|discriminate].
          pose proof (py_int_arithmetic (n_y data)) as H. rewrite Hy in H. exact H. }
      2:{ pose proof (py_int_arithmetic (n_y data)) as H. rewrite Hy in H. contradiction. }
      assert (Hfin : finite_position (snd (node_id, data))) by (exists x, y; auto).
      destruct (draw_node_cells width height central g _ Hrect Hfin)
        as (g1 & Hdraw & Hrect1 & _).
      rewrite Hdraw. split; [exact I|]. intros g' [= <-]. assumption. }
    apply (for_each_arithmetic (rect (Z.to_nat width) (Z.to_nat height)));
      [| |assumption].
    + intros g e Hrect. apply Hnode. assumption.
    + intros g e g' Hrect. apply Hnode. assumption.
Qed.

Lemma nodes_map_of_arithmetic (rt : runtime) (width height : Z) (tasks : list Task) :
  arithmetic_only (nodes_map_of rt width height tasks).
Proof.
  unfold nodes_map_of. apply (for_each_arithmetic (fun _ => True)); auto.
  intros d task _. unfold add_node, initial_node.
  apply arithmetic_only_bind; [|intros n _; exact I].
  apply arithmetic_only_bind; [apply int_truediv_arithmetic|intros cx _].
  apply arithmetic_only_bind; [apply arith_arithmetic|intros x0 _].
  apply arithmetic_only_bind; [apply int_truediv_arithmetic|intros cy _].
  apply arithmetic_only_bind; [apply arith_arithmetic|intros y0 _]. exact I.
Qed.

(** Whatever the input, the layout, the renderer and the whole pipeline
    return or raise an arithmetic exception ([ZeroDivisionError],
    [OverflowError] or [ValueError]): the reads of ['dx'] and ['dy'] always
    find their key, no list index is out of range, and the line loop
    always has passes left. *)
Theorem only_arithmetic_exceptions (rt : runtime) (tasks : list Task)
  (nodes : dict node) (edges : list edge) (width height : Z) (iterations : nat)
  (central : option string) :
  arithmetic_only (force_layout nodes edges width height iterations central) /\
  arithmetic_only (render_to_grid nodes edges width height central) /\
  arithmetic_only (generate_ascii_graph rt tasks width height central).
Proof.
  split; [apply force_layout_arithmetic|]. split; [apply render_to_grid_arithmetic|].
  unfold generate_ascii_graph. destruct tasks as [|t tasks']; [exact I|].
  apply arithmetic_only_bind; [apply nodes_map_of_arithmetic|intros nodes_map _].
  destruct (_ && _); [exact I|].
  apply arithmetic_only_bind; [apply force_layout_arithmetic|intros positioned _].
  apply arithmetic_only_bind; [apply render_to_grid_arithmetic|intros g _]. exact I.
Qed.

(** ** The web exporter *)

Lemma web_edges_of_In (task_ids : list string) (task : Task) (s t : string) (d : bool) :
  In (mk_web_edge s t d) (web_edges_of task_ids task) <->
  s = task_id task /\ In t task_ids /\
  ((d = false /\ task_parent_id task = Some t /\ t <> ""%string) \/
   (d = true /\ In t (findall (task_description task)))).
Proof.
  unfold web_edges_of. rewrite in_app_iff, in_map_iff. split.
  - intros [Hp|(x & [= <- <- <-] & Hx)].
    + destruct (task_parent_id task) as [p|]; [|contradiction].
      destruct (negb (String.eqb p "") && mem p task_ids) eqn:Hcond; [|contradiction].
      destruct Hp as [[= <- <- <-]|[]].
      apply andb_true_iff in Hcond. destruct Hcond as (Hne & Hmem).
      apply mem_In in Hmem. apply negb_true_iff, String.eqb_neq in Hne.
      split; [reflexivity|]. split; [assumption|]. left. auto.
    + apply filter_In in Hx. destruct Hx as (Hfound & Hmem).
      apply mem_In in Hmem.
      split; [reflexivity|]. split; [assumption|]. right. auto.
  - intros (-> & Hmem & [(-> & Hp & Hne)|(-> & Hfound)]).
    + left. rewrite Hp.
      replace (negb (String.eqb t "") && mem t task_ids) with true; [left; reflexivity|].
      symmetry. apply andb_true_iff. split.
      * apply negb_true_iff, String.eqb_neq. assumption.
      * apply mem_In. assumption.
    + right. exists t. split; [reflexivity|].
      apply filter_In. split; [assumption|apply mem_In; assumption].
Qed.

(** The web exporter draws the edges of [find_links] and one thing more:
    between two tasks it has an edge exactly when [find_links] has one, and
    from a task to itself it also has one when the task names its own id in
    its description, a reference [find_links] leaves out. *)
Theorem web_edges_and_find_links (rt : runtime) (tasks : list Task) (s t : string) :
  set_semantics rt ->
  (exists d, In (mk_web_edge s t d) (web_edges tasks)) <->
  In (s, t) (find_links rt tasks) \/
  (s = t /\ exists task,
     In task tasks /\ task_id task = s /\ In s (findall (task_description task))).
Proof.
  intros Hrt. rewrite (find_links_In rt _ _ _ Hrt). unfold web_edges. split.
  - intros (d & Hin). apply in_flat_map in Hin. destruct Hin as (task & Htask & Hin).
    apply web_edges_of_In in Hin.
    destruct Hin as (-> & Hmem & [(_ & Hp & Hne)|(_ & Hfound)]).
    + left. exists task. split; [assumption|]. split; [reflexivity|].
      split; [assumption|]. right. split; assumption.
    + destruct (String.eqb_spec (task_id task) t) as [Heq|Hne].
      * right. split; [assumption|]. exists task. split; [assumption|].
        split; [reflexivity|]. rewrite Heq. assumption.
      * left. exists task. split; [assumption|]. split; [reflexivity|].
        split; [assumption|]. left. split; assumption.
  - intros [(task & Htask & <- & Hmem & [(Hfound & _)|(Hp & Hne)])
           |(<- & task & Htask & <- & Hfound)].
    + exists true. apply in_flat_map. exists task. split; [assumption|].
      apply web_edges_of_In. split; [reflexivity|]. split; [assumption|].
      right. split; [reflexivity|assumption].
    + exists false. apply in_flat_map. exists task. split; [assumption|].
      apply web_edges_of_In. split; [reflexivity|]. split; [assumption|].
      left. split; [reflexivity|]. split; assumption.
    + exists true. apply in_flat_map. exists task. split; [assumption|].
      apply web_edges_of_In. split; [reflexivity|]. split.
      * apply in_map. assumption.
      * right. split; [reflexivity|assumption].
Qed.

Lemma web_edges_and_find_links_witness :
  (exists d,
     In (mk_web_edge "a" "b" d)
        (web_edges [Samples.referring_task; Samples.child_task])) <->
  In ("a", "b")%string
     (find_links (const_runtime 0) [Samples.referring_task; Samples.child_task]) \/
  ("a"%string = "b"%string /\
   exists task,
     In task [Samples.referring_task; Samples.child_task] /\
     task_id task = "a"%string /\ In "a"%string (findall (task_description task))).
Proof.
  apply web_edges_and_find_links. apply const_runtime_set_semantics.
Defined.

(** The web exporter keeps what [find_links] removes: an edge found twice
    is listed twice. *)
Example web_edges_keep_duplicates :
  web_edges [mk_task "a" "Alpha" "[[b]] and again [[b]]" None; Samples.child_task]
  = [mk_web_edge "a" "b" true; mk_web_edge "a" "b" true; mk_web_edge "b" "a" false].
Proof. reflexivity. Qed.

(** ** The pipeline: every label is readable *)


(** ** Reference tokens: what [findall] finds *)

Lemma span_link_spec (s : string) :
  forall run tail,
    span_link s = (run, tail) ->
    s = (run ++ tail)%string /\
    List.Forall (fun c => is_link_char c = true) (list_ascii_of_string run) /\
    match tail with
    | String c _ => is_link_char c = false
    | EmptyString => True
    end.
Proof.
  induction s as [|c s IH]; intros run tail H; simpl in H.
  - injection H as <- <-. simpl. auto.
  - destruct (is_link_char c) eqn:Hc.
    + destruct (span_link s) as [run' rest] eqn:Hspan. injection H as <- <-.
      destruct (IH run' rest eq_refl) as (-> & Hall & Htail).
      simpl. repeat split; auto.
    + injection H as <- <-. simpl. auto.
Qed.

Lemma span_link_complete (run tail : string) :
  List.Forall (fun c => is_link_char c = true) (list_ascii_of_string run) ->
  match tail with
  | String c _ => is_link_char c = false
  | EmptyString => True
  end ->
  span_link (run ++ tail) = (run, tail).
Proof.
  intros Hall Htail. induction run as [|c run IH]; simpl.
  - destruct tail as [|c tail]; [reflexivity|]. simpl. rewrite Htail. reflexivity.
  - simpl in Hall. apply List.Forall_cons_iff in Hall. destruct Hall as (Hc & Hall).
    rewrite Hc, (IH Hall). reflexivity.
Qed.

(** [match_link] with its two bracket tests spelled out. *)
Lemma match_link_unfold (s : string) :
  match_link s =
  match s with
  | String _ (String _ s') =>
      if starts_token s
         && negb (String.eqb (fst (span_link s')) "")
         && closes_token (snd (span_link s'))
      then Some (fst (span_link s'), (String.length (fst (span_link s')) + 4)%nat)
      else None
  | _ => None
  end.
Proof.
  destruct s as [|a [|b s']]; try reflexivity.
  - destruct a as [[] [] [] [] [] [] [] []]; reflexivity.
  - unfold match_link, starts_token.
    destruct (Ascii.eqb_spec a "[") as [->|Ha].
    2:{ destruct a as [[] [] [] [] [] [] [] []]; try reflexivity. contradiction. }
    destruct (Ascii.eqb_spec b "[") as [->|Hb].
    2:{ destruct b as [[] [] [] [] [] [] [] []]; try reflexivity. contradiction. }
    simpl andb. cbv iota.
    destruct (span_link s') as [run tail]. simpl fst. simpl snd.
    destruct run as [|c run]; [reflexivity|].
    change (String.eqb (String c run) "") with false. simpl negb. unfold closes_token.
    destruct tail as [|x [|y tail']].
    + reflexivity.
    + destruct x as [[] [] [] [] [] [] [] []]; reflexivity.
    + destruct (Ascii.eqb_spec x "]") as [->|Hx].
      2:{ destruct x as [[] [] [] [] [] [] [] []]; try reflexivity. contradiction. }
      destruct (Ascii.eqb_spec y "]") as [->|Hy].
      2:{ destruct y as [[] [] [] [] [] [] [] []]; try reflexivity. contradiction. }
      reflexivity.
Qed.

Lemma starts_token_spec (s : string) :
  starts_token s = true <-> exists rest, s = String "[" (String "[" rest).
Proof.
  split.
  - destruct s as [|a [|b s']]; simpl; try discriminate.
    intros H. apply andb_true_iff in H. destruct H as (Ha & Hb).
    apply Ascii.eqb_eq in Ha, Hb. subst. eauto.
  - intros (rest & ->). reflexivity.
Qed.

Lemma closes_token_spec (s : string) :
  closes_token s = true <-> exists rest, s = String "]" (String "]" rest).
Proof.
  split.
  - destruct s as [|a [|b s']]; simpl; try discriminate.
    intros H. apply andb_true_iff in H. destruct H as (Ha & Hb).
    apply Ascii.eqb_eq in Ha, Hb. subst. eauto.
  - intros (rest & ->). reflexivity.
Qed.

(** A match is a token at the head of the text. *)
Lemma match_link_spec (s run : string) (n : nat) :
  match_link s = Some (run, n) ->
  exists rest,
    s = ("[[" ++ run ++ "]]" ++ rest)%string /\ link_run run /\
    n = (String.length run + 4)%nat.
Proof.
  rewrite match_link_unfold. destruct s as [|a [|b s']]; try discriminate.
  destruct (starts_token (String a (String b s'))) eqn:Hstart; [|discriminate].
  apply starts_token_spec in Hstart. destruct Hstart as (rest0 & [= -> -> <-]).
  destruct (span_link s') as [run0 tail] eqn:Hspan. simpl fst. simpl snd.
  destruct (String.eqb_spec run0 "") as [|Hne]; [discriminate|].
  destruct (closes_token tail) eqn:Hclose; [|discriminate].
  simpl. intros [= <- <-].
  apply closes_token_spec in Hclose. destruct Hclose as (rest & ->).
  destruct (span_link_spec _ _ _ Hspan) as (-> & Hall & _).
  exists rest. split; [reflexivity|]. split; [split; assumption|reflexivity].
Qed.

(** A token at the head of the text is matched. *)
Lemma match_link_complete (run post : string) :
  link_run run ->
  match_link ("[[" ++ run ++ "]]" ++ post)
  = Some (run, (String.length run + 4)%nat).
Proof.
  intros (Hne & Hall).
  change ("[[" ++ run ++ "]]" ++ post)%string
    with (String "[" (String "[" (run ++ String "]" (String "]" post)))).
  rewrite match_link_unfold. cbv beta iota.
  rewrite (span_link_complete run (String "]" (String "]" post)) Hall eq_refl).
  simpl fst. simpl snd.
  destruct (String.eqb_spec run "") as [|_]; [contradiction|]. reflexivity.
Qed.

Lemma match_link_none (s : string) : starts_token s = false -> match_link s = None.
Proof.
  intros H. rewrite match_link_unfold. destruct s as [|a [|b s']]; try reflexivity.
  rewrite H. reflexivity.
Qed.

Lemma holds_token_cons (run s : string) (c : ascii) :
  holds_token run s -> holds_token run (String c s).
Proof. intros (pre & post & ->). exists (String c pre), post. reflexivity. Qed.

Lemma findall_from_sound (run s : string) :
  forall skip, In run (findall_from skip s) -> holds_token run s /\ link_run run.
Proof.
  induction s as [|c s IH]; intros skip H; cbn [findall_from] in H; [contradiction|].
  destruct skip as [|skip].
  - destruct (match_link (String c s)) as [[run' n]|] eqn:Hmatch.
    + destruct H as [<-|H].
      * apply match_link_spec in Hmatch. destruct Hmatch as (rest & Hs & Hrun & _).
        split; [|assumption]. exists EmptyString, rest. exact Hs.
      * destruct (IH _ H). split; [apply holds_token_cons|]; assumption.
    + destruct (IH _ H). split; [apply holds_token_cons|]; assumption.
  - destruct (IH _ H). split; [apply holds_token_cons|]; assumption.
Qed.

Lemma link_char_not_bracket (c : ascii) : is_link_char c = true -> c <> "["%char.
Proof. intros H ->. discriminate H. Qed.

(** The characters a match still has to pass begin no token. *)
Lemma no_start_run (run rest : string) :
  List.Forall (fun c => is_link_char c = true) (list_ascii_of_string run) ->
  no_start (String.length run + 2) (run ++ String "]" (String "]" rest)).
Proof.
  induction run as [|c run IH]; intros Hall.
  - simpl. destruct rest; simpl; auto.
  - simpl in Hall. apply List.Forall_cons_iff in Hall. destruct Hall as (Hc & Hall).
    change (no_start (S (String.length run + 2))
              (String c (run ++ String "]" (String "]" rest)))).
    cbn [no_start]. split; [|apply IH; assumption].
    unfold starts_token.
    destruct (run ++ String "]" (String "]" rest))%string; [reflexivity|].
    destruct (Ascii.eqb_spec c "[") as [->|]; [discriminate Hc|reflexivity].
Qed.

Lemma no_start_after_match (run rest : string) :
  link_run run ->
  no_start (String.length run + 4 - 1)
    (String "[" (run ++ String "]" (String "]" rest))).
Proof.
  intros (Hne & Hall).
  replace (String.length run + 4 - 1)%nat with (S (String.length run + 2)) by lia.
  cbn [no_start]. split; [|apply no_start_run; assumption].
  destruct run as [|c run]; [contradiction|].
  simpl in Hall. apply List.Forall_cons_iff in Hall. destruct Hall as (Hc & _).
  simpl. destruct (Ascii.eqb_spec c "[") as [->|]; [discriminate Hc|reflexivity].
Qed.

Lemma findall_from_complete (run post : string) :
  link_run run ->
  forall (pre : string) (skip : nat),
    no_start skip (pre ++ "[[" ++ run ++ "]]" ++ post) ->
    In run (findall_from skip (pre ++ "[[" ++ run ++ "]]" ++ post)).
Proof.
  intros Hrun. induction pre as [|c pre IH]; intros skip Hskip.
  - change (EmptyString ++ "[[" ++ run ++ "]]" ++ post)%string
      with (String "[" (String "[" (run ++ "]]" ++ post))) in *.
    destruct skip as [|skip].
    + cbn [findall_from].
      change (String "[" (String "[" (run ++ "]]" ++ post)))
        with ("[[" ++ run ++ "]]" ++ post)%string.
      rewrite (match_link_complete run post Hrun). left. reflexivity.
    + cbn [no_start] in Hskip. destruct Hskip as (Hstart & _). discriminate Hstart.
  - change (String c pre ++ "[[" ++ run ++ "]]" ++ post)%string
      with (String c (pre ++ "[[" ++ run ++ "]]" ++ post)) in *.
    cbn [findall_from]. destruct skip as [|skip].
    + destruct (match_link (String c (pre ++ "[[" ++ run ++ "]]" ++ post)))
        as [[run' n]|] eqn:Hmatch.
      * right. apply match_link_spec in Hmatch.
        destruct Hmatch as (rest & Hs & Hrun' & ->).
        apply IH.
        change ("[[" ++ run' ++ "]]" ++ rest)%string
          with (String "[" (String "[" (run' ++ String "]" (String "]" rest)))) in Hs.
        injection Hs as -> Hs. rewrite Hs.
        apply no_start_after_match. assumption.
      * apply IH. exact I.
    + cbn [no_start] in Hskip. apply IH. apply Hskip.
Qed.

(** [findall] returns exactly the tokens of the text: an id is found in a
    description if and only if it is a non-empty run of the characters
    [a-f], [0-9] and [-] that stands there between [[[] and []]]. *)
Theorem findall_tokens (run s : string) :
  In run (findall s) <-> holds_token run s /\ link_run run.
Proof.
  unfold findall. split.
  - apply findall_from_sound.
  - intros ((pre & post & ->) & Hrun). apply findall_from_complete; [assumption|exact I].
Qed.

(** ** Layout on a canvas without area *)

Lemma ideal_distance_zero_area (nodes : dict node) (width height : Z) :
  nodes <> [] -> width * height = 0 ->
  ideal_distance nodes width height = Ok 0%float.
Proof.
  intros Hne Harea. unfold ideal_distance. rewrite Harea.
  destruct nodes as [|e nodes]; [contradiction|].
  unfold int_truediv.
  replace (Z.of_nat (length (e :: nodes))) with (Z.pos (Pos.of_succ_nat (length nodes)))
    by (simpl length; lia).
  reflexivity.
Qed.

Lemma num_truediv_by_zero (a : num) (r : num) :
  num_truediv a (PyFloat 0) <> Ok r.
Proof.
  destruct a as [x|f]; unfold num_truediv, to_float.
  - destruct (Z_to_float x); simpl; discriminate.
  - simpl. discriminate.
Qed.

(** With an ideal distance of zero, an edge between two nodes of the map
    cannot be processed. *)
Lemma attract_zero_distance (central : option string) (nodes nodes' : dict node)
  (e : edge) :
  present nodes e = true -> attract 0 central nodes e <> Ok nodes'.
Proof.
  destruct e as [source target]. unfold present. simpl. intros Hpresent H.
  apply andb_true_iff in Hpresent. destruct Hpresent as (Hs & Ht).
  destruct (dict_mem_get _ _ Hs) as (node1 & H1).
  destruct (dict_mem_get _ _ Ht) as (node2 & H2).
  unfold attract in H. rewrite H1, H2 in H.
  apply bind_Ok in H. destruct H as (dx & _ & H).
  apply bind_Ok in H. destruct H as (dy & _ & H).
  apply bind_Ok in H. destruct H as (distance & _ & H).
  apply bind_Ok in H. destruct H as (d2 & _ & H).
  apply bind_Ok in H. destruct H as (force0 & Hdiv & _).
  exact (num_truediv_by_zero _ _ Hdiv).
Qed.

Lemma attraction_pass_zero_distance (central : option string) (edges : list edge) :
  forall nodes nodes' : dict node,
    (exists e, In e edges /\ present nodes e = true) ->
    attraction_pass 0 central edges nodes <> Ok nodes'.
Proof.
  unfold attraction_pass.
  induction edges as [|e edges IH]; intros nodes nodes' (e0 & Hin & Hpresent) H;
    [contradiction|].
  cbn [for_each] in H. apply bind_Ok in H. destruct H as (nodes1 & Hstep & H).
  destruct (present nodes e) eqn:He.
  - exact (attract_zero_distance _ _ _ _ He Hstep).
  - rewrite (attract_absent _ _ _ _ He) in Hstep. injection Hstep as <-.
    destruct Hin as [->|Hin]; [congruence|].
    apply (IH nodes nodes'); [|assumption]. eauto.
Qed.

(** On a canvas of zero width or zero height the ideal distance is zero, and
    a layout of at least one pass with an edge between two nodes of the map
    does not return: dividing by that distance raises. *)
Theorem force_layout_zero_area_raises (nodes : dict node) (edges : list edge)
  (width height : Z) (iterations : nat) (central : option string) :
  width * height = 0 -> (1 <= iterations)%nat ->
  (exists e, In e edges /\ present nodes e = true) ->
  arithmetic_only (force_layout nodes edges width height iterations central) /\
  forall nodes', force_layout nodes edges width height iterations central <> Ok nodes'.
Proof.
  intros Harea Hit Hedge. split; [apply force_layout_arithmetic|].
  intros nodes' Hrun.
  assert (Hne : nodes <> []).
  { intros ->. destruct Hedge as ([s t] & _ & Hp). discriminate Hp. }
  rewrite force_layout_unfold in Hrun by assumption.
  rewrite (ideal_distance_zero_area nodes width height Hne Harea) in Hrun.
  simpl bind in Hrun.
  destruct iterations as [|n]; [lia|]. cbn [iterate] in Hrun.
  apply bind_Ok in Hrun. destruct Hrun as (nodes1 & Hstep & _).
  unfold iteration in Hstep.
  apply bind_Ok in Hstep. destruct Hstep as (n1 & H1 & Hstep).
  apply bind_Ok in Hstep. destruct Hstep as (n2 & H2 & _).
  apply repulsion_pass_keys in H1.
  apply (attraction_pass_zero_distance central edges n1 n2); [|assumption].
  destruct Hedge as (e & Hin & Hp). exists e. split; [assumption|].
  rewrite (present_same_keys nodes n1 e H1). assumption.
Qed.

Lemma force_layout_zero_area_raises_witness :
  force_layout Samples.two_nodes [("a", "b")] 0 6 100 None = Raise ZeroDivisionError /\
  arithmetic_only (force_layout Samples.two_nodes [("a", "b")] 0 6 100 None).
Proof.
  destruct (force_layout_zero_area_raises Samples.two_nodes [("a", "b")] 0 6 100 None)
    as (Harith & Hnot).
  - reflexivity.
  - lia.
  - exists ("a", "b")%string. split; [left; reflexivity|reflexivity].
  - split; [vm_compute; reflexivity|exact Harith].
Defined.

(** ** The task manager: loading the tree *)

Lemma mem_snoc (x t : string) (l : list string) :
  mem x (l ++ [t]) = mem x l || String.eqb x t.
Proof.
  unfold mem. rewrite existsb_app. simpl. rewrite orb_false_r. reflexivity.
Qed.

Lemma mem_false (x : string) (l : list string) : mem x l = false <-> ~ In x l.
Proof.
  rewrite <- mem_In. destruct (mem x l); split; intros; congruence.
Qed.

Lemma suffix_from_snoc_in (p t : string) (l : list string) :
  In p l -> suffix_from p (l ++ [t]) = suffix_from p l ++ [t].
Proof.
  induction l as [|x l IH]; simpl; [contradiction|].
  destruct (String.eqb_spec x p) as [->|Hne]; [reflexivity|].
  intros [Heq|Hin]; [contradiction|]. apply IH. assumption.
Qed.

Lemma suffix_from_snoc_self (t : string) (l : list string) :
  ~ In t l -> suffix_from t (l ++ [t]) = [t].
Proof.
  induction l as [|x l IH]; simpl; intros Hno.
  - rewrite String.eqb_refl. reflexivity.
  - destruct (String.eqb_spec x t) as [->|Hne]; [exfalso; apply Hno; left; reflexivity|].
    apply IH. intros H. apply Hno. right. assumption.
Qed.

Lemma with_parent_same (t : Task) : with_parent t (task_parent_id t) = t.
Proof. destruct t. reflexivity. Qed.

Lemma known_parent_same_keys (d d' : dict task_obj) (o o' : task_obj) :
  keys d' = keys d -> obj_parent_id o' = obj_parent_id o ->
  known_parent d' o' = known_parent d o.
Proof.
  intros Hkeys Hp. unfold known_parent. rewrite Hp.
  destruct (obj_parent_id o) as [p|]; [|reflexivity].
  rewrite (dict_mem_same_keys d d' p Hkeys). reflexivity.
Qed.

(** What [known_parent] returns is the parent id itself, not empty and known. *)
Lemma known_parent_Some (d : dict task_obj) (o : task_obj) (p : string) :
  known_parent d o = Some p <->
  obj_parent_id o = Some p /\ p <> ""%string /\ dict_mem d p = true.
Proof.
  unfold known_parent. destruct (obj_parent_id o) as [q|].
  - destruct (String.eqb_spec q "") as [->|Hne]; simpl.
    + split; [discriminate|]. intros ([= <-] & H & _). contradiction.
    + destruct (dict_mem d q) eqn:Hmem.
      * split; [intros [= <-]; auto|intros ([= <-] & _); reflexivity].
      * split; [discriminate|]. intros ([= <-] & _ & H). congruence.
  - split; [discriminate|]. intros (H & _). discriminate.
Qed.

Lemma loading_start (temp : dict task_obj) : loading temp [] temp.
Proof.
  split; [reflexivity|]. intros id orig Hget. rewrite Hget. f_equal.
  unfold loaded_obj. simpl. rewrite app_nil_r. destruct orig. reflexivity.
Qed.

Lemma links_to_spec (temp : dict task_obj) (p c : string) (oc : task_obj) :
  dict_get temp c = Some oc ->
  links_to temp p c = match known_parent temp oc with
                      | Some q => String.eqb q p
                      | None => false
                      end.
Proof. intros H. unfold links_to. rewrite H. reflexivity. Qed.

Lemma loaded_obj_other (temp : dict task_obj) (done : list string) (t id : string)
  (orig : task_obj) :
  id <> t -> In id (keys temp) -> links_to temp id t = false ->
  loaded_obj temp (done ++ [t]) id orig = loaded_obj temp done id orig.
Proof.
  intros Hne _ Hlink. unfold loaded_obj. rewrite mem_snoc.
  replace (String.eqb id t) with false by (symmetry; apply String.eqb_neq; assumption).
  rewrite orb_false_r. destruct (mem id done) eqn:Hmem.
  - apply mem_In in Hmem. rewrite (suffix_from_snoc_in _ _ _ Hmem), List.filter_app.
    simpl. rewrite Hlink, app_nil_r. reflexivity.
  - rewrite List.filter_app. simpl. rewrite Hlink, app_nil_r. reflexivity.
Qed.

Lemma loading_step (temp : dict task_obj) (done : list string) (st : dict task_obj)
  (t : string) :
  loading temp done st -> In t (keys temp) -> ~ In t done ->
  loading temp (done ++ [t]) (link_task st t).
Proof.
  intros (Hkeys & Hget) Ht Hfresh.
  destruct (dict_mem_get temp t) as (orig_t & Horig_t); [apply dict_mem_In; assumption|].
  pose proof (Hget t orig_t Horig_t) as Hst_t.
  assert (Hmem_t : mem t done = false) by (apply mem_false; assumption).
  unfold link_task. rewrite Hst_t.
  set (task' := set_children (loaded_obj temp done t orig_t) []).
  assert (Htask' : task' = mk_obj (obj_task orig_t) []).
  { unfold task', loaded_obj. rewrite Hmem_t. reflexivity. }
  assert (Hmem_st : dict_mem st t = true) by (eapply dict_get_mem; eassumption).
  pose proof (keys_dict_set st t task' Hmem_st) as Hkeys1.
  assert (Hkp : known_parent (dict_set st t task') task' = known_parent temp orig_t).
  { apply known_parent_same_keys; [congruence|]. rewrite Htask'. reflexivity. }
  rewrite Hkp.
  assert (Hself : forall id orig, dict_get temp id = Some orig -> id = t -> orig = orig_t)
    by (intros id orig H ->; congruence).
  destruct (known_parent temp orig_t) as [p|] eqn:Hknown.
  - pose proof Hknown as Hknown'.
    apply known_parent_Some in Hknown'. destruct Hknown' as (Hp & Hne & Hmem_p).
    destruct (dict_mem_get temp p Hmem_p) as (orig_p & Horig_p).
    assert (Hlink_t : forall id, links_to temp id t = String.eqb p id).
    { intros id. rewrite (links_to_spec temp id t orig_t Horig_t), Hknown. reflexivity. }
    rewrite dict_get_set.
    destruct (String.eqb_spec t p) as [<-|Htp].
    + (* the task is its own parent *)
      split.
      * rewrite keys_dict_set; [congruence|]. rewrite dict_mem_set, String.eqb_refl. reflexivity.
      * intros id orig Hid. rewrite !dict_get_set.
        destruct (String.eqb_spec t id) as [<-|Hne_id].
        -- f_equal. assert (orig = orig_t) as -> by congruence.
           unfold loaded_obj. rewrite mem_snoc, String.eqb_refl, orb_true_r.
           rewrite Hknown, <- Hp. unfold obj_parent_id. rewrite with_parent_same.
           rewrite (suffix_from_snoc_self _ _ Hfresh). simpl.
           rewrite Hlink_t, String.eqb_refl. rewrite Htask'. reflexivity.
        -- rewrite (Hget id orig Hid). f_equal. symmetry.
           apply loaded_obj_other; [congruence| |].
           ++ apply dict_mem_In. eapply dict_get_mem. eassumption.
           ++ rewrite Hlink_t. apply String.eqb_neq. assumption.
    + rewrite (Hget p orig_p Horig_p).
      split.
      * rewrite keys_dict_set; [congruence|].
        rewrite dict_mem_set. rewrite (dict_mem_same_keys temp st p Hkeys), Hmem_p.
        apply orb_true_r.
      * intros id orig Hid. rewrite !dict_get_set.
        destruct (String.eqb_spec p id) as [<-|Hne_p].
        -- f_equal. assert (orig = orig_p) as -> by congruence.
           unfold loaded_obj, set_children. rewrite mem_snoc.
           replace (String.eqb p t) with false
             by (symmetry; apply String.eqb_neq; congruence).
           rewrite orb_false_r. destruct (mem p done) eqn:Hmem_done; simpl.
           ++ apply mem_In in Hmem_done.
              rewrite (suffix_from_snoc_in _ _ _ Hmem_done), List.filter_app. simpl.
              rewrite Hlink_t, String.eqb_refl. reflexivity.
           ++ rewrite List.filter_app. simpl. rewrite Hlink_t, String.eqb_refl.
              rewrite app_assoc. reflexivity.
        -- destruct (String.eqb_spec t id) as [<-|Hne_t].
           ++ f_equal. assert (orig = orig_t) as -> by congruence.
              unfold loaded_obj. rewrite mem_snoc, String.eqb_refl, orb_true_r.
              rewrite Hknown, <- Hp. unfold obj_parent_id. rewrite with_parent_same.
              rewrite (suffix_from_snoc_self _ _ Hfresh). simpl.
              rewrite Hlink_t.
              replace (String.eqb p t) with false
                by (symmetry; apply String.eqb_neq; congruence).
              rewrite Htask'. reflexivity.
           ++ rewrite (Hget id orig Hid). f_equal. symmetry.
              apply loaded_obj_other; [congruence| |].
              ** apply dict_mem_In. eapply dict_get_mem. eassumption.
              ** rewrite Hlink_t. apply String.eqb_neq. assumption.
  - (* no known parent: the link is cleared *)
    assert (Hlink_t : forall id, links_to temp id t = false).
    { intros id. rewrite (links_to_spec temp id t orig_t Horig_t), Hknown. reflexivity. }
    split.
    + rewrite keys_dict_set; [congruence|]. rewrite dict_mem_set, String.eqb_refl. reflexivity.
    + intros id orig Hid. rewrite !dict_get_set.
      destruct (String.eqb_spec t id) as [<-|Hne_t].
      * f_equal. assert (orig = orig_t) as -> by congruence.
        unfold loaded_obj. rewrite mem_snoc, String.eqb_refl, orb_true_r.
        rewrite Hknown. rewrite (suffix_from_snoc_self _ _ Hfresh). simpl.
        rewrite Hlink_t. rewrite Htask'. reflexivity.
      * rewrite (Hget id orig Hid). f_equal. symmetry.
        apply loaded_obj_other; [congruence| |apply Hlink_t].
        apply dict_mem_In. eapply dict_get_mem. eassumption.
Qed.

Lemma loading_fold (temp : dict task_obj) (todo : list string) :
  forall (done : list string) (st : dict task_obj),
    loading temp done st ->
    List.NoDup (done ++ todo) -> (forall t, In t todo -> In t (keys temp)) ->
    loading temp (done ++ todo) (fold_left link_task todo st).
Proof.
  induction todo as [|t todo IH]; intros done st Hst Hnodup Hin; simpl.
  - rewrite app_nil_r. assumption.
  - replace (done ++ t :: todo) with ((done ++ [t]) ++ todo)
      by (rewrite <- app_assoc; reflexivity).
    apply IH.
    + apply loading_step; [assumption|apply Hin; left; reflexivity|].
      apply NoDup_remove_2 in Hnodup. intros H. apply Hnodup.
      apply in_or_app. left. assumption.
    + rewrite <- app_assoc. exact Hnodup.
    + intros t' Ht'. apply Hin. right. assumption.
Qed.

Lemma dict_set_keys {V : Type} (d : dict V) (k : string) (v : V) :
  keys (dict_set d k v) = if dict_mem d k then keys d else keys d ++ [k].
Proof.
  destruct (dict_mem d k) eqn:Hmem.
  - apply keys_dict_set. assumption.
  - rewrite (dict_set_fresh _ _ _ Hmem). unfold keys. rewrite map_app. reflexivity.
Qed.

Lemma temp_tasks_of_NoDup (objects : list task_obj) : List.NoDup (keys (temp_tasks_of objects)).
Proof.
  unfold temp_tasks_of.
  assert (H : forall (d : dict task_obj), List.NoDup (keys d) ->
                List.NoDup (keys (fold_left (fun d o => dict_set d (obj_id o) o) objects d))).
  { induction objects as [|o objects IH]; intros d Hd; simpl; [assumption|].
    apply IH. rewrite dict_set_keys. destruct (dict_mem d (obj_id o)) eqn:Hmem; [assumption|].
    apply List.NoDup_app; [assumption|repeat constructor; intros []|].
    intros x Hx [<-|[]]. apply dict_mem_In in Hx. congruence. }
  apply H. constructor.
Qed.

(** The map [load_tasks] leaves, entry by entry. *)
Lemma load_tasks_loaded (objects : list task_obj) :
  loading (temp_tasks_of objects) (keys (temp_tasks_of objects)) (load_tasks objects).
Proof.
  unfold load_tasks. cbv zeta.
  apply (loading_fold (temp_tasks_of objects) (keys (temp_tasks_of objects)) []
           (temp_tasks_of objects)).
  - apply loading_start.
  - apply temp_tasks_of_NoDup.
  - auto.
Qed.

Lemma load_tasks_get (objects : list task_obj) (id : string) (o : task_obj) :
  dict_get (load_tasks objects) id = Some o ->
  exists orig,
    dict_get (temp_tasks_of objects) id = Some orig /\
    o = mk_obj (with_parent (obj_task orig) (known_parent (temp_tasks_of objects) orig))
          (List.filter (links_to (temp_tasks_of objects) id)
             (suffix_from id (keys (temp_tasks_of objects)))).
Proof.
  intros Hget. destruct (load_tasks_loaded objects) as (Hkeys & Hall).
  assert (Hmem : dict_mem (temp_tasks_of objects) id = true).
  { rewrite <- (dict_mem_same_keys _ _ id Hkeys). eapply dict_get_mem. eassumption. }
  destruct (dict_mem_get _ _ Hmem) as (orig & Horig).
  exists orig. split; [assumption|].
  rewrite (Hall id orig Horig) in Hget. injection Hget as <-.
  unfold loaded_obj.
  replace (mem id (keys (temp_tasks_of objects))) with true; [reflexivity|].
  symmetry. apply mem_In. apply dict_mem_In. assumption.
Qed.

(** [load_tasks] keeps every stored task, in order, with its title and
    description; it keeps a [parent_id] that names a stored task and is not
    empty, and replaces any other by [None]: after loading, every parent
    link leads to a task of the map. *)
Theorem load_tasks_parents (objects : list task_obj) :
  keys (load_tasks objects) = keys (temp_tasks_of objects) /\
  forall id o,
    dict_get (load_tasks objects) id = Some o ->
    exists orig,
      dict_get (temp_tasks_of objects) id = Some orig /\
      obj_id o = obj_id orig /\
      task_title (obj_task o) = task_title (obj_task orig) /\
      task_description (obj_task o) = task_description (obj_task orig) /\
      match obj_parent_id o with
      | Some p =>
          obj_parent_id orig = Some p /\ p <> ""%string /\
          dict_mem (load_tasks objects) p = true
      | None =>
          obj_parent_id orig = None \/ obj_parent_id orig = Some ""%string \/
          exists p, obj_parent_id orig = Some p /\
                    dict_mem (temp_tasks_of objects) p = false
      end.
Proof.
  destruct (load_tasks_loaded objects) as (Hkeys & _).
  split; [assumption|]. intros id o Hget.
  destruct (load_tasks_get objects id o Hget) as (orig & Horig & ->).
  exists orig. split; [assumption|]. repeat (split; [reflexivity|]).
  unfold obj_parent_id at 1. simpl.
  destruct (known_parent (temp_tasks_of objects) orig) as [p|] eqn:Hknown.
  - apply known_parent_Some in Hknown. destruct Hknown as (Hp & Hne & Hmem).
    split; [assumption|]. split; [assumption|].
    rewrite (dict_mem_same_keys (temp_tasks_of objects) (load_tasks objects) p Hkeys).
    assumption.
  - unfold known_parent in Hknown. destruct (obj_parent_id orig) as [p|]; [|auto].
    destruct (String.eqb p "") eqn:Hempty; simpl in Hknown.
    + apply String.eqb_eq in Hempty. right. left. congruence.
    + destruct (dict_mem (temp_tasks_of objects) p) eqn:Hmem; [discriminate|].
      right. right. exists p. auto.
Qed.

Lemma links_to_child_of (objects : list task_obj) (p c : string) :
  links_to (temp_tasks_of objects) p c = child_of (load_tasks objects) p c.
Proof.
  destruct (load_tasks_loaded objects) as (Hkeys & Hall).
  unfold links_to, child_of.
  destruct (dict_get (temp_tasks_of objects) c) as [oc|] eqn:Hc.
  - rewrite (Hall c oc Hc). unfold loaded_obj.
    replace (mem c (keys (temp_tasks_of objects))) with true
      by (symmetry; apply mem_In, dict_mem_In; eapply dict_get_mem; eassumption).
    unfold obj_parent_id at 1. simpl. reflexivity.
  - rewrite dict_get_none; [reflexivity|].
    rewrite (dict_mem_same_keys (temp_tasks_of objects) (load_tasks objects) c Hkeys).
    unfold dict_mem. rewrite Hc. reflexivity.
Qed.

(** After [load_tasks], the children listed under a task are the tasks of
    the map that carry its id as [parent_id] and are stored at its place or
    after it, in storage order: a sub-task stored before its parent is
    missing from the parent's list. *)
Theorem load_tasks_children (objects : list task_obj) (p : string) (o_p : task_obj) :
  dict_get (load_tasks objects) p = Some o_p ->
  obj_children o_p =
  List.filter (child_of (load_tasks objects) p)
    (suffix_from p (keys (load_tasks objects))).
Proof.
  intros Hget. destruct (load_tasks_loaded objects) as (Hkeys & _).
  destruct (load_tasks_get objects p o_p Hget) as (orig_p & _ & ->).
  simpl obj_children. rewrite Hkeys.
  apply List.filter_ext. intros c. apply links_to_child_of.
Qed.

Lemma load_tasks_children_witness :
  obj_children (mk_obj Samples.parent_task ["b"%string]) =
  List.filter
    (child_of (load_tasks [mk_obj Samples.parent_task []; mk_obj Samples.child_task []])
       "a")
    (suffix_from "a"
       (keys (load_tasks [mk_obj Samples.parent_task []; mk_obj Samples.child_task []]))).
Proof.
  apply (load_tasks_children
           [mk_obj Samples.parent_task []; mk_obj Samples.child_task []] "a"
           (mk_obj Samples.parent_task ["b"%string])).
  reflexivity.
Defined.

(** A sub-task stored before its parent keeps its [parent_id] and is in
    nobody's list of children. *)
Example load_tasks_child_first :
  load_tasks [mk_obj Samples.child_task []; mk_obj Samples.parent_task []]
  = [("b"%string, mk_obj Samples.child_task []);
     ("a"%string, mk_obj Samples.parent_task [])].
Proof. reflexivity. Qed.

(** Stored after its parent, it is listed. *)
Example load_tasks_parent_first :
  load_tasks [mk_obj Samples.parent_task []; mk_obj Samples.child_task []]
  = [("a"%string, mk_obj Samples.parent_task ["b"%string]);
     ("b"%string, mk_obj Samples.child_task [])].
Proof. reflexivity. Qed.

(** A task stored as its own parent is loaded as its own child. *)
Example load_tasks_self_parent :
  load_tasks [mk_obj Samples.self_parent_task []]
  = [("a"%string, mk_obj Samples.self_parent_task ["a"%string])].
Proof. reflexivity. Qed.

(** ** Adding and deleting tasks *)

Lemma dict_get_del_other {V : Type} (d : dict V) (k k' : string) :
  k <> k' -> dict_get (dict_del d k) k' = dict_get d k'.
Proof.
  intros Hne. induction d as [|[k0 v0] d IH]; simpl; [reflexivity|].
  destruct (String.eqb_spec k0 k) as [->|Hk0]; simpl.
  - destruct (String.eqb_spec k k') as [|_]; [contradiction|reflexivity].
  - rewrite IH. reflexivity.
Qed.

Lemma dict_del_app_fresh {V : Type} (d : dict V) (k : string) (v : V) :
  dict_mem d k = false -> dict_del (d ++ [(k, v)]) k = d.
Proof.
  unfold dict_mem. induction d as [|[k0 v0] d IH]; simpl.
  - rewrite String.eqb_refl. reflexivity.
  - destruct (String.eqb k0 k); [discriminate|]. intros H. f_equal. apply IH. assumption.
Qed.

Lemma dict_set_same {V : Type} (d : dict V) (k : string) (v : V) :
  dict_get d k = Some v -> dict_set d k v = d.
Proof.
  induction d as [|[k0 v0] d IH]; simpl; [discriminate|].
  destruct (String.eqb_spec k0 k) as [->|Hne].
  - intros [= ->]. reflexivity.
  - intros H. f_equal. apply IH. assumption.
Qed.

Lemma dict_set_twice {V : Type} (d : dict V) (k : string) (v v' : V) :
  dict_set (dict_set d k v) k v' = dict_set d k v'.
Proof.
  induction d as [|[k0 v0] d IH]; simpl.
  - rewrite String.eqb_refl. reflexivity.
  - destruct (String.eqb k0 k) eqn:Hk; simpl; rewrite Hk; [reflexivity|].
    f_equal. apply IH.
Qed.

Lemma dict_set_app_mem {V : Type} (d d' : dict V) (k : string) (v : V) :
  dict_mem d k = true -> dict_set (d ++ d') k v = dict_set d k v ++ d'.
Proof.
  unfold dict_mem. induction d as [|[k0 v0] d IH]; simpl; [discriminate|].
  destruct (String.eqb k0 k); [reflexivity|]. intros H. simpl. f_equal. apply IH. assumption.
Qed.

Lemma filter_out_last (x : string) (l : list string) :
  ~ In x l ->
  List.filter (fun c => negb (String.eqb c x)) (l ++ [x]) = l.
Proof.
  intros Hno. rewrite List.filter_app. simpl. rewrite String.eqb_refl. simpl.
  rewrite app_nil_r. induction l as [|a l IH]; simpl; [reflexivity|].
  destruct (String.eqb_spec a x) as [->|Hne]; simpl.
  - exfalso. apply Hno. left. reflexivity.
  - f_equal. apply IH. intros H. apply Hno. right. assumption.
Qed.

(** Deleting the task that was just added undoes the addition: when the new
    id is not yet a key, is not the task's own parent and is not yet listed
    among the children of that parent, [delete_task] after [add_task] gives
    the map back as it was. *)
Theorem add_then_delete (tasks : dict task_obj) (new_id title description : string)
  (parent_id : option string) (fuel : nat) :
  dict_mem tasks new_id = false ->
  parent_id <> Some new_id ->
  (forall p parent,
     parent_id = Some p -> dict_get tasks p = Some parent ->
     ~ In new_id (obj_children parent)) ->
  delete_task (S fuel) (fst (add_task tasks new_id title description parent_id)) new_id
  = Ok tasks.
Proof.
  intros Hfresh Hself Hlisted. unfold add_task. cbv zeta.
  set (new_task := mk_obj (mk_task new_id title description parent_id) []).
  rewrite (dict_set_fresh tasks new_id new_task Hfresh).
  set (tasks1 := tasks ++ [(new_id, new_task)]).
  assert (Hget_new : dict_get tasks1 new_id = Some new_task).
  { unfold tasks1. rewrite <- (dict_set_fresh tasks new_id new_task Hfresh).
    rewrite dict_get_set, String.eqb_refl. reflexivity. }
  destruct (known_parent tasks1 new_task) as [p|] eqn:Hknown.
  - apply known_parent_Some in Hknown. destruct Hknown as (Hp & Hne & Hmem).
    change (obj_parent_id new_task) with parent_id in Hp.
    assert (Hpn : new_id <> p) by (intros ->; apply Hself; assumption).
    assert (Hmem_p : dict_mem tasks p = true).
    { unfold tasks1 in Hmem. rewrite <- (dict_set_fresh tasks new_id new_task Hfresh) in Hmem.
      rewrite dict_mem_set in Hmem. apply orb_true_iff in Hmem.
      destruct Hmem as [Heq|H]; [apply String.eqb_eq in Heq; contradiction|assumption]. }
    destruct (dict_mem_get tasks p Hmem_p) as (parent & Hparent).
    assert (Hget_p : dict_get tasks1 p = Some parent).
    { unfold tasks1. rewrite <- (dict_set_fresh tasks new_id new_task Hfresh).
      rewrite dict_get_set.
      destruct (String.eqb_spec new_id p) as [|_]; [contradiction|assumption]. }
    rewrite Hget_p. simpl fst.
    set (parent' := set_children parent (obj_children parent ++ [new_id])).
    cbn [delete_task]. unfold get_task. rewrite dict_get_set.
    destruct (String.eqb_spec p new_id) as [Heq|_]; [symmetry in Heq; contradiction|].
    rewrite Hget_new. cbn [obj_children new_task for_each bind].
    assert (Hknown2 : known_parent (dict_set tasks1 p parent') new_task = Some p).
    { apply known_parent_Some. split; [assumption|]. split; [assumption|].
      rewrite dict_mem_set, String.eqb_refl. reflexivity. }
    rewrite Hknown2, dict_get_set, String.eqb_refl, dict_set_twice.
    unfold parent', set_children. simpl obj_children. simpl obj_task.
    rewrite (filter_out_last new_id (obj_children parent) (Hlisted p parent Hp Hparent)).
    replace (mk_obj (obj_task parent) (obj_children parent)) with parent
      by (destruct parent; reflexivity).
    rewrite (dict_set_same tasks1 p parent Hget_p). unfold tasks1.
    rewrite (dict_del_app_fresh tasks new_id new_task Hfresh). reflexivity.
  - simpl fst. cbn [delete_task]. unfold get_task. rewrite Hget_new.
    cbn [obj_children new_task for_each bind]. rewrite Hknown. unfold tasks1.
    rewrite (dict_del_app_fresh tasks new_id new_task Hfresh). reflexivity.
Qed.

Lemma add_then_delete_witness :
  delete_task 1
    (fst (add_task [("a"%string, mk_obj Samples.parent_task [])] "b" "Beta" ""
            (Some "a"%string))) "b"
  = Ok [("a"%string, mk_obj Samples.parent_task [])].
Proof.
  apply (add_then_delete [("a"%string, mk_obj Samples.parent_task [])] "b" "Beta" ""
           (Some "a"%string) 0).
  - reflexivity.
  - discriminate.
  - intros p parent [= <-] [= <-]. simpl. intros [].
Defined.

Lemma dict_del_keys_incl {V : Type} (d : dict V) (k : string) :
  incl (keys (dict_del d k)) (keys d).
Proof.
  induction d as [|[k0 v0] d IH]; simpl; [apply incl_refl|].
  destruct (String.eqb k0 k); simpl.
  - apply incl_tl, incl_refl.
  - intros x [<-|Hx]; [left; reflexivity|right; apply IH; assumption].
Qed.

Lemma dict_del_keys_NoDup {V : Type} (d : dict V) (k : string) :
  List.NoDup (keys d) -> List.NoDup (keys (dict_del d k)) /\ ~ In k (keys (dict_del d k)).
Proof.
  induction d as [|[k0 v0] d IH]; simpl; intros Hd.
  - split; [constructor|intros []].
  - apply List.NoDup_cons_iff in Hd. destruct Hd as (Hk0 & Hd).
    destruct (String.eqb_spec k0 k) as [->|Hne]; simpl.
    + split; assumption.
    + destruct (IH Hd) as (Hnd & Hno). split.
      * constructor; [|assumption]. intros H. apply Hk0.
        apply (dict_del_keys_incl d k). assumption.
      * intros [Heq|H]; [contradiction|apply Hno; assumption].
Qed.

(** The step of [delete_task] that takes the task out of its parent's list
    leaves the keys as they are. *)
Lemma unlist_keys (tasks : dict task_obj) (task_to_delete : task_obj) (task_id : string) :
  keys
    (match known_parent tasks task_to_delete with
     | Some p =>
         match dict_get tasks p with
         | Some parent =>
             dict_set tasks p
               (set_children parent
                  (List.filter (fun c => negb (String.eqb c task_id))
                     (obj_children parent)))
         | None => tasks
         end
     | None => tasks
     end) = keys tasks.
Proof.
  destruct (known_parent tasks task_to_delete) as [p|]; [|reflexivity].
  destruct (dict_get tasks p) as [parent|] eqn:Hp; [|reflexivity].
  apply keys_dict_set. eapply dict_get_mem. eassumption.
Qed.

Lemma delete_task_keys (fuel : nat) :
  forall (tasks tasks' : dict task_obj) (task_id : string),
    List.NoDup (keys tasks) ->
    delete_task fuel tasks task_id = Ok tasks' ->
    List.NoDup (keys tasks') /\ incl (keys tasks') (keys tasks) /\
    ~ In task_id (keys tasks').
Proof.
  induction fuel as [|fuel IH]; intros tasks tasks' task_id Hnodup Hrun;
    cbn [delete_task] in Hrun; [discriminate|].
  unfold get_task in Hrun.
  destruct (dict_get tasks task_id) as [task_to_delete|] eqn:Hget.
  - apply bind_Ok in Hrun. destruct Hrun as (tasks1 & Hloop & Hrun).
    injection Hrun as <-.
    assert (Hinv : List.NoDup (keys tasks1) /\ incl (keys tasks1) (keys tasks)).
    { revert Hloop Hnodup. generalize (obj_children task_to_delete). clear Hget.
      intros l. revert tasks.
      induction l as [|c l IHl]; intros tasks Hloop Hnodup; cbn [for_each] in Hloop.
      - injection Hloop as <-. split; [assumption|apply incl_refl].
      - apply bind_Ok in Hloop. destruct Hloop as (tasks2 & Hc & Hloop).
        destruct (IH _ _ _ Hnodup Hc) as (Hnodup2 & Hincl2 & _).
        destruct (IHl _ Hloop Hnodup2) as (Hnodup1 & Hincl1).
        split; [assumption|]. eapply incl_tran; eassumption. }
    destruct Hinv as (Hnodup1 & Hincl1).
    pose proof (unlist_keys tasks1 task_to_delete task_id) as Hkeys.
    set (tasks2 := match known_parent tasks1 task_to_delete with
                   | Some p => _ | None => _ end) in *.
    assert (Hnodup2 : List.NoDup (keys tasks2)) by (rewrite Hkeys; assumption).
    destruct (dict_del_keys_NoDup tasks2 task_id Hnodup2) as (Hnd & Hno).
    split; [assumption|]. split; [|assumption].
    eapply incl_tran; [apply dict_del_keys_incl|]. rewrite Hkeys. assumption.
  - injection Hrun as <-. split; [assumption|]. split; [apply incl_refl|].
    intros Hin. apply dict_mem_In in Hin. unfold dict_mem in Hin.
    rewrite Hget in Hin. discriminate.
Qed.

(** When [delete_task] returns, the task is gone from the map and no task
    has come in: the keys left are keys the map had, the deleted id not
    among them. *)
Theorem delete_task_removes (fuel : nat) (tasks tasks' : dict task_obj)
  (task_id : string) :
  List.NoDup (keys tasks) ->
  delete_task fuel tasks task_id = Ok tasks' ->
  get_task tasks' task_id = None /\
  List.NoDup (keys tasks') /\
  forall k, In k (keys tasks') -> In k (keys tasks) /\ k <> task_id.
Proof.
  intros Hnodup Hrun.
  destruct (delete_task_keys fuel tasks tasks' task_id Hnodup Hrun)
    as (Hnd & Hincl & Hno).
  split; [|split; [assumption|]].
  - unfold get_task. apply dict_get_none.
    destruct (dict_mem tasks' task_id) eqn:Hmem; [|reflexivity].
    apply dict_mem_In in Hmem. contradiction.
  - intros k Hk. split; [apply Hincl; assumption|]. intros ->. contradiction.
Qed.

Lemma delete_task_removes_witness :
  get_task [("b"%string, mk_obj Samples.child_task [])] "a" = None /\
  List.NoDup (keys [("b"%string, mk_obj Samples.child_task [])]) /\
  List.Forall
    (fun k => In k (keys [("a"%string, mk_obj Samples.parent_task []);
                          ("b"%string, mk_obj Samples.child_task [])]) /\
              k <> "a"%string)
    (keys [("b"%string, mk_obj Samples.child_task [])]).
Proof.
  assert (Hnodup : List.NoDup (keys [("a"%string, mk_obj Samples.parent_task []);
                                     ("b"%string, mk_obj Samples.child_task [])])).
  { repeat constructor; simpl; intuition discriminate. }
  destruct (delete_task_removes 1
              [("a"%string, mk_obj Samples.parent_task []);
               ("b"%string, mk_obj Samples.child_task [])]
              [("b"%string, mk_obj Samples.child_task [])] "a" Hnodup eq_refl)
    as (Hget & Hnd & Hall).
  split; [assumption|]. split; [assumption|].
  apply List.Forall_forall. assumption.
Defined.

(** Deleting goes on while the lists of children lead back to a task that is
    its own child. *)
Lemma self_child_survives (id : string) (fuel : nat) :
  forall (tasks : dict task_obj) (x : string),
    self_child tasks id ->
    delete_task fuel tasks x = Diverge \/
    (x <> id /\ exists tasks', delete_task fuel tasks x = Ok tasks' /\ self_child tasks' id).
Proof.
  induction fuel as [|fuel IH]; intros tasks x Hinv; cbn [delete_task]; [left; reflexivity|].
  unfold get_task.
  destruct (dict_get tasks x) as [task_to_delete|] eqn:Hget.
  - assert (Hloop : forall l tasks0,
               self_child tasks0 id ->
               for_each (delete_task fuel) l tasks0 = Diverge \/
               (~ In id l /\ exists tasks1,
                   for_each (delete_task fuel) l tasks0 = Ok tasks1 /\
                   self_child tasks1 id)).
    { induction l as [|c l IHl]; intros tasks0 H0; cbn [for_each].
      - right. split; [intros []|]. exists tasks0. split; [reflexivity|assumption].
      - destruct (IH tasks0 c H0) as [->|(Hc & tasks1 & -> & H1)]; [left; reflexivity|].
        cbn [bind]. destruct (IHl tasks1 H1) as [->|(Hl & tasks2 & -> & H2)];
          [left; reflexivity|].
        right. split; [intros [Heq|Hin]; [apply Hc|apply Hl]; congruence|].
        exists tasks2. split; [reflexivity|assumption]. }
    destruct (Hloop (obj_children task_to_delete) tasks Hinv)
      as [->|(Hno & tasks1 & -> & H1)]; [left; reflexivity|].
    cbn [bind]. right.
    assert (Hx : x <> id).
    { intros ->. destruct Hinv as (o & Ho & Hin). rewrite Ho in Hget.
      injection Hget as <-. contradiction. }
    split; [assumption|]. eexists. split; [reflexivity|].
    destruct H1 as (o & Ho & Hin). unfold self_child.
    rewrite (dict_get_del_other _ x id Hx).
    destruct (known_parent tasks1 task_to_delete) as [p|]; [|exists o; auto].
    destruct (dict_get tasks1 p) as [parent|] eqn:Hp; [|exists o; auto].
    rewrite dict_get_set. destruct (String.eqb_spec p id) as [->|Hne].
    + eexists. split; [reflexivity|]. simpl.
      rewrite Ho in Hp. injection Hp as <-.
      apply filter_In. split; [assumption|].
      apply negb_true_iff, String.eqb_neq. congruence.
    + exists o. auto.
  - right. split.
    + intros ->. destruct Hinv as (o & Ho & _). congruence.
    + exists tasks. split; [reflexivity|assumption].
Qed.

(** A task that is listed among its own children cannot be deleted: the
    nested calls of [delete_task] never come to an end, however deep they
    are allowed to go. *)
Theorem delete_task_self_child (tasks : dict task_obj) (id : string) (fuel : nat) :
  self_child tasks id -> delete_task fuel tasks id = Diverge.
Proof.
  intros Hinv.
  destruct (self_child_survives id fuel tasks id Hinv) as [H|(Hne & _)];
    [assumption|contradiction].
Qed.

Lemma delete_task_self_child_witness :
  delete_task 1000 (load_tasks [mk_obj Samples.self_parent_task []]) "a" = Diverge.
Proof.
  apply delete_task_self_child.
  exists (mk_obj Samples.self_parent_task ["a"%string]). split; [reflexivity|].
  left. reflexivity.
Defined.

(** *** Deleting returns *)

Lemma suffix_from_head (p : string) (l : list string) :
  suffix_from p l = [] \/ exists rest, suffix_from p l = p :: rest.
Proof.
  induction l as [|x l IH]; simpl; [left; reflexivity|].
  destruct (String.eqb_spec x p) as [->|_]; [right; eauto|assumption].
Qed.

Lemma suffix_from_absent (p : string) (l : list string) :
  ~ In p l -> suffix_from p l = [].
Proof.
  induction l as [|x l IH]; simpl; [reflexivity|]. intros Hno.
  destruct (String.eqb_spec x p) as [->|_]; [exfalso; apply Hno; left; reflexivity|].
  apply IH. intros H. apply Hno. right. assumption.
Qed.

Lemma suffix_from_present (p : string) (l : list string) :
  In p l -> exists rest, suffix_from p l = p :: rest.
Proof.
  induction l as [|x l IH]; simpl; [contradiction|]. intros Hin.
  destruct (String.eqb_spec x p) as [->|Hne]; [eauto|].
  destruct Hin as [Heq|Hin]; [contradiction|]. apply IH. assumption.
Qed.

Lemma suffix_from_incl (p : string) (l : list string) : incl (suffix_from p l) l.
Proof.
  induction l as [|x l IH]; simpl; [apply incl_refl|].
  destruct (String.eqb x p); [apply incl_refl|]. apply incl_tl. assumption.
Qed.

Lemma suffix_from_length (p : string) (l : list string) :
  (length (suffix_from p l) <= length l)%nat.
Proof.
  induction l as [|x l IH]; simpl; [lia|].
  destruct (String.eqb x p); simpl; lia.
Qed.

Lemma suffix_from_filter (f : string -> bool) (p : string) (l : list string) :
  suffix_from p (List.filter f l) =
  if f p then List.filter f (suffix_from p l) else [].
Proof.
  destruct (f p) eqn:Hf.
  - induction l as [|x l IH]; simpl; [reflexivity|].
    destruct (String.eqb_spec x p) as [->|Hne].
    + simpl. rewrite ?Hf. simpl. rewrite ?Hf, String.eqb_refl. reflexivity.
    + destruct (f x); simpl; [|assumption].
      destruct (String.eqb_spec x p) as [|_]; [contradiction|assumption].
  - apply suffix_from_absent. intros H. apply filter_In in H.
    destruct H as (_ & H). congruence.
Qed.

Lemma filter_length_le (f : string -> bool) (l : list string) :
  (length (List.filter f l) <= length l)%nat.
Proof. induction l as [|x l IH]; simpl; [lia|]. destruct (f x); simpl; lia. Qed.

(** A child stored after its parent has fewer tasks from its place on. *)
Lemma suffix_from_after (p c : string) (l : list string) :
  List.NoDup l -> In c (tl (suffix_from p l)) ->
  (length (suffix_from c l) < length (suffix_from p l))%nat.
Proof.
  induction l as [|x l IH]; simpl; [contradiction|]. intros Hnodup Hin.
  apply List.NoDup_cons_iff in Hnodup. destruct Hnodup as (Hx & Hnodup).
  destruct (String.eqb_spec x p) as [->|Hne].
  - simpl in Hin. destruct (String.eqb_spec p c) as [->|_]; [contradiction|].
    pose proof (suffix_from_length c l). simpl. lia.
  - assert (Hc : In c l).
    { apply (suffix_from_incl p l). destruct (suffix_from p l); [contradiction|].
      right. assumption. }
    destruct (String.eqb_spec x c) as [->|_]; [contradiction|].
    apply IH; assumption.
Qed.

Lemma dict_del_keys {V : Type} (d : dict V) (k : string) :
  List.NoDup (keys d) ->
  keys (dict_del d k) = List.filter (fun x => negb (String.eqb x k)) (keys d).
Proof.
  induction d as [|[k0 v0] d IH]; simpl; [reflexivity|]. intros Hnodup.
  apply List.NoDup_cons_iff in Hnodup. destruct Hnodup as (Hk0 & Hnodup).
  destruct (String.eqb_spec k0 k) as [->|Hne]; simpl.
  - symmetry. apply List.forallb_filter_id. apply forallb_forall. intros x Hx.
    apply negb_true_iff, String.eqb_neq. intros ->. contradiction.
  - f_equal. apply IH. assumption.
Qed.

Lemma filter_filter (f g : string -> bool) (l : list string) :
  List.filter f (List.filter g l) = List.filter (fun x => g x && f x) l.
Proof.
  induction l as [|x l IH]; simpl; [reflexivity|].
  destruct (g x); simpl; [destruct (f x); simpl; rewrite IH; reflexivity|assumption].
Qed.

(** Fewer children under the same keys keep children after their parents. *)
Lemma forward_unlist (tasks : dict task_obj) (p : string) (parent : task_obj)
  (f : string -> bool) :
  forward tasks -> dict_get tasks p = Some parent ->
  forward (dict_set tasks p (set_children parent (List.filter f (obj_children parent)))).
Proof.
  intros Hfw Hp q o c Hq Hc Hkey.
  rewrite keys_dict_set in * by (eapply dict_get_mem; eassumption).
  rewrite dict_get_set in Hq. destruct (String.eqb_spec p q) as [<-|Hne].
  - injection Hq as <-. simpl in Hc. apply filter_In in Hc.
    apply (Hfw p parent c Hp (proj1 Hc) Hkey).
  - apply (Hfw q o c Hq Hc Hkey).
Qed.

Lemma forward_del (tasks : dict task_obj) (x : string) :
  List.NoDup (keys tasks) -> forward tasks -> forward (dict_del tasks x).
Proof.
  intros Hnodup Hfw p o c Hp Hc Hkey.
  destruct (dict_del_keys_NoDup tasks x Hnodup) as (_ & Hx).
  assert (Hpx : x <> p).
  { intros ->. apply Hx. apply dict_mem_In. eapply dict_get_mem. eassumption. }
  rewrite (dict_get_del_other tasks x p Hpx) in Hp.
  rewrite (dict_del_keys tasks x Hnodup) in *.
  apply filter_In in Hkey. destruct Hkey as (Hkey & Hcx).
  pose proof (Hfw p o c Hp Hc Hkey) as Hafter.
  rewrite suffix_from_filter.
  replace (negb (String.eqb p x)) with true
    by (symmetry; apply negb_true_iff, String.eqb_neq; congruence).
  destruct (suffix_from_present p (keys tasks)) as (rest & Hrest).
  { apply dict_mem_In. eapply dict_get_mem. eassumption. }
  rewrite Hrest in *. simpl in Hafter. simpl.
  replace (negb (String.eqb p x)) with true
    by (symmetry; apply negb_true_iff, String.eqb_neq; congruence).
  simpl. apply filter_In. split; assumption.
Qed.

Lemma delete_task_total (n : nat) :
  forall (tasks : dict task_obj) (task_id : string),
    List.NoDup (keys tasks) -> forward tasks ->
    (length (suffix_from task_id (keys tasks)) <= n)%nat ->
    exists tasks' f,
      delete_task (S n) tasks task_id = Ok tasks' /\
      List.NoDup (keys tasks') /\ forward tasks' /\
      keys tasks' = List.filter f (keys tasks).
Proof.
  induction n as [|m IH]; intros tasks task_id Hnodup Hfw Hlen;
    [|remember (S m) as k eqn:Hk]; cbn [delete_task]; [|subst k];
    unfold get_task;
    destruct (dict_get tasks task_id) as [task_to_delete|] eqn:Hget.
  - exfalso. destruct (suffix_from_present task_id (keys tasks)) as (rest & Hrest).
    { apply dict_mem_In. eapply dict_get_mem. eassumption. }
    rewrite Hrest in Hlen. simpl in Hlen. lia.
  - exists tasks, (fun _ => true). split; [reflexivity|]. split; [assumption|].
    split; [assumption|]. symmetry. apply List.forallb_filter_id.
    apply forallb_forall. reflexivity.
  - assert (Hloop : forall l,
               (forall c, In c l ->
                          (length (suffix_from c (keys tasks)) <= m)%nat) ->
               forall tasks0 f0,
                 List.NoDup (keys tasks0) -> forward tasks0 ->
                 keys tasks0 = List.filter f0 (keys tasks) ->
                 exists tasks1 f1,
                   for_each (delete_task (S m)) l tasks0 = Ok tasks1 /\
                   List.NoDup (keys tasks1) /\ forward tasks1 /\
                   keys tasks1 = List.filter f1 (keys tasks)).
    { induction l as [|c l IHl]; intros Hl tasks0 f0 Hnodup0 Hfw0 Hkeys0;
        cbn [for_each].
      - exists tasks0, f0. auto.
      - destruct (IH tasks0 c Hnodup0 Hfw0) as (tasks1 & f1 & Hrun & Hnodup1 & Hfw1 & Hkeys1).
        { rewrite Hkeys0, suffix_from_filter. destruct (f0 c); [|simpl; lia].
          etransitivity; [apply filter_length_le|]. apply Hl. left. reflexivity. }
        rewrite Hrun. cbn [bind].
        apply (IHl (fun c' Hc' => Hl c' (or_intror Hc')) tasks1
                 (fun x => f0 x && f1 x)); [assumption|assumption|].
        rewrite Hkeys1, Hkeys0. apply filter_filter. }
    destruct (Hloop (obj_children task_to_delete)) with (tasks0 := tasks)
      (f0 := fun _ : string => true)
      as (tasks1 & f1 & Hrun & Hnodup1 & Hfw1 & Hkeys1);
      [|assumption|assumption| |].
    { intros c Hc. destruct (in_dec string_dec c (keys tasks)) as [Hkey|Hkey].
      - pose proof (suffix_from_after task_id c (keys tasks) Hnodup
                      (Hfw task_id task_to_delete c Hget Hc Hkey)). lia.
      - rewrite (suffix_from_absent c (keys tasks) Hkey). simpl. lia. }
    { symmetry. apply List.forallb_filter_id. apply forallb_forall. reflexivity. }
    rewrite Hrun. cbn [bind].
    pose proof (unlist_keys tasks1 task_to_delete task_id) as Hkeys2.
    assert (Hfw2 : forward
                     (match known_parent tasks1 task_to_delete with
                      | Some p =>
                          match dict_get tasks1 p with
                          | Some parent =>
                              dict_set tasks1 p
                                (set_children parent
                                   (List.filter (fun c => negb (String.eqb c task_id))
                                      (obj_children parent)))
                          | None => tasks1
                          end
                      | None => tasks1
                      end)).
    { destruct (known_parent tasks1 task_to_delete) as [p|]; [|assumption].
      destruct (dict_get tasks1 p) as [parent|] eqn:Hp; [|assumption].
      apply forward_unlist; assumption. }
    set (tasks2 := match known_parent tasks1 task_to_delete with
                   | Some p => _ | None => _ end) in *.
    assert (Hnodup2 : List.NoDup (keys tasks2)) by (rewrite Hkeys2; assumption).
    eexists. exists (fun x => f1 x && negb (String.eqb x task_id)).
    split; [reflexivity|]. split; [apply dict_del_keys_NoDup; assumption|].
    split; [apply forward_del; assumption|].
    rewrite (dict_del_keys tasks2 task_id Hnodup2), Hkeys2, Hkeys1.
    apply filter_filter.
  - exists tasks, (fun _ => true). split; [reflexivity|]. split; [assumption|].
    split; [assumption|]. symmetry. apply List.forallb_filter_id.
    apply forallb_forall. reflexivity.
Qed.

(** On a map with distinct keys in which every listed child is stored after
    its parent, [delete_task] returns: as many nested calls as there are
    tasks, and one more, are enough; the task is then gone and the map is
    again of that kind. *)
Theorem delete_task_returns (tasks : dict task_obj) (task_id : string) (fuel : nat) :
  List.NoDup (keys tasks) -> forward tasks -> (length (keys tasks) < fuel)%nat ->
  exists tasks',
    delete_task fuel tasks task_id = Ok tasks' /\
    get_task tasks' task_id = None /\
    List.NoDup (keys tasks') /\ forward tasks'.
Proof.
  intros Hnodup Hfw Hfuel. destruct fuel as [|n]; [lia|].
  destruct (delete_task_total n tasks task_id Hnodup Hfw)
    as (tasks' & f & Hrun & Hnodup' & Hfw' & _).
  { pose proof (suffix_from_length task_id (keys tasks)). lia. }
  exists tasks'. split; [assumption|]. split; [|split; assumption].
  destruct (delete_task_keys (S n) tasks tasks' task_id Hnodup Hrun) as (_ & _ & Hno).
  unfold get_task. apply dict_get_none.
  destruct (dict_mem tasks' task_id) eqn:Hmem; [|reflexivity].
  apply dict_mem_In in Hmem. contradiction.
Qed.

Lemma delete_task_returns_witness :
  exists tasks',
    delete_task 3 [("a"%string, mk_obj Samples.parent_task ["b"%string]);
                   ("b"%string, mk_obj Samples.child_task [])] "a" = Ok tasks' /\
    get_task tasks' "a" = None /\
    List.NoDup (keys tasks') /\ forward tasks'.
Proof.
  apply delete_task_returns.
  - repeat constructor; simpl; intuition discriminate.
  - intros p o c Hp Hc _. cbn [dict_get] in Hp.
    destruct (String.eqb "a" p) eqn:Ha.
    + injection Hp as <-. apply String.eqb_eq in Ha. subst p.
      destruct Hc as [<-|[]]. simpl. left. reflexivity.
    + destruct (String.eqb "b" p); [injection Hp as <-; destruct Hc|discriminate].
  - simpl. lia.
Defined.

Lemma temp_tasks_of_length (objects : list task_obj) :
  (length (keys (temp_tasks_of objects)) <= length objects)%nat.
Proof.
  unfold temp_tasks_of.
  assert (H : forall d : dict task_obj,
             (length (keys (fold_left (fun d o => dict_set d (obj_id o) o) objects d))
              <= length (keys d) + length objects)%nat).
  { induction objects as [|o objects IH]; intros d; simpl; [lia|].
    etransitivity; [apply IH|]. rewrite dict_set_keys.
    destruct (dict_mem d (obj_id o)); [lia|]. rewrite length_app. simpl. lia. }
  apply (H []).
Qed.

(** Loading a store in which no task is its own parent leaves every child
    after its parent. *)
Lemma load_tasks_forward (objects : list task_obj) :
  (forall id o, dict_get (temp_tasks_of objects) id = Some o ->
                obj_parent_id o <> Some id) ->
  forward (load_tasks objects).
Proof.
  intros Hself p o c Hp Hc _.
  destruct (load_tasks_loaded objects) as (Hkeys & _). rewrite Hkeys.
  destruct (load_tasks_get objects p o Hp) as (orig & Horig & ->).
  simpl in Hc. apply filter_In in Hc. destruct Hc as (Hc & Hlink).
  destruct (suffix_from_present p (keys (temp_tasks_of objects))) as (rest & Hrest).
  { apply dict_mem_In. eapply dict_get_mem. eassumption. }
  rewrite Hrest in *. simpl. destruct Hc as [<-|Hc]; [|assumption].
  exfalso. unfold links_to in Hlink. rewrite Horig in Hlink.
  destruct (known_parent (temp_tasks_of objects) orig) as [q|] eqn:Hq; [|discriminate].
  apply String.eqb_eq in Hlink. subst q.
  apply known_parent_Some in Hq. destruct Hq as (Hq & _).
  apply (Hself p orig Horig Hq).
Qed.

(** After [load_tasks] on a store in which no task names itself as its
    parent, [delete_task] returns for every id, whatever the parent links
    (cycles among them included): one nested call more than there are
    stored tasks is enough, and the task is gone afterwards. *)
Theorem delete_task_after_load (objects : list task_obj) (task_id : string)
  (fuel : nat) :
  (forall id o, dict_get (temp_tasks_of objects) id = Some o ->
                obj_parent_id o <> Some id) ->
  (length objects < fuel)%nat ->
  exists tasks',
    delete_task fuel (load_tasks objects) task_id = Ok tasks' /\
    get_task tasks' task_id = None.
Proof.
  intros Hself Hfuel. destruct fuel as [|n]; [lia|].
  destruct (load_tasks_loaded objects) as (Hkeys & _).
  assert (Hnodup : List.NoDup (keys (load_tasks objects)))
    by (rewrite Hkeys; apply temp_tasks_of_NoDup).
  destruct (delete_task_total n (load_tasks objects) task_id Hnodup
              (load_tasks_forward objects Hself))
    as (tasks' & f & Hrun & _).
  { pose proof (suffix_from_length task_id (keys (load_tasks objects))).
    pose proof (temp_tasks_of_length objects). rewrite Hkeys in *. lia. }
  exists tasks'. split; [assumption|].
  destruct (delete_task_keys (S n) _ tasks' task_id Hnodup Hrun) as (_ & _ & Hno).
  unfold get_task. apply dict_get_none.
  destruct (dict_mem tasks' task_id) eqn:Hmem; [|reflexivity].
  apply dict_mem_In in Hmem. contradiction.
Qed.

Lemma delete_task_after_load_witness :
  exists tasks',
    delete_task 3
      (load_tasks [mk_obj Samples.parent_task []; mk_obj Samples.child_task []]) "a"
    = Ok tasks' /\
    get_task tasks' "a" = None.
Proof.
  apply delete_task_after_load.
  - intros id o Hget.
    change (temp_tasks_of [mk_obj Samples.parent_task []; mk_obj Samples.child_task []])
      with [("a"%string, mk_obj Samples.parent_task []);
            ("b"%string, mk_obj Samples.child_task [])] in Hget.
    cbn [dict_get] in Hget.
    destruct (String.eqb "a" id) eqn:Ha.
    + injection Hget as <-. discriminate.
    + destruct (String.eqb "b" id) eqn:Hb; [|discriminate].
      injection Hget as <-. apply String.eqb_eq in Hb. subst id. discriminate.
  - simpl. lia.
Defined.

(** Two tasks that name each other as parent: loading lists the second under
    the first only, and deleting the first removes both. *)
Example delete_task_parent_cycle :
  delete_task 3
    (load_tasks [mk_obj (mk_task "a" "Alpha" "" (Some "b")) [];
                 mk_obj (mk_task "b" "Beta" "" (Some "a")) []]) "a"
  = Ok [].
Proof. reflexivity. Qed.

(** ** What a layout run changes *)

Lemma integration_pass_forces (width height : Z) (central : option string)
  (nodes nodes' : dict node) :
  has_forces nodes -> integration_pass width height central nodes = Ok nodes' ->
  has_forces nodes'.
Proof.
  unfold integration_pass. intros Hforces H. apply map_result_Ok in H.
  induction H as [|[id0 n0] e' d d' He _ IH]; [intros ? []|].
  intros entry [<-|Hin].
  - destruct (Hforces (id0, n0) (or_introl eq_refl)) as (Hdx & Hdy). simpl in Hdx, Hdy.
    unfold integrate in He. destruct (is_central id0 central).
    + apply bind_Ok in He. destruct He as (cx & _ & He).
      apply bind_Ok in He. destruct He as (cy & _ & He).
      injection He as <-. simpl. auto.
    + inv_bind. subst. simpl. auto.
  - apply IH; [|assumption]. intros e He'. apply Hforces. right. assumption.
Qed.

Lemma iteration_forces (k : float) (edges : list edge) (width height : Z)
  (central : option string) (nodes nodes' : dict node) :
  iteration k edges width height central nodes = Ok nodes' -> has_forces nodes'.
Proof.
  unfold iteration. intros H.
  apply bind_Ok in H. destruct H as (n1 & H1 & H).
  apply bind_Ok in H. destruct H as (n2 & H2 & H).
  assert (Hforces : has_forces n2).
  { revert H2. unfold attraction_pass.
    apply (for_each_invariant has_forces).
    - intros s e s' Hs He. eapply attract_forces; eassumption.
    - apply (repulsion_pass_forces _ _ _ H1). }
  apply (integration_pass_forces _ _ _ _ _ Hforces H).
Qed.

(** What a run of the layout changes is confined to the entries ['x'],
    ['y'], ['dx'] and ['dy'] of the nodes: the map it returns has the same
    ids in the same order, each with the title it came with, and after at
    least one pass every node carries its two force accumulators. *)
Theorem force_layout_keeps_nodes (nodes : dict node) (edges : list edge)
  (width height : Z) (iterations : nat) (central : option string)
  (nodes' : dict node) :
  force_layout nodes edges width height iterations central = Ok nodes' ->
  titles nodes' = titles nodes /\ keys nodes' = keys nodes /\
  length nodes' = length nodes /\
  ((1 <= iterations)%nat -> has_forces nodes').
Proof.
  intros Hrun.
  pose proof (force_layout_titles _ _ _ _ _ _ _ Hrun) as Htitles.
  split; [assumption|]. split; [|split].
  - rewrite <- !titles_keys. congruence.
  - eapply force_layout_length. eassumption.
  - intros Hit.
    destruct nodes as [|e0 nodes0]; [injection Hrun as <-; intros ? []|].
    rewrite force_layout_unfold in Hrun by discriminate.
    apply bind_Ok in Hrun. destruct Hrun as (k & _ & Hrun).
    destruct iterations as [|m]; [lia|].
    destruct (iterate_last _ _ _ _ Hrun) as (d & _ & Hstep).
    apply (iteration_forces _ _ _ _ _ _ _ Hstep).
Qed.

Lemma force_layout_keeps_nodes_witness :
  titles Samples.two_nodes_laid_out = [("a", "Alpha"); ("b", "Beta")]%string /\
  keys Samples.two_nodes_laid_out = ["a"; "b"]%string /\
  length Samples.two_nodes_laid_out = 2%nat /\
  has_forces Samples.two_nodes_laid_out.
Proof.
  destruct (force_layout_keeps_nodes Samples.two_nodes [("a", "b")] 28 6 3 None
              Samples.two_nodes_laid_out) as (Htitles & Hkeys & Hlen & Hforces);
    [vm_compute; reflexivity|].
  split; [exact Htitles|]. split; [exact Hkeys|]. split; [exact Hlen|].
  apply Hforces. lia.
Defined.

(** The layout leaves the force accumulators of the last pass in the nodes
    it returns: they were absent in the input. *)
Example force_layout_adds_forces :
  List.Forall (fun entry : string * node => n_dx (snd entry) = None) Samples.two_nodes /\
  List.Forall (fun entry : string * node => n_dx (snd entry) <> None)
    Samples.two_nodes_laid_out.
Proof. split; repeat constructor; discriminate. Qed.

(** ** The pipeline: every label is readable *)

Lemma nodes_map_of_entries (rt : runtime) (width height : Z) (tasks : list Task) :
  forall acc nodes_map : dict node,
    for_each (add_node rt width height) tasks acc = Ok nodes_map ->
    forall entry, In entry nodes_map ->
      In entry acc \/
      exists task, In task tasks /\ task_id task = fst entry /\
                   task_title task = n_title (snd entry).
Proof.
  induction tasks as [|task tasks IH]; intros acc nodes_map H entry Hin; simpl in H.
  - injection H as <-. left. assumption.
  - apply bind_Ok in H. destruct H as (acc1 & Hadd & H).
    unfold add_node in Hadd. apply bind_Ok in Hadd. destruct Hadd as (n & Hn & Hadd).
    injection Hadd as <-.
    destruct (IH _ _ H entry Hin) as [Hacc|(task' & Htask' & Hid & Htitle)].
    + destruct (dict_set_In _ _ _ _ Hacc) as [Hold| ->]; [left; assumption|].
      right. exists task. split; [left; reflexivity|]. split; [reflexivity|].
      simpl. destruct (initial_node_shape _ _ _ _ _ Hn) as (-> & _). reflexivity.
    + right. exists task'. split; [right; assumption|]. split; assumption.
Qed.

Lemma nodes_map_of_NoDup (rt : runtime) (width height : Z) (tasks : list Task)
  (nodes_map : dict node) :
  nodes_map_of rt width height tasks = Ok nodes_map -> List.NoDup (keys nodes_map).
Proof.
  unfold nodes_map_of.
  apply (for_each_invariant (fun d : dict node => List.NoDup (keys d)));
    [|constructor].
  intros d task d' Hd Hadd.
  unfold add_node in Hadd. apply bind_Ok in Hadd. destruct Hadd as (n & _ & Hadd).
  injection Hadd as <-. rewrite dict_set_keys.
  destruct (dict_mem d (task_id task)) eqn:Hmem; [assumption|].
  apply List.NoDup_app; [assumption|repeat constructor; intros []|].
  intros x Hx [<-|[]]. apply dict_mem_In in Hx. congruence.
Qed.

(** When the pipeline draws a grid more than 12 columns wide and more than 4
    rows high, the grid is the rendering of the layout of the node map of
    the tasks, and every task other than the focus has its node there, once,
    under the title of a task of that id, and its whole label in the text
    at the truncated position the layout gave it, except where the label of
    a node later in the map lies over it. *)
Theorem pipeline_labels_painted (rt : runtime) (tasks : list Task)
  (width height : Z) (central : option string) (s : string) :
  12 < width -> 4 < height ->
  generate_ascii_graph rt tasks width height central = Ok s ->
  s <> no_tasks_message -> s <> no_links_message ->
  exists nodes_map positioned_nodes g,
    nodes_map_of rt width height tasks = Ok nodes_map /\
    force_layout nodes_map (find_links rt tasks) (width - 12) (height - 4) 100
      central = Ok positioned_nodes /\
    render_to_grid positioned_nodes (find_links rt tasks) width height central = Ok g /\
    s = grid_to_string g /\
    List.NoDup (keys positioned_nodes) /\
    forall task,
      In task tasks -> is_central (task_id task) central = false ->
      exists before n after x y,
        positioned_nodes = before ++ (task_id task, n) :: after /\
        (exists task', In task' tasks /\ task_id task' = task_id task /\
                       task_title task' = n_title n) /\
        py_int (n_x n) = Ok x /\ py_int (n_y n) = Ok y /\
        0 <= x <= width - 13 /\ 0 <= y <= height - 5 /\
        forall (i : nat) (ch : ascii),
          list_ascii_of_string (label_of central (task_id task) n) !! i = Some ch ->
          (forall e, In e after ->
             label_char width height central e (Z.to_nat y) (Z.to_nat x + i) = None) ->
          cell g (Z.to_nat y) (Z.to_nat x + i) = Some ch.
Proof.
  intros Hw Hh Hrun Hnot1 Hnot2.
  destruct tasks as [|t tasks']; [simpl in Hrun; congruence|].
  unfold generate_ascii_graph in Hrun.
  apply bind_Ok in Hrun. destruct Hrun as (nodes_map & Hnodes & Hrun).
  destruct ((match find_links rt (t :: tasks') with [] => true | _ => false end)
            && (1 <? len (t :: tasks'))); [congruence|].
  apply bind_Ok in Hrun. destruct Hrun as (positioned & Hlayout & Hrun).
  apply bind_Ok in Hrun. destruct Hrun as (g & Hrender & Hrun).
  injection Hrun as <-.
  pose proof (force_layout_titles _ _ _ _ _ _ _ Hlayout) as Htitles.
  assert (Hkeys : keys positioned = keys nodes_map)
    by (rewrite <- !titles_keys; congruence).
  exists nodes_map, positioned, g.
  split; [assumption|]. split; [assumption|]. split; [assumption|].
  split; [reflexivity|]. split.
  - rewrite Hkeys. apply (nodes_map_of_NoDup _ _ _ _ _ Hnodes).
  - intros task Htask Hcentral.
    assert (Hkey : In (task_id task) (keys positioned)).
    { rewrite Hkeys. apply dict_mem_In.
      apply (nodes_map_of_mem rt width height (t :: tasks') [] nodes_map Hnodes).
      right. apply in_map. assumption. }
    unfold keys in Hkey. apply in_map_iff in Hkey.
    destruct Hkey as ([node_id n] & Hid & Hin). simpl in Hid. subst node_id.
    destruct (in_split _ _ Hin) as (before & after & Hsplit).
    assert (Hiter : (1 <= 100)%nat) by lia.
    destruct (inset_layout_guard _ _ _ _ _ _ _ Hw Hh Hiter Hlayout (task_id task) n
                Hin Hcentral)
      as (x & y & Hx & Hy & Hxr & Hyr & Hlabel).
    exists before, n, after, x, y.
    split; [assumption|]. split.
    + assert (Htitle : In (task_id task, n_title n) (titles nodes_map)).
      { rewrite <- Htitles. unfold titles. apply in_map_iff.
        exists (task_id task, n). split; [reflexivity|assumption]. }
      unfold titles in Htitle. apply in_map_iff in Htitle.
      destruct Htitle as ([id0 n0] & [= Hid0 Hn0] & Hin0). simpl in Hid0, Hn0.
      destruct (nodes_map_of_entries rt width height (t :: tasks') [] nodes_map Hnodes
                  _ Hin0) as [[]|(task' & Htask' & Hid' & Htitle')].
      simpl in Hid', Htitle'. exists task'.
      split; [assumption|]. split; congruence.
    + split; [assumption|]. split; [assumption|].
      split; [assumption|]. split; [assumption|].
      intros i ch Hch Hafter.
      destruct (render_to_grid_inv _ _ _ _ _ _ Hrender) as (_ & g0 & _ & Hcells).
      rewrite Hcells, Hsplit. apply paint_last; [apply Hlabel; assumption|assumption].
Qed.

Lemma pipeline_labels_painted_witness :
  exists nodes_map positioned_nodes g s,
    generate_ascii_graph length_runtime [Samples.parent_task; Samples.child_task]
      40 10 None = Ok s /\
    nodes_map_of length_runtime 40 10 [Samples.parent_task; Samples.child_task]
      = Ok nodes_map /\
    force_layout nodes_map
      (find_links length_runtime [Samples.parent_task; Samples.child_task])
      (40 - 12) (10 - 4) 100 None = Ok positioned_nodes /\
    render_to_grid positioned_nodes
      (find_links length_runtime [Samples.parent_task; Samples.child_task]) 40 10 None
    = Ok g /\
    s = grid_to_string g /\ List.NoDup (keys positioned_nodes).
Proof.
  destruct (generate_ascii_graph length_runtime [Samples.parent_task; Samples.child_task]
              40 10 None) as [s| |] eqn:Hrun;
    [|vm_compute in Hrun; discriminate Hrun|vm_compute in Hrun; discriminate Hrun].
  destruct (pipeline_labels_painted length_runtime
              [Samples.parent_task; Samples.child_task] 40 10 None s)
    as (nodes_map & positioned & g & Hnodes & Hlayout & Hrender & Hs & Hnodup & _);
    try lia; try assumption.
  - intros ->. vm_compute in Hrun. discriminate Hrun.
  - intros ->. vm_compute in Hrun. discriminate Hrun.
  - exists nodes_map, positioned, g, s. auto 10.
Defined.
